(** * Tower defense engine of [Prototype Pattern/tower.py]

    A shallow embedding of the simulation core of the game: towers cloned
    from prototypes, enemies walking a polyline path, the wave manager, the
    placement and economy commands, and the per-frame [update].

    Conventions of the embedding.
    - Python [int] is [Z]; list positions are [nat].
    - Python [float] is the binary64 type [PrimFloat.float]: [+], [-], [*],
      [/] and [math.sqrt] are the IEEE operations in both languages.  An
      [int] operand of a mixed operation is converted with [float_of_int];
      the game's coordinates are far below [2^26], where integer sums of
      squares are exact in binary64, so converting before or after squaring
      gives the same number.  [v ** 2] is [v * v].
    - A method that mutates [self] returns the new value of [self]; a method
      that mutates the enemies it is given returns the new list.
    - Object identity, which [list.remove], [in] and [Tower.target] rely on,
      is the field [Enemy.eid], a number chosen at allocation.  The tower
      selected in the user interface is a position in [towers]: every
      operation that moves towers in the list clears the selection first.
    - A raised exception is [Raise]; it ends the program, so the state at
      the point of the raise is not kept.
    - Python raises OverflowError where an [int] beyond the range of
      binary64 is converted, where [** 2] of a [float] leaves that range,
      and where [int] is applied to an infinity.  The definitions are total
      there: the squares are infinite and [int] of an infinity is 0.  Where
      it matters a theorem is stated for numbers inside the range, and the
      numbers of every state of a game are shown to be inside it (section
      The numbers of a game). *)

From Stdlib Require Import ZArith List String Bool Lia.
From Stdlib Require Import PrimFloat FloatOps SpecFloat.
Import ListNotations.

Open Scope string_scope.
Open Scope Z_scope.

(** ** Python values *)

Module Py.

Inductive exn : Type :=
| IndexError
| KeyError
| ValueError
| ZeroDivisionError.

Inductive result (A : Type) : Type :=
| Ok (a : A)
| Raise (e : exn).

Arguments Ok {A} a.
Arguments Raise {A} e.

Definition bind {A B : Type} (m : result A) (k : A -> result B) : result B :=
  match m with
  | Ok a => k a
  | Raise e => Raise e
  end.

Definition fmap {A B : Type} (f : A -> B) (m : result A) : result B :=
  bind m (fun a => Ok (f a)).

(** [float(z)]: the binary64 number nearest to [z]. *)
Definition float_of_int (z : Z) : float :=
  SF2Prim (binary_normalize prec emax z 0 false).

(** [int(f)]: truncation toward zero (infinities and NaN raise in Python;
    no caller produces them). *)
Definition int_of_float (f : float) : Z :=
  match Prim2SF f with
  | S754_finite s m e =>
      let v := if 0 <=? e then Z.pos m * 2 ^ e
               else Z.quot (Z.pos m) (2 ^ (- e)) in
      if s then - v else v
  | _ => 0
  end.

(** [math.sqrt((x1 - x2) ** 2 + (y1 - y2) ** 2)]; where the square of a
    difference leaves the range of binary64 (differences beyond 1e154)
    Python raises OverflowError and this distance is infinite. *)
Definition distance (x1 y1 x2 y2 : float) : float :=
  let dx := (x1 - x2)%float in
  let dy := (y1 - y2)%float in
  PrimFloat.sqrt (dx * dx + dy * dy)%float.

(** [l[i] = f(l[i])], for an object mutated through a reference held in
    the list at position [i]. *)
Fixpoint list_update {A : Type} (i : nat) (f : A -> A) (l : list A) : list A :=
  match l, i with
  | [], _ => []
  | a :: l', O => f a :: l'
  | a :: l', S i' => a :: list_update i' f l'
  end.

(** [del l[i]] *)
Fixpoint list_delete {A : Type} (i : nat) (l : list A) : list A :=
  match l, i with
  | [], _ => []
  | _ :: l', O => l'
  | a :: l', S i' => a :: list_delete i' l'
  end.

(** [d[k]] on a [dict] kept in insertion order. *)
Fixpoint dict_get {A : Type} (k : string) (d : list (string * A)) : result A :=
  match d with
  | [] => Raise KeyError
  | (k', v) :: d' => if String.eqb k k' then Ok v else dict_get k d'
  end.

(** [range(lo, lo + n)] *)
Fixpoint range (lo : Z) (n : nat) : list Z :=
  match n with
  | O => []
  | S n' => lo :: range (lo + 1) n'
  end.

End Py.

Import Py.

Notation "x <- m ;; k" := (bind m (fun x => k))
  (at level 61, m at next level, right associativity).
Notation "' p <- m ;; k" := (bind m (fun x => match x with p => k end))
  (at level 61, p pattern, m at next level, right associativity).

Definition Color : Type := (Z * Z * Z)%type.
Definition RED : Color := (255, 0, 0).
Definition GREEN : Color := (0, 255, 0).
Definition BLUE : Color := (0, 0, 255).
Definition YELLOW : Color := (255, 255, 0).

Definition SCREEN_WIDTH : Z := 800.
Definition SCREEN_HEIGHT : Z := 600.
Definition GRID_SIZE : Z := 40.

Inductive GameState : Type :=
| GAME_STATE_PLAYING
| GAME_STATE_GAME_OVER
| GAME_STATE_VICTORY.

(** ** class Enemy *)

Module Enemy.

Record t : Type := mk {
  eid : nat;
  path : list (Z * Z);
  path_index : nat;
  x : float;
  y : float;
  speed : float;
  max_health : Z;
  health : Z;
  value : Z;
  color : Color
}.

Definition set_health (h : Z) (self : t) : t :=
  mk (eid self) (path self) (path_index self) (x self) (y self) (speed self)
     (max_health self) h (value self) (color self).

Definition set_position (i : nat) (px py : float) (self : t) : t :=
  mk (eid self) (path self) i px py (speed self)
     (max_health self) (health self) (value self) (color self).

(** [__init__]; [path[0]] raises on an empty path. *)
Definition init (fresh : nat) (path : list (Z * Z)) (speed : float)
    (health value : Z) (color : Color) : result t :=
  match path with
  | [] => Raise IndexError
  | (px, py) :: _ =>
      Ok (mk fresh path 0 (float_of_int px) (float_of_int py) speed
             health health value color)
  end.

(** [len(self.path) - 1 <= self.path_index] *)
Definition at_end (self : t) : bool :=
  Z.of_nat (List.length (path self)) - 1 <=? Z.of_nat (path_index self).

(** [update]: returns [True] if the enemy reached the end.  It is what
    Python computes while the squares of [dx] and [dy] stay inside the
    range of binary64 (see [Py.distance]), as they do on the coordinates of
    a game. *)
Definition update (self : t) : result (t * bool) :=
  if at_end self then Ok (self, true)
  else
    match nth_error (path self) (S (path_index self)) with
    | None => Raise IndexError
    | Some (target_x, target_y) =>
        let dx := (float_of_int target_x - x self)%float in
        let dy := (float_of_int target_y - y self)%float in
        let distance := PrimFloat.sqrt (dx * dx + dy * dy)%float in
        if (distance <? speed self)%float then
          Ok (set_position (S (path_index self))
                (float_of_int target_x) (float_of_int target_y) self, false)
        else if (distance =? 0)%float then Raise ZeroDivisionError
        else
          Ok (set_position (path_index self)
                (x self + dx / distance * speed self)%float
                (y self + dy / distance * speed self)%float self, false)
    end.

Definition is_alive (self : t) : bool := 0 <? health self.

End Enemy.

(** ** class EnemyFactory *)

Module EnemyFactory.

Definition create_enemy (fresh : nat) (enemy_type : string)
    (path : list (Z * Z)) : result Enemy.t :=
  if String.eqb enemy_type "basic" then Enemy.init fresh path 2%float 50 10 GREEN
  else if String.eqb enemy_type "fast" then Enemy.init fresh path 3.5%float 30 15 YELLOW
  else if String.eqb enemy_type "tank" then Enemy.init fresh path 1%float 150 25 RED
  else Raise ValueError.

End EnemyFactory.

(** ** class Tower and its subclasses *)

Module Tower.

(** The class of the object, which selects the [attack] method. *)
Inductive class : Type :=
| Basic
| Sniper
| Bomber.

Record t : Type := mk {
  x : Z;
  y : Z;
  radius : Z;
  damage : Z;
  cooldown : Z;
  cooldown_counter : Z;
  cost : Z;
  color : Color;
  name : string;
  level : Z;
  target : option nat;
  cls : class
}.

Definition set_xy (px py : Z) (self : t) : t :=
  mk px py (radius self) (damage self) (cooldown self)
     (cooldown_counter self) (cost self) (color self) (name self)
     (level self) (target self) (cls self).

Definition set_cooldown_counter (c : Z) (self : t) : t :=
  mk (x self) (y self) (radius self) (damage self) (cooldown self)
     c (cost self) (color self) (name self)
     (level self) (target self) (cls self).

Definition set_target (tg : option nat) (self : t) : t :=
  mk (x self) (y self) (radius self) (damage self) (cooldown self)
     (cooldown_counter self) (cost self) (color self) (name self)
     (level self) tg (cls self).

(** [copy.deepcopy(self)]: records are values, a copy is the record. *)
Definition clone (self : t) : t := self.

(** [int(n * 1.5)], as Python evaluates it: [n] is converted to binary64,
    multiplied by the binary64 number [1.5], and the product, rounded to
    binary64, is truncated toward zero.  (Beyond 1e308 the conversion or
    [int] of the infinite product raises OverflowError in Python; the
    definition gives 0 there, and nothing is stated of such an [n].) *)
Definition int_mul_1_5 (n : Z) : Z :=
  int_of_float (float_of_int n * 1.5)%float.

(** [int(n * 0.8)], likewise; the literal [0.8] is the binary64 number
    [0x1.999999999999ap-1]. *)
Definition int_mul_0_8 (n : Z) : Z :=
  int_of_float (float_of_int n * 0x1.999999999999ap-1)%float.

(** [upgrade]: the new tower and the returned upgrade cost.  It is what
    Python computes for a damage and a cooldown inside the range of
    binary64; beyond it Python raises OverflowError. *)
Definition upgrade (self : t) : t * Z :=
  (mk (x self) (y self)
      (radius self + 20)
      (int_mul_1_5 (damage self))
      (Z.max 10 (int_mul_0_8 (cooldown self)))
      (cooldown_counter self) (cost self) (color self) (name self)
      (level self + 1)
      (target self) (cls self),
   cost self / 2).

Definition can_attack (self : t) : bool := cooldown_counter self <=? 0.

(** Distance from the tower to an enemy. *)
Definition distance_to (self : t) (enemy : Enemy.t) : float :=
  Py.distance (float_of_int (x self)) (float_of_int (y self))
              (Enemy.x enemy) (Enemy.y enemy).

Definition in_range (self : t) (enemy : Enemy.t) : bool :=
  (distance_to self enemy <=? float_of_int (radius self))%float.

(** The loop of [find_target], from position [i] of the list on, with the
    closest enemy so far (its position and the object) and its distance. *)
Fixpoint find_target_loop (self : t) (enemies : list Enemy.t) (i : nat)
    (closest_enemy : option (nat * Enemy.t)) (min_distance : float)
    : option (nat * Enemy.t) :=
  match enemies with
  | [] => closest_enemy
  | enemy :: rest =>
      let distance := distance_to self enemy in
      if ((distance <=? float_of_int (radius self))%float
          && (distance <? min_distance)%float)%bool
      then find_target_loop self rest (S i) (Some (i, enemy)) distance
      else find_target_loop self rest (S i) closest_enemy min_distance
  end.

(** [find_target]: the closest enemy in range, with its position in the list. *)
Definition find_target (self : t) (enemies : list Enemy.t)
    : option (nat * Enemy.t) :=
  find_target_loop self enemies 0 None infinity.

(** [attack]: the new tower, the enemies after the hit, the damage dealt. *)
Definition attack (self : t) (enemies : list Enemy.t)
    : t * list Enemy.t * Z :=
  if negb (can_attack self) then
    (set_cooldown_counter (cooldown_counter self - 1) self, enemies, 0)
  else
    match find_target self enemies with
    | Some (i, enemy) =>
        (set_cooldown_counter (cooldown self)
           (set_target (Some (Enemy.eid enemy)) self),
         list_update i
           (fun e => Enemy.set_health (Enemy.health e - damage self) e)
           enemies,
         damage self)
    | None => (set_target None self, enemies, 0)
    end.

End Tower.

Definition BasicTower (x y : Z) : Tower.t :=
  Tower.mk x y 100 10 30 0 50 BLUE "Basic Tower" 1 None Tower.Basic.

Definition SniperTower (x y : Z) : Tower.t :=
  Tower.mk x y 200 30 60 0 100 RED "Sniper Tower" 1 None Tower.Sniper.

Module BomberTower.

Definition init (x y : Z) : Tower.t :=
  Tower.mk x y 80 15 45 0 75 YELLOW "Bomber Tower" 1 None Tower.Bomber.

(** [attack]: "Bomber attacks all enemies in radius". *)
Definition attack (self : Tower.t) (enemies : list Enemy.t)
    : Tower.t * list Enemy.t * Z :=
  if negb (Tower.can_attack self) then
    (Tower.set_cooldown_counter (Tower.cooldown_counter self - 1) self,
     enemies, 0)
  else
    let enemies_in_range := filter (Tower.in_range self) enemies in
    match enemies_in_range with
    | [] => (self, enemies, 0)
    | _ :: _ =>
        (Tower.set_cooldown_counter (Tower.cooldown self) self,
         map (fun e =>
                if Tower.in_range self e
                then Enemy.set_health (Enemy.health e - Tower.damage self) e
                else e)
             enemies,
         fold_left (fun total_damage _ => total_damage + Tower.damage self)
                   enemies_in_range 0)
    end.

End BomberTower.

(** [tower.attack(enemies)], resolved on the class of [tower]. *)
Definition tower_attack (tower : Tower.t) (enemies : list Enemy.t)
    : Tower.t * list Enemy.t * Z :=
  match Tower.cls tower with
  | Tower.Bomber => BomberTower.attack tower enemies
  | Tower.Basic | Tower.Sniper => Tower.attack tower enemies
  end.

(** ** class WaveManager *)

Module WaveManager.

Record t : Type := mk {
  current_wave : nat;
  waves : list (list string);
  spawn_timer : Z;
  enemy_index : nat;
  active : bool;
  spawn_delay : Z
}.

Definition init : t := mk 0 [] 0 0 false 60.

Definition add_wave (enemies : list string) (self : t) : t :=
  mk (current_wave self) (waves self ++ [enemies])%list (spawn_timer self)
     (enemy_index self) (active self) (spawn_delay self).

Definition start_wave (self : t) : t * bool :=
  if (current_wave self <? List.length (waves self))%nat then
    (mk (current_wave self) (waves self) 0 0 true (spawn_delay self), true)
  else (self, false).

(** [update]: the manager after the call and the enemy spawned, if any;
    [fresh] is the identity of the enemy object the call may allocate. *)
Definition update (fresh : nat) (self : t) (path : list (Z * Z))
    : result (t * option Enemy.t) :=
  if negb (active self) then Ok (self, None)
  else
    let timer := spawn_timer self + 1 in
    if spawn_delay self <=? timer then
      match nth_error (waves self) (current_wave self) with
      | None => Raise IndexError
      | Some wave =>
          if (enemy_index self <? List.length wave)%nat then
            match nth_error wave (enemy_index self) with
            | None => Raise IndexError
            | Some enemy_type =>
                enemy <- EnemyFactory.create_enemy fresh enemy_type path ;;
                Ok (mk (current_wave self) (waves self) 0
                       (S (enemy_index self)) (active self)
                       (spawn_delay self),
                    Some enemy)
            end
          else if (List.length wave <=? enemy_index self)%nat then
            Ok (mk (S (current_wave self)) (waves self) 0
                   (enemy_index self) false (spawn_delay self),
                None)
          else
            Ok (mk (current_wave self) (waves self) 0
                   (enemy_index self) (active self) (spawn_delay self),
                None)
      end
    else
      Ok (mk (current_wave self) (waves self) timer
             (enemy_index self) (active self) (spawn_delay self),
          None).

Definition is_finished (self : t) : bool :=
  (List.length (waves self) <=? current_wave self)%nat && negb (active self).

End WaveManager.

(** ** Input events, as [process_events] reads them *)

Module pygame.

Inductive key : Type :=
| K_ESCAPE | K_g | K_n | K_u | K_s | K_1 | K_2 | K_3 | K_other.

Inductive event : Type :=
| QUIT
| KEYDOWN (k : key)
| MOUSEBUTTONDOWN (button : Z)
| OTHER.

End pygame.

(** ** class TowerDefenseGame *)

Module TowerDefenseGame.

Record t : Type := mk {
  money : Z;
  lives : Z;
  score : Z;
  game_state : GameState;
  path : list (Z * Z);
  wave_manager : WaveManager.t;
  towers : list Tower.t;
  enemies : list Enemy.t;
  tower_prototypes : list (string * Tower.t);
  selected_tower_type : option string;
  dragging_tower : option Tower.t;
  selected_tower : option nat;
  grid_visible : bool;
  next_eid : nat
}.

Definition set_economy (m l s : Z) (self : t) : t :=
  mk m l s (game_state self) (path self) (wave_manager self)
     (towers self) (enemies self) (tower_prototypes self)
     (selected_tower_type self) (dragging_tower self) (selected_tower self)
     (grid_visible self) (next_eid self).

Definition set_money (m : Z) (self : t) : t :=
  set_economy m (lives self) (score self) self.

Definition set_game_state (st : GameState) (self : t) : t :=
  mk (money self) (lives self) (score self) st (path self)
     (wave_manager self) (towers self) (enemies self)
     (tower_prototypes self) (selected_tower_type self)
     (dragging_tower self) (selected_tower self) (grid_visible self)
     (next_eid self).

Definition set_wave_manager (wm : WaveManager.t) (self : t) : t :=
  mk (money self) (lives self) (score self) (game_state self) (path self)
     wm (towers self) (enemies self)
     (tower_prototypes self) (selected_tower_type self)
     (dragging_tower self) (selected_tower self) (grid_visible self)
     (next_eid self).

Definition set_towers (tws : list Tower.t) (self : t) : t :=
  mk (money self) (lives self) (score self) (game_state self) (path self)
     (wave_manager self) tws (enemies self)
     (tower_prototypes self) (selected_tower_type self)
     (dragging_tower self) (selected_tower self) (grid_visible self)
     (next_eid self).

Definition set_enemies (es : list Enemy.t) (self : t) : t :=
  mk (money self) (lives self) (score self) (game_state self) (path self)
     (wave_manager self) (towers self) es
     (tower_prototypes self) (selected_tower_type self)
     (dragging_tower self) (selected_tower self) (grid_visible self)
     (next_eid self).

Definition set_next_eid (n : nat) (self : t) : t :=
  mk (money self) (lives self) (score self) (game_state self) (path self)
     (wave_manager self) (towers self) (enemies self)
     (tower_prototypes self) (selected_tower_type self)
     (dragging_tower self) (selected_tower self) (grid_visible self) n.

(** The three user-interface references, set together. *)
Definition set_selection (ty : option string) (drag : option Tower.t)
    (sel : option nat) (self : t) : t :=
  mk (money self) (lives self) (score self) (game_state self) (path self)
     (wave_manager self) (towers self) (enemies self)
     (tower_prototypes self) ty drag sel (grid_visible self)
     (next_eid self).

Definition set_grid_visible (b : bool) (self : t) : t :=
  mk (money self) (lives self) (score self) (game_state self) (path self)
     (wave_manager self) (towers self) (enemies self)
     (tower_prototypes self) (selected_tower_type self)
     (dragging_tower self) (selected_tower self) b (next_eid self).

(** [setup_waves], on the fresh manager of [__init__]. *)
Definition setup_waves (wm : WaveManager.t) : WaveManager.t :=
  let wm := WaveManager.add_wave (repeat "basic" 10) wm in
  let wave2 := (repeat "basic" 8 ++ repeat "fast" 7)%list in
  let wm := WaveManager.add_wave wave2 wm in
  let wave3 := (repeat "basic" 10 ++ repeat "fast" 7 ++ repeat "tank" 3)%list in
  let wm := WaveManager.add_wave wave3 wm in
  let wave4 := (repeat "basic" 10 ++ repeat "fast" 10 ++ repeat "tank" 5)%list in
  let wm := WaveManager.add_wave wave4 wm in
  let wave5 := (repeat "basic" 10 ++ repeat "fast" 12 ++ repeat "tank" 8)%list in
  WaveManager.add_wave wave5 wm.

(** [__init__] *)
Definition init : t :=
  mk 200 20 0 GAME_STATE_PLAYING
     [(0, 300); (200, 300); (200, 150); (400, 150);
      (400, 450); (600, 450); (600, 300); (800, 300)]
     (setup_waves WaveManager.init)
     [] []
     [("basic", BasicTower 0 0); ("sniper", SniperTower 0 0);
      ("bomber", BomberTower.init 0 0)]
     None None None true 0.

Definition start_wave (self : t) : t * bool :=
  if negb (WaveManager.active (wave_manager self)) then
    let '(wm, started) := WaveManager.start_wave (wave_manager self) in
    (set_wave_manager wm self, started)
  else (self, false).

Definition get_grid_position (pos : Z * Z) : Z * Z :=
  let '(x, y) := pos in
  (x / GRID_SIZE * GRID_SIZE + GRID_SIZE / 2,
   y / GRID_SIZE * GRID_SIZE + GRID_SIZE / 2).

(** [math.sqrt((x - px) ** 2 + (y - py) ** 2)] on [int] coordinates: the
    sum of squares is an exact [int], converted by [math.sqrt]; for a sum
    beyond the range of binary64 (coordinates beyond 1e154, far from any
    position of the window) Python raises OverflowError and this distance
    is infinite. *)
Definition int_distance (x y px py : Z) : float :=
  PrimFloat.sqrt (float_of_int ((x - px) ^ 2 + (y - py) ^ 2)).

Definition far_from_path (pos point : Z * Z) : bool :=
  negb (int_distance (fst pos) (snd pos) (fst point) (snd point) <? 30)%float.

Definition far_from_tower (pos : Z * Z) (tower : Tower.t) : bool :=
  negb (int_distance (fst pos) (snd pos) (Tower.x tower) (Tower.y tower)
        <? 40)%float.

Definition on_screen (pos : Z * Z) : bool :=
  negb ((fst pos <? 0) || (SCREEN_WIDTH <=? fst pos)
        || (snd pos <? 0) || (SCREEN_HEIGHT <=? snd pos)).

Definition is_position_valid (self : t) (pos : Z * Z) : bool :=
  if negb (on_screen pos) then false
  else if negb (forallb (far_from_path pos) (path self)) then false
  else if negb (forallb (far_from_tower pos) (towers self)) then false
  else true.

Definition select_tower_type (tower_type : string) (self : t) : t :=
  match dict_get tower_type (tower_prototypes self) with
  | Ok prototype =>
      set_selection (Some tower_type) (Some (Tower.clone prototype)) None self
  | Raise _ =>
      set_selection None None (selected_tower self) self
  end.

(** Truth value of [self.selected_tower_type]: [None] and [""] are false. *)
Definition truthy (s : option string) : bool :=
  match s with
  | Some s => negb (String.eqb s "")
  | None => false
  end.

Definition place_tower (pos : Z * Z) (self : t) : result (t * bool) :=
  match selected_tower_type self, dragging_tower self with
  | Some tower_type, Some _ =>
      if negb (truthy (selected_tower_type self)) then Ok (self, false)
      else
        let grid_pos := get_grid_position pos in
        if negb (is_position_valid self grid_pos) then Ok (self, false)
        else
          prototype <- dict_get tower_type (tower_prototypes self) ;;
          if money self <? Tower.cost prototype then Ok (self, false)
          else
            let new_tower :=
              Tower.set_xy (fst grid_pos) (snd grid_pos)
                           (Tower.clone prototype) in
            Ok (set_money (money self - Tower.cost new_tower)
                  (set_towers (towers self ++ [new_tower])%list self),
                true)
  | _, _ => Ok (self, false)
  end.

(** The loop of [select_tower]: position of the first tower closer than 20. *)
Fixpoint tower_at (pos : Z * Z) (towers : list Tower.t) (i : nat)
    : option nat :=
  match towers with
  | [] => None
  | tower :: rest =>
      if (int_distance (fst pos) (snd pos) (Tower.x tower) (Tower.y tower)
          <? 20)%float
      then Some i
      else tower_at pos rest (S i)
  end.

Definition select_tower (pos : Z * Z) (self : t) : t * bool :=
  match tower_at pos (towers self) 0 with
  | Some i => (set_selection None None (Some i) self, true)
  | None =>
      (set_selection (selected_tower_type self) (dragging_tower self)
                     None self,
       false)
  end.

(** The object [self.selected_tower] refers to.  A position outside the
    list stands for no Python state (the selection is cleared whenever a
    tower leaves the list) and reads as no selection. *)
Definition selected (self : t) : option (nat * Tower.t) :=
  match selected_tower self with
  | Some i =>
      match nth_error (towers self) i with
      | Some tower => Some (i, tower)
      | None => None
      end
  | None => None
  end.

Definition upgrade_selected_tower (self : t) : t * bool :=
  match selected self with
  | None => (self, false)
  | Some (i, tower) =>
      let upgrade_cost := Tower.cost tower / 2 in
      if upgrade_cost <=? money self then
        (set_money (money self - upgrade_cost)
           (set_towers
              (list_update i (fun tw => fst (Tower.upgrade tw)) (towers self))
              self),
         true)
      else (self, false)
  end.

(** [int(cost * 0.7)], in binary64: the literal is [0x1.6666666666666p-1]. *)
Definition sell_value (cost : Z) : Z :=
  int_of_float (float_of_int cost * 0x1.6666666666666p-1)%float.

Definition sell_selected_tower (self : t) : t * bool :=
  match selected self with
  | None => (self, false)
  | Some (i, tower) =>
      (set_selection (selected_tower_type self) (dragging_tower self) None
         (set_towers (list_delete i (towers self))
            (set_money (money self + sell_value (Tower.cost tower)) self)),
       true)
  end.

(** One [KEYDOWN] event of [process_events]. *)
Definition handle_key (k : pygame.key) (self : t) : t :=
  match k with
  | pygame.K_ESCAPE => set_selection None None None self
  | pygame.K_g => set_grid_visible (negb (grid_visible self)) self
  | pygame.K_n => fst (start_wave self)
  | pygame.K_u => fst (upgrade_selected_tower self)
  | pygame.K_s => fst (sell_selected_tower self)
  | pygame.K_1 | pygame.K_2 | pygame.K_3 =>
      let tower_types := map fst (tower_prototypes self) in
      let index :=
        match k with pygame.K_2 => 1%nat | pygame.K_3 => 2%nat | _ => 0%nat end in
      match nth_error tower_types index with
      | Some tower_type => select_tower_type tower_type self
      | None => self
      end
  | pygame.K_other => self
  end.

(** The [for event in pygame.event.get()] loop; [false] when it returns
    on [QUIT]. *)
Fixpoint event_loop (events : list pygame.event) (mouse_pos : Z * Z)
    (self : t) : result (t * bool) :=
  match events with
  | [] => Ok (self, true)
  | pygame.QUIT :: _ => Ok (self, false)
  | pygame.KEYDOWN k :: rest => event_loop rest mouse_pos (handle_key k self)
  | pygame.MOUSEBUTTONDOWN button :: rest =>
      if button =? 1 then
        if truthy (selected_tower_type self) then
          '(self', _) <- place_tower mouse_pos self ;;
          event_loop rest mouse_pos self'
        else event_loop rest mouse_pos (fst (select_tower mouse_pos self))
      else event_loop rest mouse_pos self
  | pygame.OTHER :: rest => event_loop rest mouse_pos self
  end.

(** [process_events]: returns [False] to quit the game. *)
Definition process_events (events : list pygame.event) (mouse_pos : Z * Z)
    (self : t) : result (t * bool) :=
  '(self', continue) <- event_loop events mouse_pos self ;;
  if continue then
    match dragging_tower self' with
    | Some tower =>
        let grid_pos := get_grid_position mouse_pos in
        Ok (set_selection (selected_tower_type self')
              (Some (Tower.set_xy (fst grid_pos) (snd grid_pos) tower))
              (selected_tower self') self',
            true)
    | None => Ok (self', true)
    end
  else Ok (self', false).

(** *** [update], phase by phase *)

(** "Spawn new enemies" *)
Definition spawn_enemies (self : t) : result t :=
  '(wm, new_enemy) <-
    WaveManager.update (next_eid self) (wave_manager self) (path self) ;;
  match new_enemy with
  | Some enemy =>
      Ok (set_next_eid (S (next_eid self))
            (set_enemies (enemies self ++ [enemy])%list
               (set_wave_manager wm self)))
  | None => Ok (set_wave_manager wm self)
  end.

(** What the "Update enemies" loop accumulates. *)
Record tally : Type := mk_tally {
  t_lives : Z;
  t_money : Z;
  t_score : Z;
  enemies_to_remove : list nat
}.

(** The body of the loop, for one enemy. *)
Definition update_enemy (enemy : Enemy.t) (acc : tally)
    : result (Enemy.t * tally) :=
  '(enemy', reached_end) <- Enemy.update enemy ;;
  if reached_end then
    Ok (enemy',
        mk_tally (t_lives acc - 1) (t_money acc) (t_score acc)
                 (enemies_to_remove acc ++ [Enemy.eid enemy'])%list)
  else if negb (Enemy.is_alive enemy') then
    Ok (enemy',
        mk_tally (t_lives acc) (t_money acc + Enemy.value enemy')
                 (t_score acc + Enemy.value enemy')
                 (enemies_to_remove acc ++ [Enemy.eid enemy'])%list)
  else Ok (enemy', acc).

Fixpoint update_enemies (enemies : list Enemy.t) (acc : tally)
    : result (list Enemy.t * tally) :=
  match enemies with
  | [] => Ok ([], acc)
  | enemy :: rest =>
      '(enemy', acc1) <- update_enemy enemy acc ;;
      '(rest', acc2) <- update_enemies rest acc1 ;;
      Ok (enemy' :: rest', acc2)
  end.

(** [if enemy in self.enemies: self.enemies.remove(enemy)] *)
Fixpoint remove_enemy (id : nat) (enemies : list Enemy.t) : list Enemy.t :=
  match enemies with
  | [] => []
  | enemy :: rest =>
      if Nat.eqb (Enemy.eid enemy) id then rest
      else enemy :: remove_enemy id rest
  end.

(** "Remove dead or finished enemies" *)
Definition remove_enemies (ids : list nat) (enemies : list Enemy.t)
    : list Enemy.t :=
  fold_left (fun es id => remove_enemy id es) ids enemies.

(** "Update enemies" followed by "Remove dead or finished enemies". *)
Definition move_and_remove (self : t) : result t :=
  '(enemies', acc) <-
    update_enemies (enemies self)
      (mk_tally (lives self) (money self) (score self) []) ;;
  Ok (set_enemies (remove_enemies (enemies_to_remove acc) enemies')
        (set_economy (t_money acc) (t_lives acc) (t_score acc) self)).

(** The loop of "Update towers": every tower attacks the shared list. *)
Fixpoint attack_all (towers : list Tower.t) (enemies : list Enemy.t)
    : list Tower.t * list Enemy.t :=
  match towers with
  | [] => ([], enemies)
  | tower :: rest =>
      let '(tower', enemies', _) := tower_attack tower enemies in
      let '(rest', enemies'') := attack_all rest enemies' in
      (tower' :: rest', enemies'')
  end.

(** "Update towers" *)
Definition update_towers (self : t) : t :=
  let '(towers', enemies') := attack_all (towers self) (enemies self) in
  set_enemies enemies' (set_towers towers' self).

(** "Check game over conditions" *)
Definition check_game_over (self : t) : t :=
  if lives self <=? 0 then set_game_state GAME_STATE_GAME_OVER self
  else self.

(** "Check victory condition" *)
Definition check_victory (self : t) : t :=
  if WaveManager.is_finished (wave_manager self)
     && (match enemies self with [] => true | _ :: _ => false end)
  then set_game_state GAME_STATE_VICTORY self
  else self.

(** [update]: "Update game logic." *)
Definition update (self : t) : result t :=
  self1 <- spawn_enemies self ;;
  self2 <- move_and_remove self1 ;;
  Ok (check_victory (check_game_over (update_towers self2))).

(** The call of [update] that [run] makes once per frame:
    [if self.game_state == GAME_STATE_PLAYING: self.update()]. *)
Definition tick (self : t) : result t :=
  match game_state self with
  | GAME_STATE_PLAYING => update self
  | _ => Ok self
  end.

(** One iteration of the [while running] loop of [run], without drawing:
    the game after the frame and the new value of [running]. *)
Definition run_iteration (events : list pygame.event) (mouse_pos : Z * Z)
    (self : t) : result (t * bool) :=
  '(self', running) <- process_events events mouse_pos self ;;
  self'' <- tick self' ;;
  Ok (self'', running).

End TowerDefenseGame.

(** ** Iterated calls, used to state timing properties *)

Module Trace.

(** [n] successive calls of [WaveManager.update], enemies discarded. *)
Fixpoint wave_updates (n : nat) (fresh : nat) (path : list (Z * Z))
    (wm : WaveManager.t) : result WaveManager.t :=
  match n with
  | O => Ok wm
  | S n' =>
      '(wm', _) <- WaveManager.update fresh wm path ;;
      wave_updates n' fresh path wm'
  end.

(** [n] frames of the main loop with no input. *)
Fixpoint ticks (n : nat) (g : TowerDefenseGame.t)
    : result TowerDefenseGame.t :=
  match n with
  | O => Ok g
  | S n' => g' <- TowerDefenseGame.tick g ;; ticks n' g'
  end.

(** A command's result with the game state overwritten. *)
Definition with_state (st : GameState) (r : TowerDefenseGame.t * bool)
    : TowerDefenseGame.t * bool :=
  (TowerDefenseGame.set_game_state st (fst r), snd r).

End Trace.

(** ** What a frame does to the economy *)

Module Tally.

(** Enemies that start the frame with their index at the last waypoint:
    [Enemy.update] returns [True] for exactly these. *)
Definition exits (enemies : list Enemy.t) : Z :=
  Z.of_nat (List.length (filter Enemy.at_end enemies)).

(** An enemy that starts the frame short of the end with no health left. *)
Definition dead_on_path (enemy : Enemy.t) : bool :=
  negb (Enemy.at_end enemy) && negb (Enemy.is_alive enemy).

(** The sum of [value] over the enemies that start the frame dead. *)
Definition bounty (enemies : list Enemy.t) : Z :=
  fold_right (fun enemy total => Enemy.value enemy + total) 0
             (filter dead_on_path enemies).

(** An enemy that the frame's loop puts on [enemies_to_remove]. *)
Definition marked (enemy : Enemy.t) : bool :=
  Enemy.at_end enemy || negb (Enemy.is_alive enemy).

(** [e'] is [e] up to its health: all that an attack changes. *)
Definition hit (e e' : Enemy.t) : Prop :=
  e' = Enemy.set_health (Enemy.health e') e.

End Tally.

(** ** The binary64 computations of [Tower.upgrade] and exact quotients *)

Module Binary64.

(** The binary64 computations of [Tower.upgrade] give the exact quotients,
    truncated toward zero, at [n]. *)
Definition agree (n : Z) : bool :=
  (Tower.int_mul_1_5 n =? Z.quot (n * 3) 2)
  && (Tower.int_mul_0_8 n =? Z.quot (n * 4) 5).

(** A binary64 number that is not negative: its sign bit is clear, or it is
    not a number. *)
Definition not_negative (f : spec_float) : Prop :=
  match f with
  | S754_zero s | S754_infinity s | S754_finite s _ _ => s = false
  | S754_nan => True
  end.

End Binary64.

(** ** The states a game can be in *)

Module Reach.

Import TowerDefenseGame.

(** The states reached from [__init__] by calls of the public methods, in
    any order and with any arguments.  [process_events] and [update] are
    the two the main loop calls; the others are the commands
    [process_events] dispatches to. *)
Inductive reachable : TowerDefenseGame.t -> Prop :=
| reach_init : reachable init
| reach_select_tower_type (g : TowerDefenseGame.t) (tower_type : string) :
    reachable g -> reachable (select_tower_type tower_type g)
| reach_place_tower (g g' : TowerDefenseGame.t) (pos : Z * Z) (ok : bool) :
    reachable g -> place_tower pos g = Ok (g', ok) -> reachable g'
| reach_select_tower (g : TowerDefenseGame.t) (pos : Z * Z) :
    reachable g -> reachable (fst (select_tower pos g))
| reach_upgrade (g : TowerDefenseGame.t) :
    reachable g -> reachable (fst (upgrade_selected_tower g))
| reach_sell (g : TowerDefenseGame.t) :
    reachable g -> reachable (fst (sell_selected_tower g))
| reach_start_wave (g : TowerDefenseGame.t) :
    reachable g -> reachable (fst (start_wave g))
| reach_process_events (g g' : TowerDefenseGame.t)
    (events : list pygame.event) (mouse_pos : Z * Z) (running : bool) :
    reachable g ->
    process_events events mouse_pos g = Ok (g', running) ->
    reachable g'
| reach_update (g g' : TowerDefenseGame.t) :
    reachable g -> update g = Ok g' -> reachable g'.

(** The cost of one of the three prototypes. *)
Definition prototype_cost (c : Z) : Prop := c = 50 \/ c = 100 \/ c = 75.

(** A tower made from a prototype: it keeps the prototype's cost, and its
    damage is never negative. *)
Definition tower_ok (tw : Tower.t) : Prop :=
  prototype_cost (Tower.cost tw) /\ 0 <= Tower.damage tw.

(** The centre of a grid cell that lies on the screen: what
    [get_grid_position] returns when [is_position_valid] accepts it. *)
Definition on_grid (pos : Z * Z) : Prop :=
  exists i j : Z,
    0 <= i < 20 /\ 0 <= j < 15
    /\ pos = (i * GRID_SIZE + GRID_SIZE / 2, j * GRID_SIZE + GRID_SIZE / 2).

(** A placed tower: made from a prototype, standing on a cell centre. *)
Definition placed_ok (tw : Tower.t) : Prop :=
  tower_ok tw /\ on_grid (Tower.x tw, Tower.y tw).

(** What every reachable state satisfies: the balance is not negative,
    the path and the prototypes are those of [__init__], every placed
    tower is made from a prototype and stands on a cell centre, and every
    enemy has a bounty that is not negative. *)
Definition invariant (g : TowerDefenseGame.t) : Prop :=
  0 <= money g
  /\ tower_prototypes g = tower_prototypes init
  /\ path g = path init
  /\ Forall placed_ok (towers g)
  /\ Forall (fun e => 0 <= Enemy.value e) (enemies g).

(** The centres of the cells on the screen, column by column. *)
Definition grid_cells : list (Z * Z) :=
  flat_map
    (fun i =>
       map (fun j => (i * GRID_SIZE + GRID_SIZE / 2,
                      j * GRID_SIZE + GRID_SIZE / 2))
           (range 0 15))
    (range 0 20).

(** Squared distance between two points with [int] coordinates. *)
Definition distance2 (p q : Z * Z) : Z :=
  (fst p - fst q) ^ 2 + (snd p - snd q) ^ 2.

(** On a cell centre, the path test of [is_position_valid] agrees with the
    exact comparison of squared distances, for every waypoint of the path. *)
Definition path_test_exact (cell : Z * Z) : bool :=
  forallb
    (fun point =>
       Bool.eqb (far_from_path cell point) (900 <=? distance2 cell point))
    (path init).

(** On a cell centre, the tower test of [is_position_valid] agrees with the
    exact comparison of squared distances, for a tower on any cell centre. *)
Definition tower_test_exact (cell : Z * Z) : bool :=
  forallb
    (fun other =>
       Bool.eqb
         (negb (int_distance (fst cell) (snd cell) (fst other) (snd other)
                <? 40)%float)
         (1600 <=? distance2 cell other))
    grid_cells.

(** The references of a state denote objects: the enemies in the list are
    distinct objects allocated before now, and the selected tower, if any,
    is in the list of towers. *)
Definition well_formed (g : TowerDefenseGame.t) : Prop :=
  NoDup (map Enemy.eid (enemies g))
  /\ Forall (fun id => (id < next_eid g)%nat) (map Enemy.eid (enemies g))
  /\ match selected_tower g with
     | Some i => (i < List.length (towers g))%nat
     | None => True
     end.

End Reach.

(** ** The specification's AreaOfEffect attack, for comparison *)

Module Spec.



(** [upgrade] as the specification words it: damage becomes
    floor(damage * 1.5), the cooldown max(10, floor(cooldown * 0.8)), and
    floor(cost / 2) is returned. *)
Definition upgrade (self : Tower.t) : Tower.t * Z :=
  (Tower.mk (Tower.x self) (Tower.y self)
      (Tower.radius self + 20)
      (Tower.damage self * 3 / 2)
      (Z.max 10 (Tower.cooldown self * 4 / 5))
      (Tower.cooldown_counter self) (Tower.cost self) (Tower.color self)
      (Tower.name self)
      (Tower.level self + 1)
      (Tower.target self) (Tower.cls self),
   Tower.cost self / 2).

(** [p] lies on the segment from [a] to [b]. *)
Definition on_segment (a b p : Z * Z) : bool :=
  (Z.min (fst a) (fst b) <=? fst p) && (fst p <=? Z.max (fst a) (fst b))
  && (Z.min (snd a) (snd b) <=? snd p) && (snd p <=? Z.max (snd a) (snd b))
  && ((fst b - fst a) * (snd p - snd a) =? (snd b - snd a) * (fst p - fst a)).


End Spec.

(** ** Concrete states used as examples *)

Module Examples.

Definition game_path : list (Z * Z) :=
  TowerDefenseGame.path TowerDefenseGame.init.

(** A "basic" enemy standing on the last waypoint, (800, 300), while its
    index still names the segment that leads there. *)
Definition walker : Enemy.t :=
  Enemy.mk 0 game_path 6 800 300 2 50 50 10 GREEN.

(** The same enemy after the call that advances the index. *)
Definition walker_arrived : Enemy.t :=
  Enemy.mk 0 game_path 7 800 300 2 50 50 10 GREEN.

(** A manager with the single wave ["basic"], one call before the spawn. *)
Definition one_wave_due : WaveManager.t :=
  WaveManager.mk 0 [["basic"]] 59 0 true 60.

(** The manager right after that spawn. *)
Definition one_wave_spawned : WaveManager.t :=
  WaveManager.mk 0 [["basic"]] 0 1 true 60.

(** The game of [__init__] with towers placed and enemies on the path;
    [next] is the number of enemies allocated so far. *)
Definition scene (towers : list Tower.t) (enemies : list Enemy.t)
    (next : nat) : TowerDefenseGame.t :=
  TowerDefenseGame.set_next_eid next
    (TowerDefenseGame.set_enemies enemies
       (TowerDefenseGame.set_towers towers TowerDefenseGame.init)).

(** A basic tower next to the exit and one enemy with 10 health left
    standing on the last waypoint. *)
Definition exit_guard : TowerDefenseGame.t :=
  scene [BasicTower 780 260]
        [Enemy.mk 0 game_path 6 800 300 2 50 10 10 GREEN] 1.



(** An enemy on the last waypoint, index at the end, with no health left. *)
Definition dead_at_exit : TowerDefenseGame.t :=
  scene [] [Enemy.mk 0 game_path 7 800 300 2 50 0 10 GREEN] 1.

(** A tower whose damage, [2^52 + 1], and cooldown, [2^51 + 3], are beyond
    what binary64 multiplies exactly by 1.5 and by 0.8. *)
Definition heavy : Tower.t :=
  Tower.mk 0 0 100 4503599627370497 2251799813685251 0 50 BLUE
           "Basic Tower" 1 None Tower.Basic.

(** A bomber tower (attack radius 80, damage 15) at (100, 260). *)
Definition bomber : Tower.t := BomberTower.init 100 260.

(** An enemy of health 50 on the first segment of the path, at (x, 300). *)
Definition enemy_at (id : nat) (x : float) : Enemy.t :=
  Enemy.mk id game_path 0 x 300 2 50 50 10 GREEN.

(** One enemy inside the bomber's range (at distance 72.1) and one outside
    it (at distance 98.5) but 30 away from the first. *)
Definition blast_beyond_range : list Enemy.t :=
  [enemy_at 0 160; enemy_at 1 190].

(** Two enemies inside the bomber's range (at distances 70.5 and 72.1),
    118 apart from each other. *)
Definition spread_in_range : list Enemy.t :=
  [enemy_at 0 160; enemy_at 1 42].


(** The last enemy of the last wave about to leave, with one life left:
    all five waves are over and the only enemy stands at the end. *)
Definition last_life : TowerDefenseGame.t :=
  TowerDefenseGame.set_wave_manager
    (WaveManager.mk 5
       (WaveManager.waves
          (TowerDefenseGame.wave_manager TowerDefenseGame.init))
       0 30 false 60)
    (TowerDefenseGame.set_economy 200 1 0
       (scene [] [Enemy.mk 99 game_path 7 800 300 2 50 50 10 GREEN] 100)).

(** A lost game in which the player has picked the basic tower. *)
Definition lost_with_selection : TowerDefenseGame.t :=
  TowerDefenseGame.set_game_state GAME_STATE_GAME_OVER
    (TowerDefenseGame.select_tower_type "basic" TowerDefenseGame.init).

(** What the examples observe of a game: money, lives, score, and the
    index and health of every enemy in the list. *)
Definition observe (g : TowerDefenseGame.t)
    : Z * Z * Z * list (nat * Z) :=
  (TowerDefenseGame.money g, TowerDefenseGame.lives g,
   TowerDefenseGame.score g,
   map (fun e => (Enemy.path_index e, Enemy.health e))
       (TowerDefenseGame.enemies g)).

End Examples.

(** * Further definitions: the rest of the module's behaviour *)

From Stdlib Require FloatAxioms Uint63.

(** ** The order of binary64 numbers *)

Module FloatOrder.

(** The place of a number that is not NaN on the line: infinities at the
    ends, both zeros together, and finite numbers by sign, then exponent,
    then mantissa. *)
Definition key (f : spec_float) : Z * Z * Z :=
  match f with
  | S754_zero _ => (0, 0, 0)
  | S754_infinity false => (2, 0, 0)
  | S754_infinity true => (-2, 0, 0)
  | S754_nan => (0, 0, 0)
  | S754_finite false m e => (1, e, Z.pos m)
  | S754_finite true m e => (-1, - e, - Z.pos m)
  end.

Definition is_nan (f : spec_float) : bool :=
  match f with
  | S754_nan => true
  | _ => false
  end.

(** Lexicographic order on keys. *)
Definition key_lt (a b : Z * Z * Z) : Prop :=
  let '(a1, a2, a3) := a in
  let '(b1, b2, b3) := b in
  a1 < b1 \/ (a1 = b1 /\ (a2 < b2 \/ (a2 = b2 /\ a3 < b3))).

(** [f] is a number: [f <= f] holds for everything but NaN. *)
Definition number (f : float) : Prop := (f <=? f)%float = true.

End FloatOrder.

(** ** What [find_target] has established part way through the list *)

Module Targeting.

(** After the enemies [seen], with [closest] and [min_distance] as the loop
    holds them: [min_distance] bounds the distance of every enemy in range
    from below, and [closest], if set, is an enemy in range at that
    distance, strictly nearer than every enemy in range before it. *)
Definition established (self : Tower.t) (seen : list Enemy.t)
    (closest : option (nat * Enemy.t)) (min_distance : float) : Prop :=
  FloatOrder.number min_distance
  /\ (forall j ej,
         nth_error seen j = Some ej -> Tower.in_range self ej = true ->
         (min_distance <=? Tower.distance_to self ej)%float = true)
  /\ match closest with
     | None => min_distance = infinity
     | Some (k, ek) =>
         nth_error seen k = Some ek
         /\ Tower.in_range self ek = true
         /\ min_distance = Tower.distance_to self ek
         /\ (forall j ej,
                (j < k)%nat -> nth_error seen j = Some ej ->
                Tower.in_range self ej = true ->
                (Tower.distance_to self ek <? Tower.distance_to self ej)%float
                = true)
     end.

End Targeting.

(** ** Measures and repeated calls *)

Module Measure.

(** Coordinates on which [Enemy.update] computes what Python computes: the
    enemy and the waypoints of its path lie within [2^25] of the origin on
    each axis.  There no [** 2] overflows (Python raises OverflowError
    beyond 1e154, where the binary64 product is infinite), and the sums of
    squares of [int] coordinates, which Python computes exactly, fit in
    binary64. *)
Definition moderate (e : Enemy.t) : bool :=
  (abs (Enemy.x e) <=? 0x1p25)%float && (abs (Enemy.y e) <=? 0x1p25)%float
  && forallb (fun p => (Z.abs (fst p) <=? 2 ^ 25) && (Z.abs (snd p) <=? 2 ^ 25))
             (Enemy.path e).

(** The sum of the health of the enemies. *)
Definition total_health (enemies : list Enemy.t) : Z :=
  fold_right (fun e total => Enemy.health e + total) 0 enemies.

(** What one attack by [self] may do to one enemy: nothing, or, if the enemy
    is in range, take [self.damage] off its health. *)
Definition touched (self : Tower.t) (e e' : Enemy.t) : Prop :=
  e' = e
  \/ (Tower.in_range self e = true
      /\ e' = Enemy.set_health (Enemy.health e - Tower.damage self) e).

(** [n] successive calls of [tower.attack(enemies)] on the same list, with
    the damage they return added up. *)
Fixpoint attacks (n : nat) (tower : Tower.t) (enemies : list Enemy.t)
    : Tower.t * list Enemy.t * Z :=
  match n with
  | O => (tower, enemies, 0)
  | S n' =>
      let '(tower1, enemies1, d1) := tower_attack tower enemies in
      let '(tower2, enemies2, d2) := attacks n' tower1 enemies1 in
      (tower2, enemies2, d1 + d2)
  end.

(** The enemies [EnemyFactory.create_enemy] makes for the kinds [types], in
    order, the first with identity [fresh]; the first failure is raised. *)
Fixpoint recruits (fresh : nat) (path : list (Z * Z)) (types : list string)
    : result (list Enemy.t) :=
  match types with
  | [] => Ok []
  | enemy_type :: rest =>
      enemy <- EnemyFactory.create_enemy fresh enemy_type path ;;
      enemies <- recruits (S fresh) path rest ;;
      Ok (enemy :: enemies)
  end.

(** [n] successive calls of [WaveManager.update], with the enemies they
    return collected in order; as in the game, the identity counter moves
    on with every enemy made. *)
Fixpoint wave_run (n : nat) (fresh : nat) (path : list (Z * Z))
    (wm : WaveManager.t) : result (WaveManager.t * list Enemy.t) :=
  match n with
  | O => Ok (wm, [])
  | S n' =>
      '(wm', new_enemy) <- WaveManager.update fresh wm path ;;
      match new_enemy with
      | Some enemy =>
          '(wm'', enemies) <- wave_run n' (S fresh) path wm' ;;
          Ok (wm'', enemy :: enemies)
      | None => wave_run n' fresh path wm'
      end
  end.

(** [n] successive calls of [upgrade]. *)
Fixpoint upgrades (n : nat) (tower : Tower.t) : Tower.t :=
  match n with
  | O => tower
  | S n' => upgrades n' (fst (Tower.upgrade tower))
  end.

End Measure.

(** ** What holds in every state of a game *)

Module Sound.

Import TowerDefenseGame.

(** The user-interface references: a tower type is selected exactly when a
    tower is being dragged; the type is then a key of the prototypes, the
    dragged tower is a copy of that prototype moved to some position, and no
    placed tower is selected. *)
Definition ui_ok (g : TowerDefenseGame.t) : Prop :=
  match selected_tower_type g, dragging_tower g with
  | Some tower_type, Some dragged =>
      (exists prototype px py,
          dict_get tower_type (tower_prototypes g) = Ok prototype
          /\ dragged = Tower.set_xy px py prototype)
      /\ selected_tower g = None
  | None, None => True
  | _, _ => False
  end.

(** A kind [EnemyFactory.create_enemy] accepts. *)
Definition known (enemy_type : string) : bool :=
  String.eqb enemy_type "basic" || String.eqb enemy_type "fast"
  || String.eqb enemy_type "tank".

(** The wave manager: the five waves and the delay of [__init__], a timer
    inside the delay, a wave index that does not pass the number of waves,
    and, while a wave is active, that wave exists and the cursor is inside
    it. *)
Definition wave_ok (wm : WaveManager.t) : Prop :=
  WaveManager.waves wm = WaveManager.waves (wave_manager init)
  /\ WaveManager.spawn_delay wm = 60
  /\ 0 <= WaveManager.spawn_timer wm < 60
  /\ (WaveManager.current_wave wm <= 5)%nat
  /\ (WaveManager.active wm = true ->
      exists wave,
        nth_error (WaveManager.waves wm) (WaveManager.current_wave wm)
        = Some wave
        /\ (WaveManager.enemy_index wm <= List.length wave)%nat).

(** The stats of one of the three kinds of enemy. *)
Definition kind_ok (e : Enemy.t) : Prop :=
  (Enemy.speed e = 2%float /\ Enemy.max_health e = 50 /\ Enemy.value e = 10)
  \/ (Enemy.speed e = 3.5%float /\ Enemy.max_health e = 30
      /\ Enemy.value e = 15)
  \/ (Enemy.speed e = 1%float /\ Enemy.max_health e = 150
      /\ Enemy.value e = 25).

(** An enemy of the game: on the path of the game, of one of the three
    kinds, with no more health than it started with, and with its index
    inside the path. *)
Definition enemy_ok (e : Enemy.t) : Prop :=
  Enemy.path e = path init
  /\ kind_ok e
  /\ Enemy.health e <= Enemy.max_health e
  /\ (Enemy.path_index e <= 7)%nat.

(** What the game state says about the rest of the state. *)
Definition state_ok (g : TowerDefenseGame.t) : Prop :=
  (game_state g = GAME_STATE_PLAYING -> 0 < lives g)
  /\ (game_state g = GAME_STATE_GAME_OVER -> lives g <= 0)
  /\ (game_state g = GAME_STATE_VICTORY ->
      WaveManager.is_finished (wave_manager g) = true /\ enemies g = [])
  /\ lives g <= 20
  /\ 0 <= score g.

(** The position of a tower. *)
Definition position (tw : Tower.t) : Z * Z := (Tower.x tw, Tower.y tw).

(** Every two towers of the list are at least 40 apart. *)
Fixpoint apart (towers : list Tower.t) : Prop :=
  match towers with
  | [] => True
  | tw :: rest =>
      Forall (fun other =>
                40 ^ 2 <= Reach.distance2 (position tw) (position other))
             rest
      /\ apart rest
  end.

(** The placed towers keep their distance: at least 30 from every waypoint
    of the path and at least 40 from one another. *)
Definition spaced (g : TowerDefenseGame.t) : Prop :=
  Forall (fun tw =>
            forall point, In point (path g) ->
              30 ^ 2 <= Reach.distance2 (position tw) point)
         (towers g)
  /\ apart (towers g).

Definition sound (g : TowerDefenseGame.t) : Prop :=
  ui_ok g /\ wave_ok (wave_manager g) /\ Forall enemy_ok (enemies g)
  /\ state_ok g /\ spaced g.

(** All that the development knows of a state of a game. *)
Definition good (g : TowerDefenseGame.t) : Prop :=
  Reach.invariant g /\ Reach.well_formed g /\ sound g.

(** What selling every placed tower would bring in. *)
Definition resale (towers : list Tower.t) : Z :=
  fold_right (fun tower total => sell_value (Tower.cost tower) + total) 0
             towers.

(** The balance and the resale value of the towers are covered by the money
    of the start and the bounties earned, which the score counts. *)
Definition solvent (g : TowerDefenseGame.t) : Prop :=
  money g + resale (towers g) <= money init + score g.

(** On cell centres, the test of [select_tower] agrees with the exact
    comparison of squared distances. *)
Definition select_test_exact (cell : Z * Z) : bool :=
  forallb
    (fun other =>
       Bool.eqb
         (int_distance (fst cell) (snd cell) (fst other) (snd other)
          <? 20)%float
         (Reach.distance2 cell other <? 400))
    Reach.grid_cells.

End Sound.

(** ** Where the money comes from, and what it buys *)

Module Ledger.

Import TowerDefenseGame.

(** The bounty of a kind of enemy, as [EnemyFactory.create_enemy] sets it. *)
Definition bounty_of (enemy_type : string) : Z :=
  if String.eqb enemy_type "basic" then 10
  else if String.eqb enemy_type "fast" then 15
  else if String.eqb enemy_type "tank" then 25
  else 0.

Definition wave_bounty (wave : list string) : Z :=
  fold_right (fun enemy_type total => bounty_of enemy_type + total) 0 wave.

Definition waves_bounty (waves : list (list string)) : Z :=
  fold_right (fun wave total => wave_bounty wave + total) 0 waves.

(** The bounties of the enemies that the wave manager has still to make:
    the rest of the active wave and the waves after it, or, between waves,
    the waves from [current_wave] on. *)
Definition pending (wm : WaveManager.t) : Z :=
  if WaveManager.active wm then
    match nth_error (WaveManager.waves wm) (WaveManager.current_wave wm) with
    | Some wave =>
        wave_bounty (skipn (WaveManager.enemy_index wm) wave)
        + waves_bounty (skipn (S (WaveManager.current_wave wm))
                              (WaveManager.waves wm))
    | None => 0
    end
  else waves_bounty (skipn (WaveManager.current_wave wm)
                           (WaveManager.waves wm)).

(** The bounties of the enemies on the list. *)
Definition on_field (enemies : list Enemy.t) : Z :=
  fold_right (fun enemy total => Enemy.value enemy + total) 0 enemies.

(** The score, the bounties on the list and the bounties to come never
    exceed the bounties of the five waves. *)
Definition balanced (g : TowerDefenseGame.t) : Prop :=
  score g + on_field (enemies g) + pending (wave_manager g)
  <= pending (wave_manager init).

(** What a tower has cost: its price and one upgrade for each level above
    the first. *)
Definition paid (tower : Tower.t) : Z :=
  Tower.cost tower + (Tower.level tower - 1) * (Tower.cost tower / 2).

Definition invested (towers : list Tower.t) : Z :=
  fold_right (fun tower total => paid tower + total) 0 towers.

(** The balance and what the placed towers have cost are covered by the
    money of the start and the bounties earned. *)
Definition funded (g : TowerDefenseGame.t) : Prop :=
  money g + invested (towers g) <= money init + score g.

(** The prototype of a class of tower. *)
Definition prototype (c : Tower.class) : Tower.t :=
  match c with
  | Tower.Basic => BasicTower 0 0
  | Tower.Sniper => SniperTower 0 0
  | Tower.Bomber => BomberTower.init 0 0
  end.

(** The damage and the cooldown that [n] calls of [Tower.upgrade] make of a
    damage and a cooldown. *)
Fixpoint stats (n : nat) (damage cooldown : Z) : Z * Z :=
  match n with
  | O => (damage, cooldown)
  | S n' =>
      let '(d, c) := stats n' damage cooldown in
      (Tower.int_mul_1_5 d, Z.max 10 (Tower.int_mul_0_8 c))
  end.

(** A tower as placing and upgrading make it: at level [1 + n] its damage
    and its cooldown are those of the prototype of its class after [n]
    upgrades, its radius is the prototype's and [20 * n], and its cost is
    the prototype's. *)
Definition graded (tower : Tower.t) : Prop :=
  exists n : nat,
    Tower.level tower = 1 + Z.of_nat n
    /\ (Tower.damage tower, Tower.cooldown tower)
       = stats n (Tower.damage (prototype (Tower.cls tower)))
                 (Tower.cooldown (prototype (Tower.cls tower)))
    /\ Tower.cost tower = Tower.cost (prototype (Tower.cls tower))
    /\ Tower.radius tower
       = Tower.radius (prototype (Tower.cls tower)) + 20 * Z.of_nat n.

(** The three together. *)
Definition audited (g : TowerDefenseGame.t) : Prop :=
  balanced g /\ funded g /\ Forall graded (towers g).

(** At a level a game can pay for, the stats of a class are small numbers
    on which the binary64 products of [Tower.upgrade] are the exact
    quotients. *)
Definition stats_ok (c : Tower.class) (n : nat) : bool :=
  let '(d, cd) := stats n (Tower.damage (prototype c))
                        (Tower.cooldown (prototype c)) in
  (0 <=? d) && (d <=? 10 ^ 13) && (10 <=? cd) && (cd <=? 60)
  && (Tower.int_mul_1_5 d =? d * 3 / 2)
  && (Z.max 10 (Tower.int_mul_0_8 cd) =? Z.max 10 (cd * 4 / 5)).

End Ledger.

(** ** The way of an enemy *)

Module Course.

(** Where an enemy is: its index into the path and its coordinates. *)
Definition point : Type := (nat * float * float)%type.

Definition position (e : Enemy.t) : point :=
  (Enemy.path_index e, Enemy.x e, Enemy.y e).

(** An enemy of the game at a point, with a speed; [Enemy.update] reads
    nothing else of an enemy but its path. *)
Definition probe (speed : float) (p : point) : Enemy.t :=
  Enemy.mk 0 (TowerDefenseGame.path TowerDefenseGame.init)
           (fst (fst p)) (snd (fst p)) (snd p) speed 0 0 0 GREEN.

(** Where [Enemy.update] takes an enemy of that speed from that point. *)
Definition next (speed : float) (p : point) : point :=
  match Enemy.update (probe speed p) with
  | Ok (e, _) => position e
  | Raise _ => p
  end.

(** The first [n] points of the way from [p]. *)
Fixpoint trail_from (n : nat) (speed : float) (p : point) : list point :=
  match n with
  | O => []
  | S n' => p :: trail_from n' speed (next speed p)
  end.

(** Where [Enemy.__init__] puts an enemy of the game: on [path[0]]. *)
Definition start : point := (0%nat, float_of_int 0, float_of_int 300).

(** The way of an enemy of the game, call of [update] by call. *)
Definition trail (speed : float) : list point := trail_from 1500 speed start.

Definition on_course (e : Enemy.t) : Prop :=
  In (position e) (trail (Enemy.speed e)).

(** [v] lies between the [int] coordinates [a] and [b]. *)
Definition between (a b : Z) (v : float) : bool :=
  (float_of_int (Z.min a b) <=? v)%float
  && (v <=? float_of_int (Z.max a b))%float.

(** The point lies on the segment of the path that its index names: the
    segment from waypoint [i] to waypoint [i + 1], which runs along an axis,
    or at the last waypoint. *)
Definition on_segment (path : list (Z * Z)) (p : point) : bool :=
  match nth_error path (fst (fst p)) with
  | Some (ax, ay) =>
      let '(bx, b_y) := nth (S (fst (fst p))) path (ax, ay) in
      ((ax =? bx) || (ay =? b_y))
      && between ax bx (snd (fst p)) && between ay b_y (snd p)
  | None => false
  end.

(** [n] calls of [update] on one enemy, stopping at the first that raises. *)
Fixpoint updates (n : nat) (e : Enemy.t) : Enemy.t :=
  match n with
  | O => e
  | S n' =>
      match Enemy.update e with
      | Ok (e', _) => updates n' e'
      | Raise _ => e
      end
  end.

End Course.

(** ** More example states *)

Module MoreExamples.

(** A manager holding one wave of a basic and a fast enemy, not started. *)
Definition two_in_a_wave : WaveManager.t :=
  WaveManager.mk 0 [["basic"; "fast"]] 0 0 false 60.

(** The game once a basic tower stands at (100, 260). *)
Definition first_tower : TowerDefenseGame.t :=
  TowerDefenseGame.set_money 150
    (TowerDefenseGame.set_towers [BasicTower 100 260]
       (TowerDefenseGame.select_tower_type "basic" TowerDefenseGame.init)).

(** [n] calls of [update], stopping at the first that raises. *)
Fixpoint frames (n : nat) (g : TowerDefenseGame.t) : TowerDefenseGame.t :=
  match n with
  | O => g
  | S n' =>
      match TowerDefenseGame.update g with
      | Ok g' => frames n' g'
      | Raise _ => g
      end
  end.

(** That game, 150 frames into the first wave. *)
Definition skirmish : TowerDefenseGame.t :=
  frames 150 (fst (TowerDefenseGame.start_wave first_tower)).

(** The enemy at the head of its list. *)
Definition front : Enemy.t :=
  hd Examples.walker (TowerDefenseGame.enemies skirmish).

End MoreExamples.

(** * Properties *)

Import TowerDefenseGame.

(** ** Generic facts *)

Lemma bind_Ok_inv {A B : Type} (m : result A) (k : A -> result B) (b : B) :
  bind m k = Ok b -> exists a, m = Ok a /\ k a = Ok b.
Proof.
  destruct m as [a|e]; simpl; intros H.
  - exists a. split; [reflexivity | exact H].
  - discriminate H.
Qed.

Ltac inv_bind H :=
  let a := fresh "a" in
  let Ha := fresh "Ha" in
  apply bind_Ok_inv in H; destruct H as [a [Ha H]].

(** ** Tower.upgrade *)

Lemma max_10_quot_div (n : Z) : Z.max 10 (Z.quot n 5) = Z.max 10 (n / 5).
Proof.
  destruct (Z_le_gt_dec 0 n) as [Hn|Hn].
  - rewrite Z.quot_div_nonneg by lia. reflexivity.
  - assert (Hq : Z.quot n 5 <= 0).
    { apply Z.quot_le_upper_bound; lia. }
    assert (Hd : n / 5 <= 0).
    { apply Z.div_le_upper_bound; lia. }
    lia.
Qed.

(** *** The sign of [int(n * c)]: no rounding makes it negative *)

Lemma binary_round_aux_sign (m e : Z) (l : location) :
  Binary64.not_negative (binary_round_aux prec emax false m e l).
Proof.
  unfold binary_round_aux.
  destruct (shr_fexp prec emax m e l) as [mrs' e'].
  destruct (shr_fexp prec emax _ e' loc_Exact) as [mrs'' e''].
  destruct (shr_m mrs''); [reflexivity | | exact I].
  destruct (e'' <=? emax - prec); reflexivity.
Qed.

Lemma binary_round_sign (m : positive) (e : Z) :
  Binary64.not_negative (binary_round prec emax false m e).
Proof.
  unfold binary_round. destruct (shl_align m e _) as [mz ez].
  apply binary_round_aux_sign.
Qed.

Lemma binary_normalize_sign (z e : Z) :
  0 <= z -> Binary64.not_negative (binary_normalize prec emax z e false).
Proof.
  intros Hz. destruct z; [reflexivity | apply binary_round_sign | lia].
Qed.

Lemma SF2Prim_sign (f : spec_float) :
  Binary64.not_negative f -> Binary64.not_negative (Prim2SF (SF2Prim f)).
Proof.
  destruct f as [s | s | | s m e]; simpl; intros H; subst;
    try (vm_compute; reflexivity).
  unfold FloatOps.Z.ldexp.
  rewrite FloatAxioms.ldshiftexp_spec, FloatAxioms.of_uint63_spec.
  pose proof (Uint63.to_Z_bounded (Uint63.of_Z (Z.pos m))) as (Hz & _).
  pose proof (binary_normalize_sign _ 0 Hz) as Hn.
  destruct (binary_normalize prec emax _ 0 false) as [s | s | | s m' e'];
    simpl in *; try assumption.
  subst. apply binary_round_sign.
Qed.

Lemma float_of_int_sign (z : Z) :
  0 <= z -> Binary64.not_negative (Prim2SF (float_of_int z)).
Proof.
  intros Hz. apply SF2Prim_sign. apply binary_normalize_sign. exact Hz.
Qed.

Lemma mul_sign (x c : float) :
  Binary64.not_negative (Prim2SF x) -> Binary64.not_negative (Prim2SF c) ->
  Binary64.not_negative (Prim2SF (x * c)).
Proof.
  rewrite FloatAxioms.mul_spec. unfold FloatAxioms.SF64mul, SFmul.
  destruct (Prim2SF x) as [s | s | | s m e],
           (Prim2SF c) as [s' | s' | | s' m' e'];
    simpl; intros; subst; try reflexivity; try exact I.
  apply binary_round_aux_sign.
Qed.

Lemma int_of_float_nonneg (f : float) :
  Binary64.not_negative (Prim2SF f) -> 0 <= int_of_float f.
Proof.
  unfold int_of_float.
  destruct (Prim2SF f) as [s | s | | s m e]; cbv beta iota; intros H;
    try lia.
  simpl in H. subst s. cbv beta iota zeta.
  destruct (0 <=? e) eqn:He.
  - apply Z.leb_le in He. apply Z.mul_nonneg_nonneg; [lia |].
    apply Z.pow_nonneg. lia.
  - apply Z.leb_gt in He. apply Z.quot_pos; [lia |].
    apply Z.pow_pos_nonneg; lia.
Qed.

(** Upgrading never makes a damage or a cooldown negative. *)
Lemma int_mul_nonneg (n : Z) :
  0 <= n -> 0 <= Tower.int_mul_1_5 n /\ 0 <= Tower.int_mul_0_8 n.
Proof.
  intros Hn. unfold Tower.int_mul_1_5, Tower.int_mul_0_8.
  split; apply int_of_float_nonneg; apply mul_sign;
    try (apply float_of_int_sign; exact Hn); vm_compute; reflexivity.
Qed.

Lemma range_In (n : nat) : forall lo z,
  lo <= z < lo + Z.of_nat n -> In z (range lo n).
Proof.
  induction n as [|n IH]; intros lo z Hz.
  - simpl in Hz. lia.
  - simpl. destruct (Z.eq_dec lo z) as [->|Hne]; [left; reflexivity |].
    right. apply IH. lia.
Qed.

(** For stats up to 20000 in absolute value, the binary64 computations of
    [Tower.upgrade] give the exact quotients, truncated toward zero. *)
Lemma upgrade_arithmetic_is_exact (n : Z) :
  -20000 <= n <= 20000 ->
  Tower.int_mul_1_5 n = Z.quot (n * 3) 2
  /\ Tower.int_mul_0_8 n = Z.quot (n * 4) 5.
Proof.
  intros Hn.
  assert (Hall : forallb Binary64.agree
                   (range (-20000) (Z.to_nat 40001)) = true)
    by (vm_compute; reflexivity).
  rewrite forallb_forall in Hall.
  assert (Hin : In n (range (-20000) (Z.to_nat 40001))).
  { apply range_In. rewrite Z2Nat.id; lia. }
  specialize (Hall n Hin).
  unfold Binary64.agree in Hall.
  apply andb_true_iff in Hall. destruct Hall as [H1 H2].
  split; apply Z.eqb_eq; assumption.
Qed.

(** ** Enemy.update *)

Lemma enemy_update_at_end (e : Enemy.t) :
  Enemy.at_end e = true -> Enemy.update e = Ok (e, true).
Proof.
  intros H. unfold Enemy.update. rewrite H. reflexivity.
Qed.

(** The three ways [Enemy.update] returns. *)
Lemma enemy_update_inv (e e' : Enemy.t) (b : bool) :
  Enemy.update e = Ok (e', b) ->
  (Enemy.at_end e = true /\ e' = e /\ b = true)
  \/ (Enemy.at_end e = false /\ b = false
      /\ exists tx ty,
           nth_error (Enemy.path e) (S (Enemy.path_index e)) = Some (tx, ty)
           /\ e' = Enemy.set_position (S (Enemy.path_index e))
                     (float_of_int tx) (float_of_int ty) e)
  \/ (Enemy.at_end e = false /\ b = false
      /\ exists px py, e' = Enemy.set_position (Enemy.path_index e) px py e).
Proof.
  unfold Enemy.update. intros H.
  destruct (Enemy.at_end e) eqn:Hend.
  - injection H as <- <-. left. auto.
  - destruct (nth_error (Enemy.path e) (S (Enemy.path_index e)))
      as [[tx ty]|] eqn:Hnth; [| discriminate H].
    match type of H with
    | (if ?c then _ else _) = _ => destruct c
    end.
    + injection H as <- <-. right. left.
      split; [reflexivity |]. split; [reflexivity |].
      exists tx, ty. split; reflexivity.
    + match type of H with
      | (if ?c then _ else _) = _ => destruct c
      end; [discriminate H |].
      injection H as <- <-. right. right.
      split; [reflexivity |]. split; [reflexivity |].
      eexists. eexists. reflexivity.
Qed.

Lemma enemy_update_health (e e' : Enemy.t) (b : bool) :
  Enemy.update e = Ok (e', b) ->
  Enemy.health e' = Enemy.health e /\ Enemy.value e' = Enemy.value e
  /\ Enemy.eid e' = Enemy.eid e.
Proof.
  intros H. apply enemy_update_inv in H.
  destruct H as [(_ & -> & _) | [(_ & _ & tx & ty & _ & ->)
                                | (_ & _ & px & py & ->)]];
    repeat split; reflexivity.
Qed.

(** C10: [Enemy.update] returns [True] only on a call that starts with the
    index already at the last waypoint.  The call that snaps the enemy onto
    the last waypoint returns [False]; the call after it returns [True], and
    only that call makes the frame's loop take a life. *)
Theorem enemy_end_reported_one_call_late
    (e e' : Enemy.t) (b : bool) (acc : tally) :
  Enemy.update e = Ok (e', b) ->
  (b = true <-> Enemy.at_end e = true)
  /\ (b = false -> Enemy.at_end e' = true ->
      (exists tx ty,
          Enemy.path_index e' = S (Enemy.path_index e)
          /\ nth_error (Enemy.path e') (Enemy.path_index e') = Some (tx, ty)
          /\ Enemy.x e' = float_of_int tx /\ Enemy.y e' = float_of_int ty)
      /\ Enemy.update e' = Ok (e', true))
  /\ (exists acc',
         update_enemy e acc = Ok (e', acc')
         /\ t_lives acc' = if b then t_lives acc - 1 else t_lives acc).
Proof.
  intros H. pose proof (enemy_update_inv _ _ _ H) as Hc.
  split; [| split].
  - destruct Hc as [(He & _ & ->) | [(He & -> & _) | (He & -> & _)]];
      split; intros; congruence.
  - intros Hb Hend'.
    destruct Hc as [(_ & _ & ->) | [(He & _ & tx & ty & Hnth & ->)
                                   | (He & _ & px & py & ->)]].
    + discriminate Hb.
    + split.
      * exists tx, ty. simpl. auto.
      * apply enemy_update_at_end. exact Hend'.
    + unfold Enemy.at_end in *. simpl in Hend'. congruence.
  - unfold update_enemy. rewrite H. simpl.
    destruct b.
    + eexists. split; [reflexivity | reflexivity].
    + destruct (negb (Enemy.is_alive e')); eexists; split; reflexivity.
Qed.

Lemma enemy_end_reported_one_call_late_witness :
  Enemy.update Examples.walker = Ok (Examples.walker_arrived, false)
  /\ Enemy.update Examples.walker_arrived = Ok (Examples.walker_arrived, true).
Proof.
  split; [reflexivity |].
  apply (enemy_end_reported_one_call_late Examples.walker
           Examples.walker_arrived false (mk_tally 20 200 0 []));
    reflexivity.
Defined.

(** ** WaveManager *)

Lemma wave_updates_app (n m : nat) : forall fresh path wm,
  Trace.wave_updates (n + m) fresh path wm
  = bind (Trace.wave_updates n fresh path wm) (Trace.wave_updates m fresh path).
Proof.
  induction n as [|n IH]; intros fresh path wm.
  - reflexivity.
  - simpl. destruct (WaveManager.update fresh wm path) as [[wm' o]|e]; simpl.
    + apply IH.
    + reflexivity.
Qed.

Lemma wave_updates_snoc (n : nat) (fresh : nat) (path : list (Z * Z))
    (wm : WaveManager.t) :
  Trace.wave_updates (S n) fresh path wm
  = bind (Trace.wave_updates n fresh path wm)
         (Trace.wave_updates 1 fresh path).
Proof.
  rewrite <- Nat.add_1_r. apply wave_updates_app.
Qed.

(** While the timer stays below the delay, a call only counts. *)
Lemma wave_updates_waiting (k : nat) : forall fresh path wm,
  WaveManager.active wm = true ->
  WaveManager.spawn_timer wm + Z.of_nat k < WaveManager.spawn_delay wm ->
  Trace.wave_updates k fresh path wm
  = Ok (WaveManager.mk (WaveManager.current_wave wm) (WaveManager.waves wm)
          (WaveManager.spawn_timer wm + Z.of_nat k)
          (WaveManager.enemy_index wm) true (WaveManager.spawn_delay wm)).
Proof.
  induction k as [|k IH]; intros fresh path wm Hact Hlt.
  - simpl. rewrite Z.add_0_r. destruct wm; simpl in *. subst. reflexivity.
  - rewrite wave_updates_snoc, IH by (assumption || lia).
    unfold bind, Trace.wave_updates, WaveManager.update. simpl.
    destruct (Z.leb_spec (WaveManager.spawn_delay wm)
                (WaveManager.spawn_timer wm + Z.of_nat k + 1)) as [Hge|_];
      [lia |].
    simpl. do 2 f_equal. lia.
Qed.

Lemma is_finished_false (wm : WaveManager.t) :
  (WaveManager.current_wave wm < List.length (WaveManager.waves wm))%nat
  \/ WaveManager.active wm = true ->
  WaveManager.is_finished wm = false.
Proof.
  unfold WaveManager.is_finished. intros [Hlt | Hact].
  - destruct (Nat.leb_spec (List.length (WaveManager.waves wm))
                (WaveManager.current_wave wm)); [lia | reflexivity].
  - rewrite Hact. apply andb_false_r.
Qed.

(** A call that returns an enemy leaves the manager active, timer at 0. *)
Lemma wave_update_spawn (fresh : nat) (path : list (Z * Z))
    (wm0 wm : WaveManager.t) (e : Enemy.t) :
  WaveManager.update fresh wm0 path = Ok (wm, Some e) ->
  WaveManager.active wm = true /\ WaveManager.spawn_timer wm = 0
  /\ WaveManager.enemy_index wm = S (WaveManager.enemy_index wm0).
Proof.
  unfold WaveManager.update. intros H.
  destruct (WaveManager.active wm0) eqn:Hact; simpl in H; [| discriminate H].
  destruct (WaveManager.spawn_delay wm0 <=? WaveManager.spawn_timer wm0 + 1);
    [| discriminate H].
  destruct (nth_error (WaveManager.waves wm0) (WaveManager.current_wave wm0))
    as [wave|]; [| discriminate H].
  destruct (WaveManager.enemy_index wm0 <? List.length wave)%nat.
  - destruct (nth_error wave (WaveManager.enemy_index wm0)) as [ty|];
      [| discriminate H].
    inv_bind H. injection H as <- _. simpl. auto.
  - destruct (List.length wave <=? WaveManager.enemy_index wm0)%nat;
      discriminate H.
Qed.

(** C6 (amended): [is_finished] is false whenever a wave remains unstarted or
    the current wave is active; after the call that spawns the last enemy of
    the last wave it stays false for [spawn_delay - 1] further calls and
    becomes true at call number [spawn_delay] (60 in the game), which marks
    the wave inactive and makes the wave index equal the wave count. *)
Theorem is_finished_one_spawn_delay_after_last_spawn
    (fresh : nat) (path : list (Z * Z)) (wm0 wm : WaveManager.t)
    (e : Enemy.t) (wave : list string) :
  WaveManager.update fresh wm0 path = Ok (wm, Some e) ->
  nth_error (WaveManager.waves wm) (WaveManager.current_wave wm) = Some wave ->
  WaveManager.enemy_index wm = List.length wave ->
  S (WaveManager.current_wave wm) = List.length (WaveManager.waves wm) ->
  1 <= WaveManager.spawn_delay wm ->
  (forall wm' : WaveManager.t,
      (WaveManager.current_wave wm' < List.length (WaveManager.waves wm'))%nat
      \/ WaveManager.active wm' = true ->
      WaveManager.is_finished wm' = false)
  /\ (forall k : nat,
         Z.of_nat k < WaveManager.spawn_delay wm ->
         exists wmk,
           Trace.wave_updates k fresh path wm = Ok wmk
           /\ WaveManager.is_finished wmk = false)
  /\ (exists wmd,
         Trace.wave_updates (Z.to_nat (WaveManager.spawn_delay wm)) fresh path wm
         = Ok wmd
         /\ WaveManager.is_finished wmd = true
         /\ WaveManager.active wmd = false
         /\ WaveManager.current_wave wmd = List.length (WaveManager.waves wmd)).
Proof.
  intros Hup Hwave Hidx Hlast Hdelay.
  destruct (wave_update_spawn _ _ _ _ _ Hup) as (Hact & Htimer & _).
  split; [exact is_finished_false | split].
  - intros k Hk. eexists. split.
    + apply wave_updates_waiting; [exact Hact | lia].
    + apply is_finished_false. right. reflexivity.
  - replace (Z.to_nat (WaveManager.spawn_delay wm))
      with (S (Z.to_nat (WaveManager.spawn_delay wm - 1))) by lia.
    rewrite wave_updates_snoc, wave_updates_waiting by (assumption || lia).
    unfold bind, Trace.wave_updates, WaveManager.update. simpl.
    destruct (Z.leb_spec (WaveManager.spawn_delay wm)
                (WaveManager.spawn_timer wm
                 + Z.of_nat (Z.to_nat (WaveManager.spawn_delay wm - 1)) + 1))
      as [_|Hlt]; [| lia].
    rewrite Hwave, Hidx, Nat.ltb_irrefl, Nat.leb_refl. simpl.
    eexists. split; [reflexivity |].
    unfold WaveManager.is_finished. simpl.
    rewrite Hlast, Nat.leb_refl. auto.
Qed.

Lemma is_finished_one_spawn_delay_after_last_spawn_witness :
  WaveManager.update 0 Examples.one_wave_due Examples.game_path
  = Ok (Examples.one_wave_spawned, Some (Enemy.mk 0 Examples.game_path 0 0 300 2 50 50 10 GREEN))
  /\ exists wmd,
       Trace.wave_updates 60 0 Examples.game_path Examples.one_wave_spawned
       = Ok wmd
       /\ WaveManager.is_finished wmd = true
       /\ WaveManager.active wmd = false
       /\ WaveManager.current_wave wmd = List.length (WaveManager.waves wmd).
Proof.
  split; [reflexivity |].
  apply (is_finished_one_spawn_delay_after_last_spawn 0 Examples.game_path
           Examples.one_wave_due Examples.one_wave_spawned
           (Enemy.mk 0 Examples.game_path 0 0 300 2 50 50 10 GREEN) ["basic"]);
    [reflexivity | reflexivity | reflexivity | reflexivity | simpl; lia].
Defined.

(** C6 as stated fails: one call after the last enemy of the last wave was
    spawned, and up to 59 calls after it, [is_finished] is still false. *)
Lemma is_finished_not_one_tick_after_last_spawn :
  fmap fst (WaveManager.update 0 Examples.one_wave_due Examples.game_path)
  = Ok Examples.one_wave_spawned
  /\ fmap WaveManager.is_finished
       (Trace.wave_updates 1 0 Examples.game_path Examples.one_wave_spawned)
     = Ok false
  /\ fmap WaveManager.is_finished
       (Trace.wave_updates 59 0 Examples.game_path Examples.one_wave_spawned)
     = Ok false
  /\ fmap WaveManager.is_finished
       (Trace.wave_updates 60 0 Examples.game_path Examples.one_wave_spawned)
     = Ok true.
Proof.
  repeat split; vm_compute; reflexivity.
Qed.

(** ** Placement *)

Lemma is_position_valid_inv (g : TowerDefenseGame.t) (pos : Z * Z) :
  is_position_valid g pos = true ->
  on_screen pos = true
  /\ forallb (far_from_path pos) (path g) = true
  /\ forallb (far_from_tower pos) (towers g) = true.
Proof.
  unfold is_position_valid. intros H.
  destruct (on_screen pos); [| discriminate H].
  destruct (forallb (far_from_path pos) (path g)); [| discriminate H].
  destruct (forallb (far_from_tower pos) (towers g)); [| discriminate H].
  auto.
Qed.

Lemma on_screen_bounds (pos : Z * Z) :
  on_screen pos = true ->
  0 <= fst pos < SCREEN_WIDTH /\ 0 <= snd pos < SCREEN_HEIGHT.
Proof.
  unfold on_screen. intros H. apply negb_true_iff in H.
  repeat (apply orb_false_iff in H; destruct H as [H ?]).
  repeat match goal with
         | [ Hc : (_ <? _) = false |- _ ] => apply Z.ltb_ge in Hc
         | [ Hc : (_ <=? _) = false |- _ ] => apply Z.leb_gt in Hc
         end.
  lia.
Qed.

(** The outcomes of [place_tower]: rejected with nothing changed, or accepted
    after every check. *)
Lemma place_tower_inv (g g' : TowerDefenseGame.t) (pos : Z * Z) (ok : bool) :
  place_tower pos g = Ok (g', ok) ->
  (ok = false /\ g' = g)
  \/ (ok = true
      /\ exists tower_type prototype,
           selected_tower_type g = Some tower_type
           /\ dict_get tower_type (tower_prototypes g) = Ok prototype
           /\ is_position_valid g (get_grid_position pos) = true
           /\ Tower.cost prototype <= money g
           /\ g' = set_money (money g - Tower.cost prototype)
                     (set_towers
                        (towers g
                         ++ [Tower.set_xy (fst (get_grid_position pos))
                               (snd (get_grid_position pos))
                               (Tower.clone prototype)])%list g)).
Proof.
  unfold place_tower. intros H.
  destruct (selected_tower_type g) as [ty|] eqn:Hty;
    [| injection H as <- <-; left; auto].
  destruct (dragging_tower g) as [drag|];
    [| injection H as <- <-; left; auto].
  destruct (negb (truthy (Some ty))); [injection H as <- <-; left; auto |].
  destruct (is_position_valid g (get_grid_position pos)) eqn:Hvalid;
    simpl in H; [| injection H as <- <-; left; auto].
  inv_bind H. rename a into prototype.
  destruct (Z.ltb_spec (money g) (Tower.cost prototype)) as [Hlt|Hge];
    [injection H as <- <-; left; auto |].
  injection H as <- <-. right. split; [reflexivity |].
  exists ty, prototype. repeat split; assumption.
Qed.

(** ** The frame: economy and ordering *)

Lemma set_health_same (e : Enemy.t) : Enemy.set_health (Enemy.health e) e = e.
Proof. destruct e; reflexivity. Qed.

Lemma hit_refl (e : Enemy.t) : Tally.hit e e.
Proof. unfold Tally.hit. symmetry. apply set_health_same. Qed.

Lemma hit_set_health (h : Z) (e : Enemy.t) : Tally.hit e (Enemy.set_health h e).
Proof. reflexivity. Qed.

Lemma hit_trans (e1 e2 e3 : Enemy.t) :
  Tally.hit e1 e2 -> Tally.hit e2 e3 -> Tally.hit e1 e3.
Proof.
  unfold Tally.hit. intros H12 H23.
  destruct e1, e2, e3; unfold Enemy.set_health in *; simpl in *.
  congruence.
Qed.

Lemma Forall2_hit_refl (es : list Enemy.t) : Forall2 Tally.hit es es.
Proof. induction es; constructor; auto using hit_refl. Qed.

Lemma Forall2_hit_trans (l1 : list Enemy.t) : forall l2 l3,
  Forall2 Tally.hit l1 l2 -> Forall2 Tally.hit l2 l3 -> Forall2 Tally.hit l1 l3.
Proof.
  induction l1 as [|a l1 IH]; intros l2 l3 H12 H23.
  - inversion H12; subst. inversion H23; subst. constructor.
  - inversion H12; subst. inversion H23; subst.
    constructor; [eapply hit_trans; eassumption | eapply IH; eassumption].
Qed.

Lemma Forall2_hit_eids (l1 l2 : list Enemy.t) :
  Forall2 Tally.hit l1 l2 -> map Enemy.eid l2 = map Enemy.eid l1.
Proof.
  induction 1 as [|a b l1 l2 Hab _ IH]; [reflexivity |].
  simpl. rewrite IH, Hab. reflexivity.
Qed.

Lemma Forall2_hit_values (l1 l2 : list Enemy.t) :
  Forall2 Tally.hit l1 l2 -> map Enemy.value l2 = map Enemy.value l1.
Proof.
  induction 1 as [|a b l1 l2 Hab _ IH]; [reflexivity |].
  simpl. rewrite IH, Hab. reflexivity.
Qed.

Lemma list_update_hit (f : Enemy.t -> Z) (es : list Enemy.t) : forall i,
  Forall2 Tally.hit es
    (list_update i (fun e => Enemy.set_health (f e) e) es).
Proof.
  induction es as [|a es IH]; intros i; [destruct i; constructor |].
  destruct i; simpl.
  - constructor; [apply hit_set_health | apply Forall2_hit_refl].
  - constructor; [apply hit_refl | apply IH].
Qed.

Lemma map_cond_hit (c : Enemy.t -> bool) (f : Enemy.t -> Z) (es : list Enemy.t) :
  Forall2 Tally.hit es
    (map (fun e => if c e then Enemy.set_health (f e) e else e) es).
Proof.
  induction es as [|a es IH]; simpl; constructor; [| exact IH].
  destruct (c a); [apply hit_set_health | apply hit_refl].
Qed.

(** An attack, of either class, changes nothing of an enemy but its health. *)
Lemma tower_attack_hit (tw tw' : Tower.t) (es es' : list Enemy.t) (d : Z) :
  tower_attack tw es = (tw', es', d) -> Forall2 Tally.hit es es'.
Proof.
  unfold tower_attack, Tower.attack, BomberTower.attack. intros H.
  destruct (Tower.cls tw);
    destruct (negb (Tower.can_attack tw));
    try (injection H as <- <- <-; apply Forall2_hit_refl).
  - destruct (Tower.find_target tw es) as [[i en]|];
      injection H as <- <- <-;
      [apply list_update_hit | apply Forall2_hit_refl].
  - destruct (Tower.find_target tw es) as [[i en]|];
      injection H as <- <- <-;
      [apply list_update_hit | apply Forall2_hit_refl].
  - destruct (filter (Tower.in_range tw) es);
      injection H as <- <- <-;
      [apply Forall2_hit_refl | apply map_cond_hit].
Qed.

Lemma attack_all_hit (tws : list Tower.t) : forall es tws' es',
  attack_all tws es = (tws', es') -> Forall2 Tally.hit es es'.
Proof.
  induction tws as [|tw tws IH]; intros es tws' es' H; simpl in H.
  - injection H as <- <-. apply Forall2_hit_refl.
  - destruct (tower_attack tw es) as [[tw1 es1] d] eqn:Hatt.
    destruct (attack_all tws es1) as [tws2 es2] eqn:Hall.
    injection H as <- <-.
    eapply Forall2_hit_trans;
      [eapply tower_attack_hit; eassumption | eapply IH; eassumption].
Qed.

(** What the loop body does to the tally, read off the enemy as it starts
    the frame: an exit if its index is at the end, else a kill if it has no
    health left. *)
Lemma update_enemy_tally (e e' : Enemy.t) (acc acc' : tally) :
  update_enemy e acc = Ok (e', acc') ->
  t_lives acc' = t_lives acc - (if Enemy.at_end e then 1 else 0)
  /\ t_money acc'
     = t_money acc + (if Tally.dead_on_path e then Enemy.value e else 0)
  /\ t_score acc'
     = t_score acc + (if Tally.dead_on_path e then Enemy.value e else 0).
Proof.
  unfold update_enemy. intros H. inv_bind H. destruct a as [e1 b].
  pose proof (enemy_update_health _ _ _ Ha) as (Hh & Hv & _).
  pose proof (enemy_update_inv _ _ _ Ha) as Hc.
  assert (Halive : Enemy.is_alive e1 = Enemy.is_alive e)
    by (unfold Enemy.is_alive; rewrite Hh; reflexivity).
  unfold Tally.dead_on_path.
  destruct Hc as [(He & _ & ->) | [(He & -> & _) | (He & -> & _)]];
    rewrite He; simpl.
  - injection H as <- <-. simpl. lia.
  - rewrite Halive in H.
    destruct (Enemy.is_alive e); simpl in *; injection H as <- <-; simpl; lia.
  - rewrite Halive in H.
    destruct (Enemy.is_alive e); simpl in *; injection H as <- <-; simpl; lia.
Qed.

Lemma update_enemies_tally (es : list Enemy.t) : forall es' acc acc',
  update_enemies es acc = Ok (es', acc') ->
  t_lives acc' = t_lives acc - Tally.exits es
  /\ t_money acc' = t_money acc + Tally.bounty es
  /\ t_score acc' = t_score acc + Tally.bounty es.
Proof.
  induction es as [|e es IH]; intros es' acc acc' H; simpl in H.
  - injection H as <- <-. unfold Tally.exits, Tally.bounty. simpl. lia.
  - inv_bind H. destruct a as [e1 acc1].
    inv_bind H. destruct a as [es1 acc2].
    injection H as <- <-.
    apply update_enemy_tally in Ha. apply IH in Ha0.
    destruct Ha as (Hl & Hm & Hs). destruct Ha0 as (Hl' & Hm' & Hs').
    unfold Tally.exits, Tally.bounty in *. simpl.
    destruct (Enemy.at_end e); destruct (Tally.dead_on_path e);
      simpl; lia.
Qed.

Lemma spawn_enemies_economy (g g1 : TowerDefenseGame.t) :
  spawn_enemies g = Ok g1 ->
  money g1 = money g /\ lives g1 = lives g /\ score g1 = score g
  /\ towers g1 = towers g /\ game_state g1 = game_state g.
Proof.
  unfold spawn_enemies. intros H. inv_bind H. destruct a as [wm [en|]];
    injection H as <-; simpl; auto.
Qed.

Lemma update_towers_economy (g : TowerDefenseGame.t) :
  money (update_towers g) = money g /\ lives (update_towers g) = lives g
  /\ score (update_towers g) = score g
  /\ wave_manager (update_towers g) = wave_manager g
  /\ game_state (update_towers g) = game_state g
  /\ Forall2 Tally.hit (enemies g) (enemies (update_towers g)).
Proof.
  unfold update_towers.
  destruct (attack_all (towers g) (enemies g)) as [tws es] eqn:Hall.
  simpl. repeat split. eapply attack_all_hit; eassumption.
Qed.

Lemma check_economy (g : TowerDefenseGame.t) :
  let g' := check_victory (check_game_over g) in
  money g' = money g /\ lives g' = lives g /\ score g' = score g
  /\ enemies g' = enemies g /\ towers g' = towers g
  /\ wave_manager g' = wave_manager g.
Proof.
  unfold check_victory, check_game_over.
  destruct (lives g <=? 0); simpl;
    match goal with
    | |- context [if ?c then _ else _] => destruct c
    end; simpl; auto 10.
Qed.

(** The frame's effect on the economy, from the enemies as they are after
    the spawn and before anything moves or attacks. *)
Lemma update_economy (g g1 g' : TowerDefenseGame.t) :
  spawn_enemies g = Ok g1 ->
  update g = Ok g' ->
  lives g' = lives g - Tally.exits (enemies g1)
  /\ money g' = money g + Tally.bounty (enemies g1)
  /\ score g' = score g + Tally.bounty (enemies g1).
Proof.
  intros Hs Hu. unfold update in Hu. rewrite Hs in Hu. simpl in Hu.
  inv_bind Hu. rename a into g2. injection Hu as <-.
  unfold move_and_remove in Ha. inv_bind Ha. destruct a as [es' acc].
  injection Ha as <-.
  apply update_enemies_tally in Ha0. simpl in Ha0.
  destruct (spawn_enemies_economy _ _ Hs) as (Hm & Hl & Hsc & _).
  match goal with
  | |- context [check_victory (check_game_over (update_towers ?g))] =>
      pose proof (check_economy (update_towers g)) as Hc;
      pose proof (update_towers_economy g) as Ht
  end.
  simpl in Hc. destruct Hc as (-> & -> & -> & _).
  destruct Ht as (-> & -> & -> & _). simpl.
  destruct Ha0 as (-> & -> & ->). rewrite Hm, Hl, Hsc. auto.
Qed.

(** *** Which enemies leave the list *)

Lemma update_enemy_mark (e e' : Enemy.t) (acc acc' : tally) :
  update_enemy e acc = Ok (e', acc') ->
  Enemy.eid e' = Enemy.eid e
  /\ enemies_to_remove acc'
     = (enemies_to_remove acc
        ++ (if Tally.marked e then [Enemy.eid e] else []))%list.
Proof.
  unfold update_enemy. intros H. inv_bind H. destruct a as [e1 b].
  pose proof (enemy_update_health _ _ _ Ha) as (Hh & _ & Hid).
  pose proof (enemy_update_inv _ _ _ Ha) as Hc.
  assert (Halive : Enemy.is_alive e1 = Enemy.is_alive e)
    by (unfold Enemy.is_alive; rewrite Hh; reflexivity).
  unfold Tally.marked.
  destruct Hc as [(He & _ & ->) | [(He & -> & _) | (He & -> & _)]];
    rewrite He; simpl.
  - injection H as <- <-. simpl. rewrite Hid. auto.
  - rewrite Halive in H.
    destruct (Enemy.is_alive e); simpl in *; injection H as <- <-; simpl;
      rewrite ?Hid, ?app_nil_r; auto.
  - rewrite Halive in H.
    destruct (Enemy.is_alive e); simpl in *; injection H as <- <-; simpl;
      rewrite ?Hid, ?app_nil_r; auto.
Qed.

Lemma update_enemies_mark (es : list Enemy.t) : forall es' acc acc',
  update_enemies es acc = Ok (es', acc') ->
  map Enemy.eid es' = map Enemy.eid es
  /\ enemies_to_remove acc'
     = (enemies_to_remove acc
        ++ map Enemy.eid (filter Tally.marked es))%list.
Proof.
  induction es as [|e es IH]; intros es' acc acc' H; simpl in H.
  - injection H as <- <-. simpl. rewrite app_nil_r. auto.
  - inv_bind H. destruct a as [e1 acc1].
    inv_bind H. destruct a as [es1 acc2].
    injection H as <- <-.
    apply update_enemy_mark in Ha. apply IH in Ha0.
    destruct Ha as (Hid & Hr). destruct Ha0 as (Hids & Hr').
    simpl. rewrite Hid, Hids, Hr', Hr.
    split; [reflexivity |].
    destruct (Tally.marked e); simpl; rewrite <- app_assoc; reflexivity.
Qed.

(** The identities left by [remove_enemy], on a list without duplicates. *)
Lemma remove_enemy_eids (id : nat) (es : list Enemy.t) :
  NoDup (map Enemy.eid es) ->
  map Enemy.eid (remove_enemy id es)
  = filter (fun i => negb (Nat.eqb i id)) (map Enemy.eid es).
Proof.
  induction es as [|e es IH]; intros Hnd; [reflexivity |].
  simpl in *. inversion Hnd as [|? ? Hnotin Hnd']; subst.
  destruct (Nat.eqb_spec (Enemy.eid e) id) as [Heq|Hne]; simpl.
  - subst id. symmetry. clear IH Hnd Hnd'.
    induction (map Enemy.eid es) as [|i l IHl]; [reflexivity |].
    simpl in *. destruct (Nat.eqb_spec i (Enemy.eid e)) as [->|Hne]; simpl.
    + exfalso. apply Hnotin. left. reflexivity.
    + f_equal. apply IHl. intros Hin. apply Hnotin. right. exact Hin.
  - f_equal. apply IH. exact Hnd'.
Qed.

Lemma existsb_eqb_In (i : nat) (l : list nat) :
  existsb (Nat.eqb i) l = true <-> In i l.
Proof.
  rewrite existsb_exists. split.
  - intros (j & Hj & Heq). apply Nat.eqb_eq in Heq. subst. exact Hj.
  - intros Hin. exists i. split; [exact Hin | apply Nat.eqb_refl].
Qed.

Lemma filter_twice {A : Type} (f g : A -> bool) (l : list A) :
  filter f (filter g l) = filter (fun a => g a && f a) l.
Proof.
  induction l as [|a l IH]; [reflexivity |].
  simpl. destruct (g a); simpl; [destruct (f a) |]; rewrite IH; reflexivity.
Qed.

Lemma remove_enemies_eids (ids : list nat) : forall es,
  NoDup (map Enemy.eid es) ->
  map Enemy.eid (remove_enemies ids es)
  = filter (fun i => negb (existsb (Nat.eqb i) ids)) (map Enemy.eid es).
Proof.
  unfold remove_enemies.
  induction ids as [|id ids IH]; intros es Hnd; simpl.
  - symmetry. clear Hnd. induction (map Enemy.eid es) as [|i l IHl];
      [reflexivity | simpl; f_equal; exact IHl].
  - rewrite IH.
    + rewrite remove_enemy_eids by exact Hnd. rewrite filter_twice.
      apply filter_ext. intros i. rewrite negb_orb. reflexivity.
    + rewrite remove_enemy_eids by exact Hnd. apply NoDup_filter. exact Hnd.
Qed.

Lemma unmarked_eids (m : Enemy.t -> bool) (es : list Enemy.t) : forall ids,
  NoDup (map Enemy.eid es) ->
  (forall i, In i ids -> ~ In i (map Enemy.eid es)) ->
  filter (fun i => negb (existsb (Nat.eqb i)
                           (ids ++ map Enemy.eid (filter m es))))
         (map Enemy.eid es)
  = map Enemy.eid (filter (fun e => negb (m e)) es).
Proof.
  induction es as [|a es IH]; intros ids Hnd Hids; [reflexivity |].
  simpl in Hnd. inversion Hnd as [|? ? Hnotin Hnd']; subst.
  simpl. destruct (m a) eqn:Hm; simpl.
  - assert (Hin : existsb (Nat.eqb (Enemy.eid a))
                    (ids ++ Enemy.eid a :: map Enemy.eid (filter m es)) = true).
    { apply existsb_eqb_In. apply in_or_app. right. left. reflexivity. }
    rewrite Hin. simpl.
    replace (ids ++ Enemy.eid a :: map Enemy.eid (filter m es))%list
      with ((ids ++ [Enemy.eid a]) ++ map Enemy.eid (filter m es))%list
      by (rewrite <- app_assoc; reflexivity).
    apply IH; [exact Hnd' |].
    intros i Hi Hes. apply in_app_or in Hi. destruct Hi as [Hi | [<- | []]].
    + apply (Hids i Hi). right. exact Hes.
    + exact (Hnotin Hes).
  - assert (Hout : existsb (Nat.eqb (Enemy.eid a))
                     (ids ++ map Enemy.eid (filter m es)) = false).
    { apply not_true_is_false. intros Hin. apply existsb_eqb_In in Hin.
      apply in_app_or in Hin. destruct Hin as [Hin | Hin].
      - apply (Hids _ Hin). left. reflexivity.
      - apply Hnotin. apply in_map_iff in Hin.
        destruct Hin as (e & He & Hfe). apply filter_In in Hfe.
        rewrite <- He. apply in_map. exact (proj1 Hfe). }
    rewrite Hout. simpl. f_equal.
    apply IH; [exact Hnd' |].
    intros i Hi Hes. apply (Hids i Hi). right. exact Hes.
Qed.

(** The enemies left by "Update enemies" and the removal after it are those
    that started the frame alive and short of the end, whatever the towers
    do later in the frame. *)
Lemma move_and_remove_survivors (g1 g2 : TowerDefenseGame.t) :
  NoDup (map Enemy.eid (enemies g1)) ->
  move_and_remove g1 = Ok g2 ->
  map Enemy.eid (enemies g2)
  = map Enemy.eid (filter (fun e => negb (Tally.marked e)) (enemies g1)).
Proof.
  intros Hnd H. unfold move_and_remove in H. inv_bind H.
  destruct a as [es' acc]. injection H as <-. simpl.
  apply update_enemies_mark in Ha. simpl in Ha. destruct Ha as (Hids & ->).
  rewrite remove_enemies_eids by (rewrite Hids; exact Hnd).
  rewrite Hids.
  apply (unmarked_eids Tally.marked (enemies g1) []); [exact Hnd |].
  intros i [].
Qed.

Lemma exits_app (l1 l2 : list Enemy.t) :
  Tally.exits (l1 ++ l2) = Tally.exits l1 + Tally.exits l2.
Proof.
  unfold Tally.exits. rewrite filter_app, length_app. lia.
Qed.

Lemma bounty_app (l1 l2 : list Enemy.t) :
  Tally.bounty (l1 ++ l2) = Tally.bounty l1 + Tally.bounty l2.
Proof.
  unfold Tally.bounty. rewrite filter_app.
  induction (filter Tally.dead_on_path l1) as [|a l IH]; simpl; lia.
Qed.

Lemma exits_cons (e : Enemy.t) (l : list Enemy.t) :
  Tally.exits (e :: l) = (if Enemy.at_end e then 1 else 0) + Tally.exits l.
Proof.
  unfold Tally.exits. cbn [filter].
  destruct (Enemy.at_end e); [cbn [List.length]; rewrite Nat2Z.inj_succ |]; lia.
Qed.

Lemma bounty_cons (e : Enemy.t) (l : list Enemy.t) :
  Tally.bounty (e :: l)
  = (if Tally.dead_on_path e then Enemy.value e else 0) + Tally.bounty l.
Proof.
  unfold Tally.bounty. simpl. destruct (Tally.dead_on_path e); reflexivity.
Qed.

(** C1 (amended): when an enemy with health <= 0 also reports the end of the
    path in a frame, the frame resolves it as an exit: the loop takes one
    life for it, marks it for removal and credits nothing, so over the whole
    frame it costs a life and adds no bounty to money or score (the exit
    test comes before the health test). *)
Theorem exit_takes_precedence_over_kill
    (g g1 g' : TowerDefenseGame.t) (before after : list Enemy.t)
    (e : Enemy.t) (acc : tally) :
  spawn_enemies g = Ok g1 ->
  update g = Ok g' ->
  enemies g1 = (before ++ e :: after)%list ->
  Enemy.health e <= 0 ->
  Enemy.at_end e = true ->
  update_enemy e acc
  = Ok (e, mk_tally (t_lives acc - 1) (t_money acc) (t_score acc)
             (enemies_to_remove acc ++ [Enemy.eid e])%list)
  /\ lives g' = lives g - Tally.exits before - 1 - Tally.exits after
  /\ money g' = money g + Tally.bounty before + Tally.bounty after
  /\ score g' = score g + Tally.bounty before + Tally.bounty after.
Proof.
  intros Hs Hu Hes Hdead Hend. split.
  - unfold update_enemy. rewrite (enemy_update_at_end e Hend). reflexivity.
  - destruct (update_economy _ _ _ Hs Hu) as (Hl & Hm & Hsc).
    rewrite Hes in Hl, Hm, Hsc.
    rewrite exits_app, exits_cons in Hl.
    rewrite bounty_app, bounty_cons in Hm, Hsc.
    unfold Tally.dead_on_path in Hm, Hsc.
    rewrite Hend in Hl, Hm, Hsc. simpl in Hm, Hsc. lia.
Qed.

Lemma exit_takes_precedence_over_kill_witness :
  spawn_enemies Examples.dead_at_exit = Ok Examples.dead_at_exit
  /\ update Examples.dead_at_exit
     = Ok (set_enemies [] (set_economy 200 19 0 Examples.dead_at_exit))
  /\ lives (set_enemies [] (set_economy 200 19 0 Examples.dead_at_exit))
     = lives Examples.dead_at_exit - Tally.exits [] - 1 - Tally.exits []
  /\ money (set_enemies [] (set_economy 200 19 0 Examples.dead_at_exit))
     = money Examples.dead_at_exit + Tally.bounty [] + Tally.bounty [].
Proof.
  split; [reflexivity |]. split; [reflexivity |].
  pose proof (exit_takes_precedence_over_kill
                Examples.dead_at_exit Examples.dead_at_exit
                (set_enemies [] (set_economy 200 19 0 Examples.dead_at_exit))
                [] [] (Enemy.mk 0 Examples.game_path 7 800 300 2 50 0 10 GREEN)
                (mk_tally 20 200 0 [])
                eq_refl eq_refl eq_refl ltac:(simpl; lia) eq_refl)
    as (_ & Hl & Hm & _).
  split; assumption.
Defined.

(** C1 as stated fails.  In the first frame the tower by the exit shoots the
    enemy standing on the last waypoint down to health 0; in the second
    frame that enemy has health <= 0 and reports the end: a life is taken
    (20 to 19) and no bounty is credited (money stays 200, score 0). *)
Lemma kill_at_exit_costs_a_life :
  fmap Examples.observe (Trace.ticks 1 Examples.exit_guard)
  = Ok (200, 20, 0, [(7%nat, 0)])
  /\ fmap Examples.observe (Trace.ticks 2 Examples.exit_guard)
     = Ok (200, 19, 0, []).
Proof.
  split; vm_compute; reflexivity.
Qed.

Lemma NoDup_eid_inj (l : list Enemy.t) (a b : Enemy.t) :
  NoDup (map Enemy.eid l) -> In a l -> In b l ->
  Enemy.eid a = Enemy.eid b -> a = b.
Proof.
  induction l as [|c l IH]; intros Hnd Ha Hb Heq; [contradiction Ha |].
  simpl in Hnd. inversion Hnd as [|? ? Hnot Hnd']; subst.
  destruct Ha as [-> | Ha], Hb as [-> | Hb].
  - reflexivity.
  - exfalso. apply Hnot. rewrite Heq. apply in_map. exact Hb.
  - exfalso. apply Hnot. rewrite <- Heq. apply in_map. exact Ha.
  - apply IH; assumption.
Qed.





(** ** BomberTower.attack *)






(** ** The game state *)

(** The state after a frame, from the values the two checks read. *)
Lemma update_game_state (g g' : TowerDefenseGame.t) :
  update g = Ok g' ->
  game_state g'
  = if WaveManager.is_finished (wave_manager g')
       && (match enemies g' with [] => true | _ :: _ => false end)
    then GAME_STATE_VICTORY
    else if lives g' <=? 0 then GAME_STATE_GAME_OVER
    else game_state g.
Proof.
  intros Hu. unfold update in Hu.
  inv_bind Hu. rename a into g1. inv_bind Hu. rename a into g2.
  injection Hu as <-.
  assert (Hst : game_state (update_towers g2) = game_state g).
  { destruct (update_towers_economy g2) as (_ & _ & _ & _ & -> & _).
    unfold move_and_remove in Ha0. inv_bind Ha0. destruct a as [es acc].
    injection Ha0 as <-. simpl.
    apply spawn_enemies_economy in Ha. tauto. }
  unfold check_victory, check_game_over.
  destruct (lives (update_towers g2) <=? 0) eqn:Hl; simpl;
    match goal with
    | |- context [if ?c then _ else _] => destruct c eqn:Hv
    end; simpl; rewrite ?Hv, ?Hl; auto.
Qed.

(** Outside the playing state a frame does not call [update]. *)
Lemma tick_terminal (g : TowerDefenseGame.t) :
  game_state g <> GAME_STATE_PLAYING -> tick g = Ok g.
Proof.
  unfold tick. destruct (game_state g); [congruence | reflexivity ..].
Qed.

(** C4 (the code departs from it): with one life left, the last enemy of the
    last wave leaves the path; the frame takes the last life and sets the
    state to game over, then the victory check, which sees the waves
    finished and no enemy left, overwrites it: the game ends in victory
    with 0 lives. *)
Theorem last_exit_on_last_life_is_victory :
  game_state Examples.last_life = GAME_STATE_PLAYING
  /\ fmap (fun g => (lives g, enemies g, game_state g))
          (tick Examples.last_life)
     = Ok (0, [], GAME_STATE_VICTORY)
  /\ fmap (fun g => game_state (check_game_over (update_towers g)))
          (bind (spawn_enemies Examples.last_life) move_and_remove)
     = Ok GAME_STATE_GAME_OVER.
Proof.
  repeat split; vm_compute; reflexivity.
Qed.

(** ** Commands and the game state *)

(** Case analysis on every test the goal still branches on. *)
Ltac split_tests :=
  repeat match goal with
         | |- context [match ?c with _ => _ end] =>
             match c with
             | context [match _ with _ => _ end] => fail 1
             | _ => destruct c eqn:?
             end
         end.

Section CommandsIgnoreState.

Variable st : GameState.

Lemma place_tower_state (pos : Z * Z) (g : TowerDefenseGame.t) :
  place_tower pos (set_game_state st g)
  = fmap (Trace.with_state st) (place_tower pos g).
Proof.
  destruct g. unfold place_tower, is_position_valid, fmap, bind. simpl.
  split_tests; reflexivity.
Qed.

Lemma upgrade_selected_tower_state (g : TowerDefenseGame.t) :
  upgrade_selected_tower (set_game_state st g)
  = Trace.with_state st (upgrade_selected_tower g).
Proof.
  destruct g. unfold upgrade_selected_tower, selected. simpl.
  split_tests; reflexivity.
Qed.

Lemma sell_selected_tower_state (g : TowerDefenseGame.t) :
  sell_selected_tower (set_game_state st g)
  = Trace.with_state st (sell_selected_tower g).
Proof.
  destruct g. unfold sell_selected_tower, selected. simpl.
  split_tests; reflexivity.
Qed.

Lemma start_wave_state (g : TowerDefenseGame.t) :
  start_wave (set_game_state st g) = Trace.with_state st (start_wave g).
Proof.
  destruct g. unfold start_wave. simpl.
  split_tests; reflexivity.
Qed.

Lemma select_tower_type_state (ty : string) (g : TowerDefenseGame.t) :
  select_tower_type ty (set_game_state st g)
  = set_game_state st (select_tower_type ty g).
Proof.
  destruct g. unfold select_tower_type. simpl.
  split_tests; reflexivity.
Qed.

Lemma select_tower_state (pos : Z * Z) (g : TowerDefenseGame.t) :
  select_tower pos (set_game_state st g)
  = Trace.with_state st (select_tower pos g).
Proof.
  destruct g. unfold select_tower. simpl.
  split_tests; reflexivity.
Qed.

Lemma handle_key_state (k : pygame.key) (g : TowerDefenseGame.t) :
  handle_key k (set_game_state st g) = set_game_state st (handle_key k g).
Proof.
  destruct k; unfold handle_key;
    rewrite ?start_wave_state, ?upgrade_selected_tower_state,
      ?sell_selected_tower_state;
    try reflexivity;
    (change (tower_prototypes (set_game_state st g))
       with (tower_prototypes g);
     destruct (nth_error (map fst (tower_prototypes g)) _);
     [apply select_tower_type_state | reflexivity]).
Qed.

Lemma event_loop_state (events : list pygame.event) (mouse_pos : Z * Z) :
  forall g,
    event_loop events mouse_pos (set_game_state st g)
    = fmap (Trace.with_state st) (event_loop events mouse_pos g).
Proof.
  induction events as [|ev events IH]; intros g; [reflexivity |].
  destruct ev as [|k|button|]; cbn [event_loop].
  - reflexivity.
  - rewrite handle_key_state. apply IH.
  - destruct (button =? 1); [| apply IH].
    change (selected_tower_type (set_game_state st g))
      with (selected_tower_type g).
    destruct (truthy (selected_tower_type g)).
    + rewrite place_tower_state.
      destruct (place_tower mouse_pos g) as [[g' b]|e]; [| reflexivity].
      simpl. apply IH.
    + rewrite select_tower_state. apply IH.
  - apply IH.
Qed.

Lemma process_events_state (events : list pygame.event) (mouse_pos : Z * Z)
    (g : TowerDefenseGame.t) :
  process_events events mouse_pos (set_game_state st g)
  = fmap (Trace.with_state st) (process_events events mouse_pos g).
Proof.
  unfold process_events. rewrite event_loop_state.
  destruct (event_loop events mouse_pos g) as [[g' b]|e]; [| reflexivity].
  simpl. destruct b; [| reflexivity].
  change (dragging_tower (set_game_state st g')) with (dragging_tower g').
  destruct (dragging_tower g'); reflexivity.
Qed.

End CommandsIgnoreState.

(** C5 (amended): the game state has no effect on the commands.  Place,
    upgrade, sell, start next wave, and every batch of input events do in a
    game that is over or won exactly what they do in the same game while
    playing, and leave the state as it is; no command is rejected for the
    game having ended, and no command resets the game.  Only the frame's
    [update] is skipped once the state is not playing. *)
Theorem commands_ignore_game_state
    (st : GameState) (g : TowerDefenseGame.t) (pos : Z * Z)
    (events : list pygame.event) :
  place_tower pos (set_game_state st g)
  = fmap (Trace.with_state st) (place_tower pos g)
  /\ upgrade_selected_tower (set_game_state st g)
     = Trace.with_state st (upgrade_selected_tower g)
  /\ sell_selected_tower (set_game_state st g)
     = Trace.with_state st (sell_selected_tower g)
  /\ start_wave (set_game_state st g) = Trace.with_state st (start_wave g)
  /\ process_events events pos (set_game_state st g)
     = fmap (Trace.with_state st) (process_events events pos g)
  /\ (st <> GAME_STATE_PLAYING ->
      tick (set_game_state st g) = Ok (set_game_state st g)).
Proof.
  split; [apply place_tower_state |].
  split; [apply upgrade_selected_tower_state |].
  split; [apply sell_selected_tower_state |].
  split; [apply start_wave_state |].
  split; [apply process_events_state |].
  intros Hst. apply tick_terminal. exact Hst.
Qed.

(** C5 as stated fails: in a lost game a placement is accepted, the balance
    drops from 200 to 150 and a tower is added; the next wave can be started
    as well. *)
Lemma commands_accepted_after_game_over :
  game_state Examples.lost_with_selection = GAME_STATE_GAME_OVER
  /\ fmap (fun r => (snd r, money (fst r), towers (fst r), game_state (fst r)))
          (place_tower (100, 250) Examples.lost_with_selection)
     = Ok (true, 150, [BasicTower 100 260], GAME_STATE_GAME_OVER)
  /\ (snd (start_wave Examples.lost_with_selection),
      WaveManager.active
        (wave_manager (fst (start_wave Examples.lost_with_selection))))
     = (true, true).
Proof.
  repeat split; vm_compute; reflexivity.
Qed.

Lemma commands_ignore_game_state_witness :
  GAME_STATE_GAME_OVER <> GAME_STATE_PLAYING
  /\ tick Examples.lost_with_selection = Ok Examples.lost_with_selection.
Proof.
  split; [discriminate |].
  apply (commands_ignore_game_state GAME_STATE_GAME_OVER
           (select_tower_type "basic" init) (0, 0) []).
  discriminate.
Defined.

(** ** The balance *)

Import Reach.

Lemma invariant_init : invariant init.
Proof.
  unfold invariant. simpl. repeat split; try constructor. lia.
Qed.

Lemma grid_position_on_grid (pos : Z * Z) :
  on_screen (get_grid_position pos) = true -> on_grid (get_grid_position pos).
Proof.
  intros H. apply on_screen_bounds in H. destruct pos as [x y].
  unfold get_grid_position, SCREEN_WIDTH, SCREEN_HEIGHT, GRID_SIZE in *.
  simpl fst in H. simpl snd in H.
  change (40 / 2) with 20 in *.
  exists (x / 40), (y / 40). unfold GRID_SIZE. change (40 / 2) with 20.
  repeat split; lia.
Qed.

Lemma placed_ok_upgrade (tw : Tower.t) :
  placed_ok tw -> placed_ok (fst (Tower.upgrade tw)).
Proof.
  intros [[Hc Hd] Hg]. split; [| exact Hg]. split; [exact Hc |].
  simpl. apply int_mul_nonneg. exact Hd.
Qed.

Lemma prototype_of_init (tower_type : string) (prototype : Tower.t) :
  dict_get tower_type (tower_prototypes init) = Ok prototype ->
  tower_ok prototype.
Proof.
  unfold tower_ok, prototype_cost. simpl.
  repeat match goal with
         | |- context [String.eqb ?a ?b] => destruct (String.eqb a b)
         end;
    intros H; try discriminate H; injection H as <-; simpl;
    (split; [auto | lia]).
Qed.

Lemma sell_value_nonneg (c : Z) : prototype_cost c -> 0 <= sell_value c.
Proof.
  intros [-> | [-> | ->]]; vm_compute; discriminate.
Qed.

Lemma Forall_list_update {A : Type} (P : A -> Prop) (f : A -> A)
    (l : list A) : forall i,
  (forall a, P a -> P (f a)) -> Forall P l -> Forall P (list_update i f l).
Proof.
  induction l as [|a l IH]; intros i Hf Hl; [destruct i; constructor |].
  inversion Hl; subst. destruct i; simpl; constructor; auto.
Qed.

Lemma Forall_list_delete {A : Type} (P : A -> Prop) (l : list A) : forall i,
  Forall P l -> Forall P (list_delete i l).
Proof.
  induction l as [|a l IH]; intros i Hl; [destruct i; constructor |].
  inversion Hl; subst. destruct i; simpl; [assumption |].
  constructor; auto.
Qed.

Lemma invariant_select_tower_type (tower_type : string)
    (g : TowerDefenseGame.t) :
  invariant g -> invariant (select_tower_type tower_type g).
Proof.
  unfold invariant, select_tower_type.
  destruct (dict_get tower_type (tower_prototypes g)); simpl; auto.
Qed.

Lemma invariant_place_tower (g g' : TowerDefenseGame.t) (pos : Z * Z)
    (ok : bool) :
  invariant g -> place_tower pos g = Ok (g', ok) -> invariant g'.
Proof.
  intros Hinv H. apply place_tower_inv in H.
  destruct H as [(_ & ->) | (_ & ty & proto & _ & Hget & Hvalid & Hcost & ->)];
    [exact Hinv |].
  destruct Hinv as (Hm & Hp & Hpath & Ht & He).
  unfold invariant. simpl. repeat split; try assumption; [lia |].
  apply Forall_app. split; [exact Ht |].
  constructor; [| constructor]. split.
  - rewrite Hp in Hget. exact (prototype_of_init _ _ Hget).
  - simpl. rewrite <- surjective_pairing.
    apply grid_position_on_grid.
    apply is_position_valid_inv in Hvalid. tauto.
Qed.

Lemma invariant_select_tower (pos : Z * Z) (g : TowerDefenseGame.t) :
  invariant g -> invariant (fst (select_tower pos g)).
Proof.
  unfold invariant, select_tower.
  destruct (tower_at pos (towers g) 0); simpl; auto.
Qed.

Lemma invariant_upgrade (g : TowerDefenseGame.t) :
  invariant g -> invariant (fst (upgrade_selected_tower g)).
Proof.
  intros Hinv. unfold upgrade_selected_tower.
  destruct (selected g) as [[i tw]|]; [| exact Hinv].
  destruct (Z.leb_spec (Tower.cost tw / 2) (money g)) as [Hle|_];
    [| exact Hinv].
  destruct Hinv as (Hm & Hp & Hpath & Ht & He).
  unfold invariant. simpl. repeat split; try assumption; [lia |].
  apply Forall_list_update; [| exact Ht]. exact placed_ok_upgrade.
Qed.

Lemma selected_In (g : TowerDefenseGame.t) (i : nat) (tw : Tower.t) :
  selected g = Some (i, tw) -> In tw (towers g).
Proof.
  unfold selected. destruct (selected_tower g) as [j|]; [| discriminate].
  destruct (nth_error (towers g) j) as [tw'|] eqn:Hnth; [| discriminate].
  intros H. injection H as <- <-. eapply nth_error_In. exact Hnth.
Qed.

Lemma invariant_sell (g : TowerDefenseGame.t) :
  invariant g -> invariant (fst (sell_selected_tower g)).
Proof.
  intros Hinv. unfold sell_selected_tower.
  destruct (selected g) as [[i tw]|] eqn:Hsel; [| exact Hinv].
  destruct Hinv as (Hm & Hp & Hpath & Ht & He).
  apply selected_In in Hsel.
  assert (Hc : prototype_cost (Tower.cost tw))
    by (rewrite Forall_forall in Ht; exact (proj1 (proj1 (Ht _ Hsel)))).
  apply sell_value_nonneg in Hc.
  unfold invariant. simpl. repeat split; try assumption; [lia |].
  apply Forall_list_delete. exact Ht.
Qed.

Lemma invariant_start_wave (g : TowerDefenseGame.t) :
  invariant g -> invariant (fst (start_wave g)).
Proof.
  unfold invariant, start_wave.
  destruct (negb (WaveManager.active (wave_manager g))); [| auto].
  destruct (WaveManager.start_wave (wave_manager g)); simpl; auto.
Qed.

Lemma invariant_handle_key (k : pygame.key) (g : TowerDefenseGame.t) :
  invariant g -> invariant (handle_key k g).
Proof.
  intros Hinv. destruct k; unfold handle_key;
    auto using invariant_start_wave, invariant_upgrade, invariant_sell;
    try (destruct (nth_error (map fst (tower_prototypes g)) _);
         [apply invariant_select_tower_type |]; exact Hinv);
    exact Hinv.
Qed.

Lemma invariant_event_loop (events : list pygame.event) (mouse_pos : Z * Z) :
  forall g g' b,
    invariant g -> event_loop events mouse_pos g = Ok (g', b) -> invariant g'.
Proof.
  induction events as [|ev events IH]; intros g g' b Hinv H.
  - injection H as <- _. exact Hinv.
  - destruct ev as [|k|button|]; cbn [event_loop] in H.
    + injection H as <- _. exact Hinv.
    + eapply IH; [| exact H]. apply invariant_handle_key. exact Hinv.
    + destruct (button =? 1); [| eapply IH; eassumption].
      destruct (truthy (selected_tower_type g)).
      * inv_bind H. destruct a as [g1 ok].
        eapply IH; [| exact H]. eapply invariant_place_tower; eassumption.
      * eapply IH; [| exact H]. apply invariant_select_tower. exact Hinv.
    + eapply IH; eassumption.
Qed.

Lemma invariant_process_events (events : list pygame.event)
    (mouse_pos : Z * Z) (g g' : TowerDefenseGame.t) (b : bool) :
  invariant g -> process_events events mouse_pos g = Ok (g', b) ->
  invariant g'.
Proof.
  intros Hinv H. unfold process_events in H. inv_bind H.
  destruct a as [g1 continue].
  apply (invariant_event_loop _ _ _ _ _ Hinv) in Ha.
  destruct continue; [| injection H as <- _; exact Ha].
  destruct (dragging_tower g1); injection H as <- _; exact Ha.
Qed.

Lemma create_enemy_value (fresh : nat) (enemy_type : string)
    (path : list (Z * Z)) (e : Enemy.t) :
  EnemyFactory.create_enemy fresh enemy_type path = Ok e ->
  0 <= Enemy.value e.
Proof.
  unfold EnemyFactory.create_enemy, Enemy.init.
  destruct path as [|[px py] rest];
    repeat match goal with
           | |- context [String.eqb ?a ?b] => destruct (String.eqb a b)
           end;
    intros H; try discriminate H; injection H as <-; simpl; lia.
Qed.

Lemma wave_update_value (fresh : nat) (path : list (Z * Z))
    (wm wm' : WaveManager.t) (e : Enemy.t) :
  WaveManager.update fresh wm path = Ok (wm', Some e) -> 0 <= Enemy.value e.
Proof.
  unfold WaveManager.update. intros H.
  destruct (negb (WaveManager.active wm)); [discriminate H |].
  destruct (WaveManager.spawn_delay wm <=? WaveManager.spawn_timer wm + 1);
    [| discriminate H].
  destruct (nth_error (WaveManager.waves wm) (WaveManager.current_wave wm))
    as [wave|]; [| discriminate H].
  destruct (WaveManager.enemy_index wm <? List.length wave)%nat.
  - destruct (nth_error wave (WaveManager.enemy_index wm)) as [ty|];
      [| discriminate H].
    inv_bind H. injection H as _ <-. eapply create_enemy_value. exact Ha.
  - destruct (List.length wave <=? WaveManager.enemy_index wm)%nat;
      discriminate H.
Qed.

Lemma bounty_nonneg (es : list Enemy.t) :
  Forall (fun e => 0 <= Enemy.value e) es -> 0 <= Tally.bounty es.
Proof.
  induction 1 as [|e es He _ IH]; [unfold Tally.bounty; simpl; lia |].
  rewrite bounty_cons. destruct (Tally.dead_on_path e); lia.
Qed.

Lemma update_enemies_values (es : list Enemy.t) : forall es' acc acc',
  Forall (fun e => 0 <= Enemy.value e) es ->
  update_enemies es acc = Ok (es', acc') ->
  Forall (fun e => 0 <= Enemy.value e) es'.
Proof.
  induction es as [|e es IH]; intros es' acc acc' Hes H; simpl in H.
  - injection H as <- _. constructor.
  - inv_bind H. destruct a as [e1 acc1].
    inv_bind H. destruct a as [es1 acc2].
    injection H as <- _. inversion Hes; subst.
    constructor; [| eapply IH; eassumption].
    unfold update_enemy in Ha. apply bind_Ok_inv in Ha.
    destruct Ha as ([e2 b] & Hupd & Ha).
    apply enemy_update_health in Hupd. destruct Hupd as (_ & Hv & _).
    assert (e1 = e2) as ->.
    { destruct b; [| destruct (negb (Enemy.is_alive e2))];
        injection Ha as <- _; reflexivity. }
    rewrite Hv. assumption.
Qed.

Lemma Forall_remove_enemy (P : Enemy.t -> Prop) (id : nat)
    (es : list Enemy.t) :
  Forall P es -> Forall P (remove_enemy id es).
Proof.
  induction 1 as [|e es He Hes IH]; [constructor |].
  simpl. destruct (Nat.eqb (Enemy.eid e) id); [assumption |].
  constructor; assumption.
Qed.

Lemma Forall_remove_enemies (P : Enemy.t -> Prop) (ids : list nat) :
  forall es, Forall P es -> Forall P (remove_enemies ids es).
Proof.
  unfold remove_enemies.
  induction ids as [|id ids IH]; intros es Hes; [exact Hes |].
  simpl. apply IH. apply Forall_remove_enemy. exact Hes.
Qed.

Lemma Forall2_hit_value_nonneg (l1 l2 : list Enemy.t) :
  Forall2 Tally.hit l1 l2 ->
  Forall (fun e => 0 <= Enemy.value e) l1 ->
  Forall (fun e => 0 <= Enemy.value e) l2.
Proof.
  induction 1 as [|a b l1 l2 Hab _ IH]; intros Hl; [constructor |].
  inversion Hl; subst. constructor; [| apply IH; assumption].
  rewrite Hab. simpl. assumption.
Qed.

(** An attack leaves the cost, the damage and the place of the tower alone. *)
Lemma tower_attack_cost (tw tw' : Tower.t) (es es' : list Enemy.t) (d : Z) :
  tower_attack tw es = (tw', es', d) ->
  (Tower.cost tw' = Tower.cost tw /\ Tower.damage tw' = Tower.damage tw)
  /\ (Tower.x tw' = Tower.x tw /\ Tower.y tw' = Tower.y tw).
Proof.
  unfold tower_attack, Tower.attack, BomberTower.attack. intros H.
  destruct (Tower.cls tw);
    destruct (negb (Tower.can_attack tw));
    try (injection H as <- _ _; repeat split; reflexivity);
    try (destruct (Tower.find_target tw es) as [[i en]|];
         injection H as <- _ _; repeat split; reflexivity).
  destruct (filter (Tower.in_range tw) es); injection H as <- _ _;
    repeat split; reflexivity.
Qed.

Lemma attack_all_costs (tws : list Tower.t) : forall es tws' es',
  attack_all tws es = (tws', es') ->
  Forall placed_ok tws -> Forall placed_ok tws'.
Proof.
  induction tws as [|tw tws IH]; intros es tws' es' H Htws; simpl in H.
  - injection H as <- _. constructor.
  - destruct (tower_attack tw es) as [[tw1 es1] d] eqn:Hatt.
    destruct (attack_all tws es1) as [tws2 es2] eqn:Hall.
    injection H as <- _. inversion Htws as [|? ? Hok Hrest]; subst.
    constructor; [| exact (IH _ _ _ Hall Hrest)].
    destruct (tower_attack_cost _ _ _ _ _ Hatt) as ((Hc & Hd) & Hx & Hy).
    unfold placed_ok, tower_ok. rewrite Hc, Hd, Hx, Hy. exact Hok.
Qed.

Lemma invariant_update (g g' : TowerDefenseGame.t) :
  invariant g -> update g = Ok g' -> invariant g'.
Proof.
  intros (Hm & Hp & Hpath & Ht & He) Hu. unfold update in Hu.
  inv_bind Hu. rename a into g1. inv_bind Hu. rename a into g2.
  injection Hu as <-.
  (* after the spawn *)
  assert (H1 : 0 <= money g1
               /\ tower_prototypes g1 = tower_prototypes init
               /\ path g1 = path init
               /\ Forall placed_ok (towers g1)
               /\ Forall (fun e => 0 <= Enemy.value e) (enemies g1)).
  { unfold spawn_enemies in Ha. inv_bind Ha. destruct a as [wm [en|]];
      injection Ha as <-; simpl; repeat split; try assumption.
    apply Forall_app. split; [exact He |].
    constructor; [| constructor]. eapply wave_update_value. exact Ha1. }
  destruct H1 as (Hm1 & Hp1 & Hpath1 & Ht1 & He1).
  (* after the enemy loop and the removal *)
  assert (H2 : 0 <= money g2
               /\ tower_prototypes g2 = tower_prototypes init
               /\ path g2 = path init
               /\ Forall placed_ok (towers g2)
               /\ Forall (fun e => 0 <= Enemy.value e) (enemies g2)).
  { unfold move_and_remove in Ha0. inv_bind Ha0. destruct a as [es' acc].
    injection Ha0 as <-. simpl.
    pose proof (update_enemies_tally _ _ _ _ Ha1) as (_ & Hmoney & _).
    simpl in Hmoney. pose proof (bounty_nonneg _ He1) as Hb.
    repeat split; try assumption; [lia |].
    apply Forall_remove_enemies.
    eapply update_enemies_values; eassumption. }
  destruct H2 as (Hm2 & Hp2 & Hpath2 & Ht2 & He2).
  (* after the towers and the checks *)
  pose proof (check_economy (update_towers g2)) as Hc. simpl in Hc.
  destruct Hc as (Hcm & _ & _ & Hce & Hct & _).
  assert (Hcp : tower_prototypes
                  (check_victory (check_game_over (update_towers g2)))
                = tower_prototypes g2
                /\ path (check_victory (check_game_over (update_towers g2)))
                   = path g2).
  { unfold check_victory, check_game_over, update_towers.
    destruct (attack_all (towers g2) (enemies g2)).
    repeat match goal with
           | |- context [if ?c then _ else _] => destruct c
           end; split; reflexivity. }
  destruct Hcp as (Hcp & Hcpath).
  unfold invariant. rewrite Hcm, Hce, Hct, Hcp, Hcpath.
  pose proof (update_towers_economy g2) as (Htm & _ & _ & _ & _ & Hhit).
  rewrite Htm. repeat split; try assumption.
  - unfold update_towers.
    destruct (attack_all (towers g2) (enemies g2)) as [tws es] eqn:Hall.
    simpl. eapply attack_all_costs; eassumption.
  - eapply Forall2_hit_value_nonneg; eassumption.
Qed.

Lemma reachable_invariant (g : TowerDefenseGame.t) :
  reachable g -> invariant g.
Proof.
  induction 1;
    eauto using invariant_init, invariant_select_tower_type,
      invariant_place_tower, invariant_select_tower, invariant_upgrade,
      invariant_sell, invariant_start_wave, invariant_process_events,
      invariant_update.
Qed.

(** C9: the balance is never negative.  In every state reached from
    [__init__] by the game's operations (placement, upgrade, sale, wave
    start, input handling, frame update with its bounty credits) money is at
    least 0; and each of the two debits is taken only after the balance was
    checked to cover it. *)
Theorem money_never_negative (g : TowerDefenseGame.t) :
  reachable g ->
  0 <= money g
  /\ (forall pos g',
         place_tower pos g = Ok (g', true) ->
         exists c, c <= money g /\ money g' = money g - c /\ 0 <= money g')
  /\ (forall g',
         upgrade_selected_tower g = (g', true) ->
         exists c, c <= money g /\ money g' = money g - c /\ 0 <= money g')
  /\ (forall g',
         sell_selected_tower g = (g', true) -> money g <= money g')
  /\ (forall g', update g = Ok g' -> money g <= money g').
Proof.
  intros Hr. pose proof (reachable_invariant g Hr) as Hinv.
  pose proof Hinv as (Hm & Hp & Hpath & Ht & He).
  split; [exact Hm |]. split; [| split; [| split]].
  - intros pos g' H. apply place_tower_inv in H.
    destruct H as [(Hok & _) | (_ & ty & proto & _ & _ & _ & Hcost & ->)];
      [discriminate Hok |].
    exists (Tower.cost proto). simpl. lia.
  - intros g' H. unfold upgrade_selected_tower in H.
    destruct (selected g) as [[i tw]|]; [| discriminate H].
    destruct (Z.leb_spec (Tower.cost tw / 2) (money g)) as [Hle|_];
      [| discriminate H].
    injection H as <-. exists (Tower.cost tw / 2). simpl. lia.
  - intros g' H. unfold sell_selected_tower in H.
    destruct (selected g) as [[i tw]|] eqn:Hsel; [| discriminate H].
    injection H as <-. simpl.
    apply selected_In in Hsel. rewrite Forall_forall in Ht.
    pose proof (sell_value_nonneg _ (proj1 (proj1 (Ht _ Hsel)))). lia.
  - intros g' Hu. pose proof Hu as Hu'. unfold update in Hu.
    inv_bind Hu. rename a into g1.
    destruct (update_economy _ _ _ Ha Hu') as (_ & -> & _).
    assert (He1 : Forall (fun e => 0 <= Enemy.value e) (enemies g1)).
    { unfold spawn_enemies in Ha. inv_bind Ha. destruct a as [wm [en|]];
        injection Ha as <-; simpl; [| exact He].
      apply Forall_app. split; [exact He |].
      constructor; [| constructor]. eapply wave_update_value. exact Ha0. }
    pose proof (bounty_nonneg _ He1). lia.
Qed.

Lemma money_never_negative_witness :
  reachable (set_money 150
               (set_towers [BasicTower 100 260]
                  (select_tower_type "basic" init)))
  /\ 0 <= money (set_money 150
                   (set_towers [BasicTower 100 260]
                      (select_tower_type "basic" init))).
Proof.
  assert (Hr : reachable (set_money 150
                            (set_towers [BasicTower 100 260]
                               (select_tower_type "basic" init)))).
  { apply (reach_place_tower (select_tower_type "basic" init) _ (100, 250) true).
    - apply reach_select_tower_type. apply reach_init.
    - reflexivity. }
  split; [exact Hr |].
  apply (money_never_negative _ Hr).
Defined.

(** ** References denote objects *)

Lemma tower_at_bound (pos : Z * Z) (tws : list Tower.t) : forall k i,
  tower_at pos tws k = Some i -> (k <= i < k + List.length tws)%nat.
Proof.
  induction tws as [|tw tws IH]; intros k i H; simpl in H; [discriminate H |].
  match type of H with
  | (if ?c then _ else _) = _ => destruct c
  end.
  - injection H as <-. simpl. lia.
  - apply IH in H. simpl. lia.
Qed.

Lemma list_update_length {A : Type} (f : A -> A) (l : list A) : forall i,
  List.length (list_update i f l) = List.length l.
Proof.
  induction l as [|a l IH]; intros i; destruct i; simpl; auto.
Qed.

Lemma attack_all_length (tws : list Tower.t) : forall es tws' es',
  attack_all tws es = (tws', es') -> List.length tws' = List.length tws.
Proof.
  induction tws as [|tw tws IH]; intros es tws' es' H; simpl in H.
  - injection H as <- _. reflexivity.
  - destruct (tower_attack tw es) as [[tw1 es1] d].
    destruct (attack_all tws es1) as [tws2 es2] eqn:Hall.
    injection H as <- _. simpl. f_equal. eapply IH. exact Hall.
Qed.

Lemma wave_update_eid (fresh : nat) (path : list (Z * Z))
    (wm wm' : WaveManager.t) (e : Enemy.t) :
  WaveManager.update fresh wm path = Ok (wm', Some e) -> Enemy.eid e = fresh.
Proof.
  unfold WaveManager.update. intros H.
  destruct (negb (WaveManager.active wm)); [discriminate H |].
  destruct (WaveManager.spawn_delay wm <=? WaveManager.spawn_timer wm + 1);
    [| discriminate H].
  destruct (nth_error (WaveManager.waves wm) (WaveManager.current_wave wm))
    as [wave|]; [| discriminate H].
  destruct (WaveManager.enemy_index wm <? List.length wave)%nat.
  - destruct (nth_error wave (WaveManager.enemy_index wm)) as [ty|];
      [| discriminate H].
    apply bind_Ok_inv in H. destruct H as (e' & Hcreate & H).
    injection H as _ <-.
    unfold EnemyFactory.create_enemy, Enemy.init in Hcreate.
    destruct path as [|[px py] rest];
      repeat match type of Hcreate with
             | context [String.eqb ?a ?b] => destruct (String.eqb a b)
             end;
      try discriminate Hcreate; injection Hcreate as <-; reflexivity.
  - destruct (List.length wave <=? WaveManager.enemy_index wm)%nat;
      discriminate H.
Qed.

Lemma Forall_filter_nat (P : nat -> Prop) (f : nat -> bool) (l : list nat) :
  Forall P l -> Forall P (filter f l).
Proof.
  induction 1 as [|a l Ha _ IH]; [constructor |].
  simpl. destruct (f a); [constructor |]; assumption.
Qed.

Lemma NoDup_snoc_fresh (l : list nat) (n : nat) :
  NoDup l -> Forall (fun i => (i < n)%nat) l -> NoDup (l ++ [n]).
Proof.
  induction 1 as [|a l Hnotin _ IH]; intros Hlt; simpl.
  - constructor; [intros [] | constructor].
  - inversion Hlt; subst. constructor; [| apply IH; assumption].
    intros Hin. apply in_app_or in Hin. destruct Hin as [Hin | [<- | []]].
    + exact (Hnotin Hin).
    + lia.
Qed.

Lemma well_formed_init : well_formed init.
Proof.
  unfold well_formed. simpl. repeat split; constructor.
Qed.

Lemma well_formed_select_tower_type (tower_type : string)
    (g : TowerDefenseGame.t) :
  well_formed g -> well_formed (select_tower_type tower_type g).
Proof.
  unfold well_formed, select_tower_type.
  destruct (dict_get tower_type (tower_prototypes g)); simpl; tauto.
Qed.

Lemma well_formed_place_tower (g g' : TowerDefenseGame.t) (pos : Z * Z)
    (ok : bool) :
  well_formed g -> place_tower pos g = Ok (g', ok) -> well_formed g'.
Proof.
  intros Hwf H. apply place_tower_inv in H.
  destruct H as [(_ & ->) | (_ & ty & proto & _ & _ & _ & _ & ->)];
    [exact Hwf |].
  destruct Hwf as (Hnd & Hlt & Hsel).
  unfold well_formed. simpl. repeat split; try assumption.
  destruct (selected_tower g); [| exact I].
  rewrite length_app. simpl. lia.
Qed.

Lemma well_formed_select_tower (pos : Z * Z) (g : TowerDefenseGame.t) :
  well_formed g -> well_formed (fst (select_tower pos g)).
Proof.
  intros (Hnd & Hlt & Hsel). unfold well_formed, select_tower.
  destruct (tower_at pos (towers g) 0) as [i|] eqn:Hat; simpl;
    repeat split; try assumption.
  apply tower_at_bound in Hat. lia.
Qed.

Lemma well_formed_upgrade (g : TowerDefenseGame.t) :
  well_formed g -> well_formed (fst (upgrade_selected_tower g)).
Proof.
  intros Hwf. unfold upgrade_selected_tower.
  destruct (selected g) as [[i tw]|]; [| exact Hwf].
  destruct (Tower.cost tw / 2 <=? money g); [| exact Hwf].
  destruct Hwf as (Hnd & Hlt & Hsel).
  unfold well_formed. simpl. repeat split; try assumption.
  destruct (selected_tower g); [| exact I].
  rewrite list_update_length. exact Hsel.
Qed.

Lemma well_formed_sell (g : TowerDefenseGame.t) :
  well_formed g -> well_formed (fst (sell_selected_tower g)).
Proof.
  intros Hwf. unfold sell_selected_tower.
  destruct (selected g) as [[i tw]|]; [| exact Hwf].
  destruct Hwf as (Hnd & Hlt & Hsel).
  unfold well_formed. simpl. repeat split; assumption.
Qed.

Lemma well_formed_start_wave (g : TowerDefenseGame.t) :
  well_formed g -> well_formed (fst (start_wave g)).
Proof.
  unfold well_formed, start_wave.
  destruct (negb (WaveManager.active (wave_manager g))); [| auto].
  destruct (WaveManager.start_wave (wave_manager g)); simpl; auto.
Qed.

Lemma well_formed_handle_key (k : pygame.key) (g : TowerDefenseGame.t) :
  well_formed g -> well_formed (handle_key k g).
Proof.
  intros Hwf. destruct k; unfold handle_key;
    auto using well_formed_start_wave, well_formed_upgrade, well_formed_sell;
    try (destruct (nth_error (map fst (tower_prototypes g)) _);
         [apply well_formed_select_tower_type |]; exact Hwf);
    try exact Hwf.
  destruct Hwf as (Hnd & Hlt & _). unfold well_formed. simpl. auto.
Qed.

Lemma well_formed_event_loop (events : list pygame.event) (mouse_pos : Z * Z) :
  forall g g' b,
    well_formed g -> event_loop events mouse_pos g = Ok (g', b) ->
    well_formed g'.
Proof.
  induction events as [|ev events IH]; intros g g' b Hwf H.
  - injection H as <- _. exact Hwf.
  - destruct ev as [|k|button|]; cbn [event_loop] in H.
    + injection H as <- _. exact Hwf.
    + eapply IH; [| exact H]. apply well_formed_handle_key. exact Hwf.
    + destruct (button =? 1); [| eapply IH; eassumption].
      destruct (truthy (selected_tower_type g)).
      * apply bind_Ok_inv in H. destruct H as ([g1 ok] & Hplace & H).
        eapply IH; [| exact H]. eapply well_formed_place_tower; eassumption.
      * eapply IH; [| exact H]. apply well_formed_select_tower. exact Hwf.
    + eapply IH; eassumption.
Qed.

Lemma well_formed_process_events (events : list pygame.event)
    (mouse_pos : Z * Z) (g g' : TowerDefenseGame.t) (b : bool) :
  well_formed g -> process_events events mouse_pos g = Ok (g', b) ->
  well_formed g'.
Proof.
  intros Hwf H. unfold process_events in H.
  apply bind_Ok_inv in H. destruct H as ([g1 continue] & Hloop & H).
  apply (well_formed_event_loop _ _ _ _ _ Hwf) in Hloop.
  destruct continue; [| injection H as <- _; exact Hloop].
  destruct (dragging_tower g1); injection H as <- _; exact Hloop.
Qed.

Lemma well_formed_update (g g' : TowerDefenseGame.t) :
  well_formed g -> update g = Ok g' -> well_formed g'.
Proof.
  intros (Hnd & Hlt & Hsel) Hu. unfold update in Hu.
  apply bind_Ok_inv in Hu. destruct Hu as (g1 & Hspawn & Hu).
  apply bind_Ok_inv in Hu. destruct Hu as (g2 & Hmove & Hu).
  injection Hu as <-.
  (* after the spawn *)
  assert (H1 : well_formed g1 /\ towers g1 = towers g).
  { unfold spawn_enemies in Hspawn.
    apply bind_Ok_inv in Hspawn. destruct Hspawn as ([wm [en|]] & Hw & Hspawn);
      injection Hspawn as <-; unfold well_formed; simpl;
      [| repeat split; assumption].
    apply wave_update_eid in Hw. rewrite map_app. simpl. rewrite Hw.
    repeat split; try assumption.
    - apply NoDup_snoc_fresh; assumption.
    - apply Forall_app. split.
      + eapply Forall_impl; [| exact Hlt]. simpl. intros; lia.
      + constructor; [lia | constructor]. }
  destruct H1 as ((Hnd1 & Hlt1 & Hsel1) & Htw1).
  (* after the enemy loop and the removal *)
  assert (H2 : well_formed g2 /\ towers g2 = towers g1).
  { pose proof (move_and_remove_survivors _ _ Hnd1 Hmove) as Hids.
    unfold move_and_remove in Hmove.
    apply bind_Ok_inv in Hmove. destruct Hmove as ([es' acc] & Hloop & Hmove).
    injection Hmove as <-. simpl in Hids.
    apply update_enemies_mark in Hloop. destruct Hloop as (Hsame & Hmarks).
    unfold well_formed. simpl. split; [| reflexivity].
    rewrite remove_enemies_eids by (rewrite Hsame; exact Hnd1).
    rewrite Hsame. repeat split.
    - apply NoDup_filter. exact Hnd1.
    - apply Forall_filter_nat. exact Hlt1.
    - exact Hsel1. }
  destruct H2 as ((Hnd2 & Hlt2 & Hsel2) & Htw2).
  (* after the towers and the checks *)
  pose proof (check_economy (update_towers g2)) as Hc. simpl in Hc.
  destruct Hc as (_ & _ & _ & Hce & Hct & _).
  pose proof (update_towers_economy g2) as (_ & _ & _ & _ & _ & Hhit).
  apply Forall2_hit_eids in Hhit.
  assert (Hrest : next_eid (check_victory (check_game_over (update_towers g2)))
                  = next_eid g2
                  /\ selected_tower
                       (check_victory (check_game_over (update_towers g2)))
                     = selected_tower g2
                  /\ List.length (towers (update_towers g2))
                     = List.length (towers g2)).
  { unfold check_victory, check_game_over, update_towers.
    destruct (attack_all (towers g2) (enemies g2)) as [tws es] eqn:Hall.
    apply attack_all_length in Hall.
    repeat match goal with
           | |- context [if ?c then _ else _] => destruct c
           end; simpl; auto. }
  destruct Hrest as (Hn & Hs & Hlen).
  unfold well_formed. rewrite Hce, Hct, Hn, Hs, Hhit, Hlen.
  repeat split; assumption.
Qed.

(** Every reachable state is well formed: the model's references always
    denote objects. *)
Lemma reachable_well_formed (g : TowerDefenseGame.t) :
  reachable g -> well_formed g.
Proof.
  induction 1;
    eauto using well_formed_init, well_formed_select_tower_type,
      well_formed_place_tower, well_formed_select_tower, well_formed_upgrade,
      well_formed_sell, well_formed_start_wave, well_formed_process_events,
      well_formed_update.
Qed.

(** Every tower of a reachable state has damage that is not negative, so
    [upgrade] rounds its damage down. *)
Lemma reachable_damage_nonneg (g : TowerDefenseGame.t) (tw : Tower.t) :
  reachable g -> In tw (towers g) -> 0 <= Tower.damage tw.
Proof.
  intros Hr Hin. apply reachable_invariant in Hr.
  destruct Hr as (_ & _ & _ & Ht & _). rewrite Forall_forall in Ht.
  exact (proj2 (proj1 (Ht tw Hin))).
Qed.

(** ** Placement, with exact distances *)

Lemma In_grid_cells (cell : Z * Z) : on_grid cell -> In cell grid_cells.
Proof.
  intros (i & j & Hi & Hj & ->). unfold grid_cells.
  apply in_flat_map. exists i. split.
  - apply range_In. simpl. lia.
  - apply in_map_iff. exists j. split; [reflexivity |].
    apply range_In. simpl. lia.
Qed.

Lemma path_test_exact_all : forallb path_test_exact grid_cells = true.
Proof. vm_compute. reflexivity. Qed.

Lemma tower_test_exact_all : forallb tower_test_exact grid_cells = true.
Proof. vm_compute. reflexivity. Qed.

(** On the cells of the screen the binary64 test against the path is the
    exact one: the squared distance is at least 30 squared. *)
Lemma far_from_path_exact (cell point : Z * Z) :
  on_grid cell -> In point (path init) ->
  far_from_path cell point = (900 <=? distance2 cell point).
Proof.
  intros Hcell Hpoint.
  pose proof path_test_exact_all as Hall. rewrite forallb_forall in Hall.
  specialize (Hall cell (In_grid_cells cell Hcell)).
  unfold path_test_exact in Hall. rewrite forallb_forall in Hall.
  specialize (Hall point Hpoint). apply eqb_prop in Hall. exact Hall.
Qed.

(** Likewise for the test against a tower that stands on a cell. *)
Lemma far_from_tower_exact (cell : Z * Z) (tw : Tower.t) :
  on_grid cell -> on_grid (Tower.x tw, Tower.y tw) ->
  far_from_tower cell tw
  = (1600 <=? distance2 cell (Tower.x tw, Tower.y tw)).
Proof.
  intros Hcell Htw.
  pose proof tower_test_exact_all as Hall. rewrite forallb_forall in Hall.
  specialize (Hall cell (In_grid_cells cell Hcell)).
  unfold tower_test_exact in Hall. rewrite forallb_forall in Hall.
  specialize (Hall _ (In_grid_cells _ Htw)). apply eqb_prop in Hall.
  exact Hall.
Qed.




(** * Further properties *)

(** ** The order of binary64 numbers *)

Lemma SFltb_key (x y : spec_float) :
  SFltb x y = true
  <-> FloatOrder.is_nan x = false /\ FloatOrder.is_nan y = false
      /\ FloatOrder.key_lt (FloatOrder.key x) (FloatOrder.key y).
Proof.
  unfold SFltb, SFcompare, FloatOrder.key_lt.
  destruct x as [sx|sx| |sx mx ex], y as [sy|sy| |sy my ey];
    try destruct sx; try destruct sy; simpl;
    try (split; [discriminate | intros (? & ? & ?); try discriminate; lia]);
    try (split; [intros _; repeat split; lia | reflexivity]);
    change (Pos.compare_cont Eq mx my) with (Pos.compare mx my);
    destruct (Z.compare_spec ex ey); destruct (Pos.compare_spec mx my);
    simpl;
    (split;
     [ first [discriminate | intros _; repeat split; lia]
     | first [reflexivity | intros (_ & _ & ?); exfalso; lia] ]).
Qed.

Lemma SFleb_key (x y : spec_float) :
  SFleb x y = true
  <-> FloatOrder.is_nan x = false /\ FloatOrder.is_nan y = false
      /\ (FloatOrder.key_lt (FloatOrder.key x) (FloatOrder.key y)
          \/ FloatOrder.key x = FloatOrder.key y).
Proof.
  unfold SFleb, SFcompare, FloatOrder.key_lt.
  destruct x as [sx|sx| |sx mx ex], y as [sy|sy| |sy my ey];
    try destruct sx; try destruct sy; simpl;
    try (split; [discriminate
                | intros (? & ? & [?|?]); try discriminate; lia]);
    try (split; [intros _; repeat split; first [right; reflexivity | left; lia]
                | reflexivity]);
    change (Pos.compare_cont Eq mx my) with (Pos.compare mx my);
    destruct (Z.compare_spec ex ey); destruct (Pos.compare_spec mx my);
    simpl;
    (split;
     [ first [discriminate
             | intros _; repeat split;
               first [left; lia | right; f_equal; [f_equal |]; lia]]
     | first [reflexivity
             | intros (_ & _ & [?|Heq]);
               [exfalso; lia | exfalso; injection Heq; lia]] ]).
Qed.

Section FloatOrderFacts.

Variables x y z : float.

Lemma ltb_trans :
  (x <? y)%float = true -> (y <? z)%float = true -> (x <? z)%float = true.
Proof.
  rewrite !FloatAxioms.ltb_spec, !SFltb_key. unfold FloatOrder.key_lt.
  destruct (FloatOrder.key (Prim2SF x)) as [[a1 a2] a3].
  destruct (FloatOrder.key (Prim2SF y)) as [[b1 b2] b3].
  destruct (FloatOrder.key (Prim2SF z)) as [[c1 c2] c3].
  intros (? & ? & ?) (? & ? & ?). repeat split; try assumption. lia.
Qed.

Lemma ltb_leb_trans :
  (x <? y)%float = true -> (y <=? z)%float = true -> (x <? z)%float = true.
Proof.
  rewrite !FloatAxioms.ltb_spec, FloatAxioms.leb_spec, !SFltb_key, SFleb_key.
  unfold FloatOrder.key_lt.
  destruct (FloatOrder.key (Prim2SF x)) as [[a1 a2] a3].
  destruct (FloatOrder.key (Prim2SF y)) as [[b1 b2] b3].
  destruct (FloatOrder.key (Prim2SF z)) as [[c1 c2] c3].
  intros (? & ? & ?) (? & ? & [?|Heq]); repeat split; try assumption;
    [| injection Heq as -> -> ->]; lia.
Qed.


Lemma ltb_leb : (x <? y)%float = true -> (x <=? y)%float = true.
Proof.
  rewrite FloatAxioms.ltb_spec, FloatAxioms.leb_spec, SFltb_key, SFleb_key.
  intros (? & ? & ?). auto.
Qed.


Lemma leb_number : (x <=? y)%float = true ->
  FloatOrder.number x /\ FloatOrder.number y.
Proof.
  unfold FloatOrder.number.
  rewrite !FloatAxioms.leb_spec, !SFleb_key. intros (Hx & Hy & _).
  split; repeat split; auto.
Qed.

Lemma ltb_number : (x <? y)%float = true ->
  FloatOrder.number x /\ FloatOrder.number y.
Proof. intros H. apply leb_number. apply ltb_leb. exact H. Qed.

(** Two numbers are comparable. *)
Lemma not_ltb_leb :
  FloatOrder.number x -> FloatOrder.number y ->
  (x <? y)%float = false -> (y <=? x)%float = true.
Proof.
  unfold FloatOrder.number.
  rewrite !FloatAxioms.leb_spec, FloatAxioms.ltb_spec, !SFleb_key.
  intros (Hx & _ & _) (Hy & _ & _) Hlt.
  assert (Hn : ~ FloatOrder.key_lt (FloatOrder.key (Prim2SF x))
                                  (FloatOrder.key (Prim2SF y))).
  { intros Hk. rewrite (proj2 (SFltb_key _ _)) in Hlt by auto.
    discriminate Hlt. }
  repeat split; try assumption. unfold FloatOrder.key_lt in *.
  destruct (FloatOrder.key (Prim2SF x)) as [[a1 a2] a3].
  destruct (FloatOrder.key (Prim2SF y)) as [[b1 b2] b3].
  destruct (Z.lt_trichotomy a1 b1) as [?|[?|?]];
    destruct (Z.lt_trichotomy a2 b2) as [?|[?|?]];
    destruct (Z.lt_trichotomy a3 b3) as [?|[?|?]];
    try (exfalso; apply Hn; lia);
    first [left; lia | right; f_equal; [f_equal |]; lia].
Qed.

(** A number equal to zero is below every positive number. *)
Lemma eqb_zero_ltb :
  (x =? 0)%float = true -> (0 <? y)%float = true -> (x <? y)%float = true.
Proof.
  rewrite FloatAxioms.eqb_spec, !FloatAxioms.ltb_spec.
  change (Prim2SF 0) with (S754_zero false).
  destruct (Prim2SF x) as [sx|sx| |sx mx ex]; simpl;
    try discriminate; try (destruct sx; discriminate).
  intros _ H. exact H.
Qed.

End FloatOrderFacts.

(** ** Tower.find_target *)

Lemma nth_error_snoc {A : Type} (l : list A) (a : A) (j : nat) (b : A) :
  nth_error (l ++ [a]) j = Some b ->
  (j < List.length l /\ nth_error l j = Some b)%nat
  \/ (j = List.length l /\ b = a).
Proof.
  intros H. destruct (Nat.lt_ge_cases j (List.length l)) as [Hlt|Hge].
  - left. rewrite nth_error_app1 in H by exact Hlt. auto.
  - right. rewrite nth_error_app2 in H by exact Hge.
    destruct (j - List.length l)%nat as [|n] eqn:Hn.
    + simpl in H. injection H as <-. split; [lia | reflexivity].
    + simpl in H. destruct n; discriminate H.
Qed.

Lemma established_step (self : Tower.t) (seen : list Enemy.t)
    (enemy : Enemy.t) (closest : option (nat * Enemy.t)) (m : float) :
  Targeting.established self seen closest m ->
  let d := Tower.distance_to self enemy in
  if ((d <=? float_of_int (Tower.radius self))%float && (d <? m)%float)%bool
  then Targeting.established self (seen ++ [enemy])
         (Some (List.length seen, enemy)) d
  else Targeting.established self (seen ++ [enemy]) closest m.
Proof.
  intros (Hnum & Hlow & Hclosest) d.
  destruct ((d <=? float_of_int (Tower.radius self))%float) eqn:Hrange;
    [destruct ((d <? m)%float) eqn:Hlt |]; simpl.
  - (* a new closest enemy *)
    pose proof (leb_number _ _ Hrange) as (Hd & _).
    split; [exact Hd |]. split; [| split; [| split; [| split]]].
    + intros j ej Hj Hin. apply nth_error_snoc in Hj.
      destruct Hj as [(_ & Hj) | (_ & ->)]; [| exact Hd].
      apply ltb_leb. eapply ltb_leb_trans; [exact Hlt |]. eapply Hlow; eauto.
    + rewrite nth_error_app2 by lia. rewrite Nat.sub_diag. reflexivity.
    + exact Hrange.
    + reflexivity.
    + intros j ej Hjk Hj Hin. rewrite nth_error_app1 in Hj by exact Hjk.
      eapply ltb_leb_trans; [exact Hlt |]. eapply Hlow; eauto.
  - (* in range, not nearer *)
    split; [exact Hnum |]. split.
    + intros j ej Hj Hin. apply nth_error_snoc in Hj.
      destruct Hj as [(_ & Hj) | (_ & ->)]; [eapply Hlow; eauto |].
      apply not_ltb_leb; [apply (leb_number _ _ Hrange) | exact Hnum
                         | exact Hlt].
    + destruct closest as [[k ek]|]; [| exact Hclosest].
      destruct Hclosest as (Hk & Hkin & Hm & Hfirst).
      assert (Hklt : (k < List.length seen)%nat)
        by (apply nth_error_Some; congruence).
      repeat split; try assumption.
      * rewrite nth_error_app1 by exact Hklt. exact Hk.
      * intros j ej Hjk Hj Hin. rewrite nth_error_app1 in Hj by lia.
        eapply Hfirst; eauto.
  - (* out of range *)
    split; [exact Hnum |]. split.
    + intros j ej Hj Hin. apply nth_error_snoc in Hj.
      destruct Hj as [(_ & Hj) | (_ & ->)]; [eapply Hlow; eauto |].
      unfold Tower.in_range in Hin. fold d in Hin. congruence.
    + destruct closest as [[k ek]|]; [| exact Hclosest].
      destruct Hclosest as (Hk & Hkin & Hm & Hfirst).
      assert (Hklt : (k < List.length seen)%nat)
        by (apply nth_error_Some; congruence).
      repeat split; try assumption.
      * rewrite nth_error_app1 by exact Hklt. exact Hk.
      * intros j ej Hjk Hj Hin. rewrite nth_error_app1 in Hj by lia.
        eapply Hfirst; eauto.
Qed.

Lemma find_target_loop_established (self : Tower.t) (rest : list Enemy.t) :
  forall seen closest m,
    Targeting.established self seen closest m ->
    exists m',
      Targeting.established self (seen ++ rest)
        (Tower.find_target_loop self rest (List.length seen) closest m) m'.
Proof.
  induction rest as [|enemy rest IH]; intros seen closest m Hest.
  - exists m. rewrite app_nil_r. exact Hest.
  - pose proof (established_step self seen enemy closest m Hest) as Hstep.
    cbv zeta in Hstep. cbn [Tower.find_target_loop].
    replace (seen ++ enemy :: rest)%list with ((seen ++ [enemy]) ++ rest)%list
      by (rewrite <- app_assoc; reflexivity).
    replace (S (List.length seen)) with (List.length (seen ++ [enemy]))
      by (rewrite length_app; simpl; lia).
    destruct ((Tower.distance_to self enemy
               <=? float_of_int (Tower.radius self))%float
              && (Tower.distance_to self enemy <? m)%float)%bool;
      apply IH; exact Hstep.
Qed.

Lemma find_target_established (self : Tower.t) (enemies : list Enemy.t) :
  exists m,
    Targeting.established self enemies (Tower.find_target self enemies) m.
Proof.
  apply (find_target_loop_established self enemies [] None infinity).
  split; [reflexivity |]. split; [| reflexivity].
  intros j ej Hj. destruct j; discriminate Hj.
Qed.



(** ** Attacks *)

Lemma find_target_in_list (self : Tower.t) (enemies : list Enemy.t)
    (i : nat) (enemy : Enemy.t) :
  Tower.find_target self enemies = Some (i, enemy) ->
  nth_error enemies i = Some enemy /\ Tower.in_range self enemy = true.
Proof.
  intros H. destruct (find_target_established self enemies) as (m & _ & _ & Hc).
  rewrite H in Hc. tauto.
Qed.

Lemma Forall2_touched_refl (self : Tower.t) (es : list Enemy.t) :
  Forall2 (Measure.touched self) es es.
Proof. induction es; constructor; [left; reflexivity | assumption]. Qed.

Lemma list_update_touched (self : Tower.t) (es : list Enemy.t) :
  forall i e,
    nth_error es i = Some e -> Tower.in_range self e = true ->
    Forall2 (Measure.touched self) es
      (list_update i
         (fun e => Enemy.set_health (Enemy.health e - Tower.damage self) e) es)
    /\ Measure.total_health
         (list_update i
            (fun e => Enemy.set_health (Enemy.health e - Tower.damage self) e)
            es)
       = Measure.total_health es - Tower.damage self.
Proof.
  induction es as [|a es IH]; intros i e Hi Hin; [destruct i; discriminate Hi |].
  destruct i as [|i]; simpl in *.
  - injection Hi as ->. split; [| lia].
    constructor; [right; auto | apply Forall2_touched_refl].
  - destruct (IH i e Hi Hin) as (Hf & Ht). split; [| lia].
    constructor; [left; reflexivity | exact Hf].
Qed.

Lemma map_touched (self : Tower.t) (es : list Enemy.t) :
  Forall2 (Measure.touched self) es
    (map (fun e =>
            if Tower.in_range self e
            then Enemy.set_health (Enemy.health e - Tower.damage self) e
            else e) es)
  /\ Measure.total_health
       (map (fun e =>
               if Tower.in_range self e
               then Enemy.set_health (Enemy.health e - Tower.damage self) e
               else e) es)
     = Measure.total_health es
       - Tower.damage self
         * Z.of_nat (List.length (filter (Tower.in_range self) es)).
Proof.
  induction es as [|a es (Hf & Ht)]; [simpl; split; [constructor | lia] |].
  cbn [map filter Measure.total_health fold_right].
  fold (Measure.total_health es).
  fold (Measure.total_health
          (map (fun e =>
                  if Tower.in_range self e
                  then Enemy.set_health (Enemy.health e - Tower.damage self) e
                  else e) es)).
  destruct (Tower.in_range self a) eqn:Hin.
  - split; [constructor; [right; auto | exact Hf] |].
    cbn [List.length]. rewrite Nat2Z.inj_succ. simpl Enemy.health. lia.
  - split; [constructor; [left; reflexivity | exact Hf] |]. lia.
Qed.




Lemma tower_attack_cooling (tower : Tower.t) (enemies : list Enemy.t) :
  0 < Tower.cooldown_counter tower ->
  tower_attack tower enemies
  = (Tower.set_cooldown_counter (Tower.cooldown_counter tower - 1) tower,
     enemies, 0).
Proof.
  intros Hpos. unfold tower_attack, Tower.attack, BomberTower.attack.
  unfold Tower.can_attack.
  destruct (Z.leb_spec (Tower.cooldown_counter tower) 0) as [Hle|_]; [lia |].
  destruct (Tower.cls tower); reflexivity.
Qed.

Lemma attacks_cooling (k : nat) : forall tower enemies,
  Z.of_nat k <= Tower.cooldown_counter tower ->
  Measure.attacks k tower enemies
  = (Tower.set_cooldown_counter (Tower.cooldown_counter tower - Z.of_nat k)
       tower,
     enemies, 0).
Proof.
  induction k as [|k IH]; intros tower enemies Hk.
  - simpl. rewrite Z.sub_0_r. destruct tower; reflexivity.
  - cbn [Measure.attacks]. rewrite tower_attack_cooling by lia.
    rewrite IH by (simpl; lia). simpl. do 2 f_equal.
    unfold Tower.set_cooldown_counter. simpl. f_equal. lia.
Qed.

Lemma tower_attack_reset (tower : Tower.t) (enemies : list Enemy.t) :
  snd (tower_attack tower enemies) <> 0 ->
  Tower.cooldown_counter (fst (fst (tower_attack tower enemies)))
  = Tower.cooldown tower.
Proof.
  unfold tower_attack, Tower.attack, BomberTower.attack.
  destruct (Tower.can_attack tower); simpl negb; cbv iota.
  - destruct (Tower.cls tower).
    1, 2: destruct (Tower.find_target tower enemies) as [[i e]|];
      cbn [fst snd]; intros H;
      [reflexivity | exfalso; apply H; reflexivity].
    destruct (filter (Tower.in_range tower) enemies) as [|h hits];
      cbn [fst snd]; intros H;
      [exfalso; apply H; reflexivity | reflexivity].
  - destruct (Tower.cls tower); cbn [fst snd]; intros H; exfalso; apply H;
      reflexivity.
Qed.

(** X3: the cooldown.  After an attack that returned damage, the next
    [cooldown] calls of [attack] by that tower deal nothing and leave any
    list of enemies as it is, each lowers the counter by one, and after
    them the tower can attack again. *)
Theorem cooldown_between_hits
    (tower : Tower.t) (enemies later : list Enemy.t) (k : nat) :
  snd (tower_attack tower enemies) <> 0 ->
  Z.of_nat k <= Tower.cooldown tower ->
  let tower' := fst (fst (tower_attack tower enemies)) in
  Measure.attacks k tower' later
  = (Tower.set_cooldown_counter (Tower.cooldown tower - Z.of_nat k) tower',
     later, 0)
  /\ (Z.of_nat k = Tower.cooldown tower ->
      Tower.can_attack (fst (fst (Measure.attacks k tower' later))) = true)
  /\ (Z.of_nat k < Tower.cooldown tower ->
      Tower.can_attack (fst (fst (Measure.attacks k tower' later))) = false).
Proof.
  intros Hdealt Hk tower'.
  pose proof (tower_attack_reset tower enemies Hdealt) as Hreset.
  fold tower' in Hreset.
  assert (Hrun : Measure.attacks k tower' later
                 = (Tower.set_cooldown_counter
                      (Tower.cooldown tower - Z.of_nat k) tower', later, 0)).
  { rewrite attacks_cooling by lia. rewrite Hreset. reflexivity. }
  split; [exact Hrun |]. rewrite Hrun. unfold Tower.can_attack. simpl.
  split; intros H.
  - apply Z.leb_le. lia.
  - apply Z.leb_gt. lia.
Qed.

Lemma cooldown_between_hits_witness :
  snd (tower_attack Examples.bomber Examples.blast_beyond_range) <> 0
  /\ Z.of_nat 45 <= Tower.cooldown Examples.bomber
  /\ Tower.can_attack
       (fst (fst (Measure.attacks 45
                    (fst (fst (tower_attack Examples.bomber
                                 Examples.blast_beyond_range)))
                    Examples.spread_in_range)))
     = true.
Proof.
  split; [vm_compute; discriminate |]. split; [vm_compute; discriminate |].
  apply (cooldown_between_hits Examples.bomber Examples.blast_beyond_range
           Examples.spread_in_range 45);
    [vm_compute; discriminate | vm_compute; discriminate | reflexivity].
Defined.

(** ** Tower.upgrade, repeated *)

Lemma upgrades_fields (n : nat) : forall tower,
  Tower.level (Measure.upgrades n tower) = Tower.level tower + Z.of_nat n
  /\ Tower.radius (Measure.upgrades n tower)
     = Tower.radius tower + 20 * Z.of_nat n
  /\ Tower.cost (Measure.upgrades n tower) = Tower.cost tower
  /\ Tower.x (Measure.upgrades n tower) = Tower.x tower
  /\ Tower.y (Measure.upgrades n tower) = Tower.y tower
  /\ Tower.cls (Measure.upgrades n tower) = Tower.cls tower.
Proof.
  induction n as [|n IH]; intros tower.
  - simpl. repeat split; try reflexivity; lia.
  - cbn [Measure.upgrades].
    destruct (IH (fst (Tower.upgrade tower))) as (-> & -> & -> & -> & -> & ->).
    rewrite Nat2Z.inj_succ. unfold Tower.upgrade.
    cbn [fst Tower.level Tower.radius Tower.cost Tower.x Tower.y Tower.cls].
    repeat split; try reflexivity; lia.
Qed.

(** X4: what upgrades do in the long run.  For a tower whose damage is
    between 0 and 20000 and whose cooldown is at most 20000 in absolute
    value (where the binary64 products of the code are exact), an upgrade
    never lowers the damage and raises it whenever it is at least 2 (a
    damage of 0 or 1 never grows); it never leaves the cooldown below 10,
    never raises a cooldown of at least 10, lowers every cooldown above 12,
    and turns every cooldown of at most 12 into 10.  [n] upgrades, each of
    a tower whose damage is still at most 20000, add [n] levels and
    [20 * n] of range and keep cost, place and class. *)
Theorem upgrade_in_the_long_run (tower : Tower.t) (n : nat) :
  0 <= Tower.damage tower <= 20000 ->
  -20000 <= Tower.cooldown tower <= 20000 ->
  (forall k : nat,
      (k < n)%nat -> Tower.damage (Measure.upgrades k tower) <= 20000) ->
  let tower1 := fst (Tower.upgrade tower) in
  (Tower.damage tower <= Tower.damage tower1
   /\ (2 <= Tower.damage tower -> Tower.damage tower < Tower.damage tower1)
   /\ (Tower.damage tower <= 1 -> Tower.damage tower1 = Tower.damage tower))
  /\ (10 <= Tower.cooldown tower1
      /\ (10 <= Tower.cooldown tower ->
          Tower.cooldown tower1 <= Tower.cooldown tower)
      /\ (12 < Tower.cooldown tower ->
          Tower.cooldown tower1 < Tower.cooldown tower)
      /\ (Tower.cooldown tower <= 12 -> Tower.cooldown tower1 = 10))
  /\ (Tower.level (Measure.upgrades n tower) = Tower.level tower + Z.of_nat n
      /\ Tower.radius (Measure.upgrades n tower)
         = Tower.radius tower + 20 * Z.of_nat n
      /\ Tower.cost (Measure.upgrades n tower) = Tower.cost tower
      /\ Tower.x (Measure.upgrades n tower) = Tower.x tower
      /\ Tower.y (Measure.upgrades n tower) = Tower.y tower
      /\ Tower.cls (Measure.upgrades n tower) = Tower.cls tower).
Proof.
  intros Hd Hc _ tower1.
  destruct (upgrade_arithmetic_is_exact (Tower.damage tower) ltac:(lia))
    as (Hexact & _).
  destruct (upgrade_arithmetic_is_exact (Tower.cooldown tower) Hc)
    as (_ & Hexact').
  split; [| split; [| apply upgrades_fields]].
  - unfold tower1. simpl. rewrite Hexact.
    rewrite Z.quot_div_nonneg by lia.
    pose proof (Z.div_mod (Tower.damage tower * 3) 2 ltac:(lia)) as Hdm.
    pose proof (Z.mod_pos_bound (Tower.damage tower * 3) 2 ltac:(lia)) as Hb.
    repeat split; intros; lia.
  - unfold tower1. simpl. rewrite Hexact'.
    rewrite max_10_quot_div.
    pose proof (Z.div_mod (Tower.cooldown tower * 4) 5 ltac:(lia)) as Hdm.
    pose proof (Z.mod_pos_bound (Tower.cooldown tower * 4) 5 ltac:(lia)) as Hb.
    repeat split; intros; lia.
Qed.

Lemma upgrade_in_the_long_run_witness :
  0 <= Tower.damage (BasicTower 100 260) <= 20000
  /\ -20000 <= Tower.cooldown (BasicTower 100 260) <= 20000
  /\ (forall k : nat,
        (k < 6)%nat
        -> Tower.damage (Measure.upgrades k (BasicTower 100 260)) <= 20000)
  /\ Tower.level (Measure.upgrades 6 (BasicTower 100 260))
     = Tower.level (BasicTower 100 260) + Z.of_nat 6.
Proof.
  assert (Hk : forall k : nat,
             (k < 6)%nat
             -> Tower.damage (Measure.upgrades k (BasicTower 100 260))
                <= 20000).
  { intros k Hk.
    do 6 (destruct k as [|k]; [vm_compute; discriminate |]). lia. }
  split; [simpl; lia |]. split; [simpl; lia |]. split; [exact Hk |].
  apply (upgrade_in_the_long_run (BasicTower 100 260) 6);
    [simpl; lia | simpl; lia | exact Hk].
Defined.

(** ** get_grid_position *)

Lemma cell_centre (q : Z) :
  (q * 40 + 20) / 40 = q /\ (q * 40 + 20) mod 40 = 20.
Proof.
  assert (Hdiv : (q * 40 + 20) / 40 = q).
  { symmetry. apply (Z.div_unique_pos _ 40 q 20); lia. }
  split; [exact Hdiv |].
  pose proof (Z.div_mod (q * 40 + 20) 40 ltac:(lia)) as Hdm.
  rewrite Hdiv in Hdm. lia.
Qed.

(** X5: snapping to the grid.  The grid position of a point is the centre
    of the cell of 40 by 40 that holds the point: it is within 20 of the
    point on each axis (for negative coordinates as well), it is 20 modulo
    40 on each axis, and snapping it again returns it unchanged. *)
Theorem grid_position_is_cell_centre (x y : Z) :
  let grid_pos := get_grid_position (x, y) in
  (fst grid_pos - 20 <= x < fst grid_pos + 20
   /\ snd grid_pos - 20 <= y < snd grid_pos + 20)
  /\ (fst grid_pos mod 40 = 20 /\ snd grid_pos mod 40 = 20)
  /\ get_grid_position grid_pos = grid_pos.
Proof.
  unfold get_grid_position, GRID_SIZE. change (40 / 2) with 20.
  cbn [fst snd].
  pose proof (Z.div_mod x 40 ltac:(lia)) as Hx.
  pose proof (Z.mod_pos_bound x 40 ltac:(lia)) as Hxb.
  pose proof (Z.div_mod y 40 ltac:(lia)) as Hy.
  pose proof (Z.mod_pos_bound y 40 ltac:(lia)) as Hyb.
  destruct (cell_centre (x / 40)) as (Hqx & Hmx).
  destruct (cell_centre (y / 40)) as (Hqy & Hmy).
  split; [lia |]. split; [auto |].
  rewrite Hqx, Hqy. reflexivity.
Qed.

(** ** Enemy.update: what it keeps, and when it raises *)

Lemma not_at_end_next (e : Enemy.t) :
  Enemy.at_end e = false ->
  (S (Enemy.path_index e) < List.length (Enemy.path e))%nat.
Proof.
  unfold Enemy.at_end. intros H. apply Z.leb_gt in H. lia.
Qed.

(** X6: an enemy on its path.  [update] never changes the path, the speed,
    the health, the bounty or the identity of the enemy; the index never
    goes back, advances by at most one, and stays inside the path; an enemy
    whose index is at the end is left as it is.  The only exception
    [update] can raise is ZeroDivisionError, and only for an enemy whose
    speed is not positive; with a positive speed it always returns.  All
    this for an enemy whose coordinates and waypoints lie within [2^25] of
    the origin, far beyond the screen: there the squares neither overflow
    nor round, which the definition takes for granted. *)
Theorem enemy_update_keeps_course (e : Enemy.t) :
  Measure.moderate e = true ->
  (forall ex, Enemy.update e = Raise ex ->
     ex = ZeroDivisionError /\ Enemy.at_end e = false
     /\ (0 <? Enemy.speed e)%float = false)
  /\ (forall e' b, Enemy.update e = Ok (e', b) ->
        (Enemy.path e' = Enemy.path e /\ Enemy.speed e' = Enemy.speed e
         /\ Enemy.max_health e' = Enemy.max_health e
         /\ Enemy.health e' = Enemy.health e
         /\ Enemy.value e' = Enemy.value e /\ Enemy.eid e' = Enemy.eid e)
        /\ (Enemy.path_index e <= Enemy.path_index e'
            <= S (Enemy.path_index e))%nat
        /\ ((Enemy.path_index e < List.length (Enemy.path e))%nat ->
            (Enemy.path_index e' < List.length (Enemy.path e))%nat)
        /\ (Enemy.at_end e = true -> e' = e))
  /\ ((0 <? Enemy.speed e)%float = true ->
      exists e' b, Enemy.update e = Ok (e', b)).
Proof.
  intros _. split; [| split].
  - intros ex H. unfold Enemy.update in H.
    destruct (Enemy.at_end e) eqn:Hend; [discriminate H |].
    pose proof (not_at_end_next e Hend) as Hnext.
    destruct (nth_error (Enemy.path e) (S (Enemy.path_index e)))
      as [[tx ty]|] eqn:Hnth;
      [| apply nth_error_None in Hnth; lia].
    match type of H with
    | (if ?c then _ else _) = _ => destruct c eqn:Hlt
    end; [discriminate H |].
    match type of H with
    | (if ?c then _ else _) = _ => destruct c eqn:Hzero
    end; [| discriminate H].
    injection H as <-. repeat split.
    destruct (0 <? Enemy.speed e)%float eqn:Hpos; [| reflexivity].
    rewrite (eqb_zero_ltb _ _ Hzero Hpos) in Hlt. discriminate Hlt.
  - intros e' b H. apply enemy_update_inv in H.
    destruct H as [(Hend & -> & _)
                  | [(Hend & _ & tx & ty & Hnth & ->)
                    | (Hend & _ & px & py & ->)]];
      cbn [Enemy.set_position Enemy.path Enemy.speed Enemy.max_health
           Enemy.health Enemy.value Enemy.eid Enemy.path_index].
    + repeat split; auto.
    + pose proof (not_at_end_next e Hend).
      repeat split; auto; congruence.
    + repeat split; auto. congruence.
  - intros Hpos. unfold Enemy.update.
    destruct (Enemy.at_end e) eqn:Hend; [eauto |].
    pose proof (not_at_end_next e Hend) as Hnext.
    destruct (nth_error (Enemy.path e) (S (Enemy.path_index e)))
      as [[tx ty]|] eqn:Hnth;
      [| apply nth_error_None in Hnth; lia].
    match goal with
    | |- context [if ?c then _ else _] => destruct c eqn:Hlt
    end; [eauto |].
    match goal with
    | |- context [if ?c then _ else _] => destruct c eqn:Hzero
    end; [| eauto].
    rewrite (eqb_zero_ltb _ _ Hzero Hpos) in Hlt. discriminate Hlt.
Qed.

Lemma enemy_update_keeps_course_witness :
  Measure.moderate Examples.walker = true
  /\ (0 <? Enemy.speed Examples.walker)%float = true
  /\ exists e' b, Enemy.update Examples.walker = Ok (e', b).
Proof.
  split; [reflexivity |]. split; [reflexivity |].
  apply (enemy_update_keeps_course Examples.walker); reflexivity.
Defined.

(** ** A wave, from start to end *)

Lemma wave_run_app (n m : nat) : forall fresh path wm,
  Measure.wave_run (n + m) fresh path wm
  = ('(wm1, es1) <- Measure.wave_run n fresh path wm ;;
     '(wm2, es2) <- Measure.wave_run m (fresh + List.length es1) path wm1 ;;
     Ok (wm2, es1 ++ es2)%list).
Proof.
  induction n as [|n IH]; intros fresh path wm.
  - simpl. rewrite Nat.add_0_r.
    destruct (Measure.wave_run m fresh path wm) as [[wm2 es2]|ex];
      reflexivity.
  - cbn [Nat.add Measure.wave_run].
    destruct (WaveManager.update fresh wm path) as [[wm' [e|]]|ex];
      cbn [bind]; [| apply IH | reflexivity].
    rewrite IH.
    destruct (Measure.wave_run n (S fresh) path wm') as [[wm1 es1]|ex];
      cbn [bind]; [| reflexivity].
    cbn [List.length]. rewrite Nat.add_succ_r.
    change (S fresh + List.length es1)%nat
      with (S (fresh + List.length es1)).
    destruct (Measure.wave_run m (S (fresh + List.length es1)) path wm1)
      as [[wm2 es2]|ex]; reflexivity.
Qed.

Lemma wave_run_waiting (k : nat) : forall fresh path cw waves timer idx d,
  timer + Z.of_nat k < d ->
  Measure.wave_run k fresh path (WaveManager.mk cw waves timer idx true d)
  = Ok (WaveManager.mk cw waves (timer + Z.of_nat k) idx true d, []).
Proof.
  induction k as [|k IH]; intros fresh path cw waves timer idx d Hlt.
  - simpl. rewrite Z.add_0_r. reflexivity.
  - cbn [Measure.wave_run]. unfold WaveManager.update.
    cbn [WaveManager.active WaveManager.spawn_timer WaveManager.spawn_delay
         WaveManager.current_wave WaveManager.waves WaveManager.enemy_index
         negb].
    destruct (Z.leb_spec d (timer + 1)) as [Hge|_]; [lia |].
    cbn [bind]. rewrite IH by lia. do 3 f_equal. lia.
Qed.

(** One spawn period: [spawn_delay] calls from a timer at 0. *)
Lemma wave_run_period (fresh : nat) (path : list (Z * Z)) (cw : nat)
    (waves : list (list string)) (idx : nat) (d : Z) (wave : list string) :
  1 <= d ->
  nth_error waves cw = Some wave ->
  Measure.wave_run (Z.to_nat d) fresh path
    (WaveManager.mk cw waves 0 idx true d)
  = match nth_error wave idx with
    | Some enemy_type =>
        enemy <- EnemyFactory.create_enemy fresh enemy_type path ;;
        Ok (WaveManager.mk cw waves 0 (S idx) true d, [enemy])
    | None => Ok (WaveManager.mk (S cw) waves 0 idx false d, [])
    end.
Proof.
  intros Hd Hwave.
  replace (Z.to_nat d) with (Z.to_nat (d - 1) + 1)%nat by lia.
  rewrite wave_run_app, wave_run_waiting by lia. cbn [bind List.length].
  rewrite Nat.add_0_r. cbn [Measure.wave_run]. unfold WaveManager.update.
  cbn [WaveManager.active WaveManager.spawn_timer WaveManager.spawn_delay
       WaveManager.current_wave WaveManager.waves WaveManager.enemy_index
       negb].
  destruct (Z.leb_spec d (0 + Z.of_nat (Z.to_nat (d - 1)) + 1)) as [_|Hlt];
    [| lia].
  rewrite Hwave.
  destruct (nth_error wave idx) as [ty|] eqn:Hnth.
  - assert (Hidx : (idx < List.length wave)%nat)
      by (apply nth_error_Some; congruence).
    destruct (Nat.ltb_spec idx (List.length wave)) as [_|Hge]; [| lia].
    destruct (EnemyFactory.create_enemy fresh ty path) as [e|ex];
      reflexivity.
  - apply nth_error_None in Hnth.
    destruct (Nat.ltb_spec idx (List.length wave)) as [Hlt|_]; [lia |].
    destruct (Nat.leb_spec (List.length wave) idx) as [_|Hlt]; [| lia].
    reflexivity.
Qed.

Lemma skipn_nth_error {A : Type} (l : list A) : forall i a,
  nth_error l i = Some a -> skipn i l = a :: skipn (S i) l.
Proof.
  induction l as [|b l IH]; intros i a H; [destruct i; discriminate H |].
  destruct i as [|i]; simpl in *.
  - injection H as ->. reflexivity.
  - apply IH. exact H.
Qed.

Lemma wave_run_spawns (k : nat) :
  forall fresh path cw waves idx d wave,
    1 <= d ->
    nth_error waves cw = Some wave ->
    (idx + k <= List.length wave)%nat ->
    Measure.wave_run (k * Z.to_nat d) fresh path
      (WaveManager.mk cw waves 0 idx true d)
    = (enemies <- Measure.recruits fresh path (firstn k (skipn idx wave)) ;;
       Ok (WaveManager.mk cw waves 0 (idx + k) true d, enemies)).
Proof.
  induction k as [|k IH]; intros fresh path cw waves idx d wave Hd Hwave Hk.
  - simpl. rewrite Nat.add_0_r. reflexivity.
  - cbn [Nat.mul]. rewrite wave_run_app.
    rewrite (wave_run_period fresh path cw waves idx d wave Hd Hwave).
    destruct (nth_error wave idx) as [ty|] eqn:Hnth;
      [| apply nth_error_None in Hnth; lia].
    rewrite (skipn_nth_error _ _ _ Hnth). cbn [firstn Measure.recruits].
    destruct (EnemyFactory.create_enemy fresh ty path) as [e|ex];
      cbn [bind]; [| reflexivity].
    cbn [List.length]. rewrite Nat.add_1_r.
    rewrite (IH (S fresh) path cw waves (S idx) d wave Hd Hwave) by lia.
    destruct (Measure.recruits (S fresh) path (firstn k (skipn (S idx) wave)))
      as [es|ex]; cbn [bind]; [| reflexivity].
    rewrite Nat.add_succ_r. reflexivity.
Qed.

(** X7: a wave from start to end.  After [start_wave] has started a wave of
    [n] kinds, every [spawn_delay] calls of [update] return one enemy: after
    [k] periods ([k <= n]) exactly the first [k] kinds have been made, in the
    order of the wave, each by [EnemyFactory.create_enemy], and the manager
    is still active; one more period after the last enemy closes the wave
    (inactive, wave index advanced by one) without making an enemy.  A kind
    the factory rejects raises at its turn. *)
Theorem wave_spawns_in_order
    (wm0 wm : WaveManager.t) (wave : list string) (fresh : nat)
    (path : list (Z * Z)) (k : nat) :
  WaveManager.start_wave wm0 = (wm, true) ->
  nth_error (WaveManager.waves wm0) (WaveManager.current_wave wm0)
  = Some wave ->
  1 <= WaveManager.spawn_delay wm0 ->
  (k <= List.length wave)%nat ->
  let period := Z.to_nat (WaveManager.spawn_delay wm0) in
  Measure.wave_run (k * period) fresh path wm
  = (enemies <- Measure.recruits fresh path (firstn k wave) ;;
     Ok (WaveManager.mk (WaveManager.current_wave wm0) (WaveManager.waves wm0)
           0 k true (WaveManager.spawn_delay wm0),
         enemies))
  /\ Measure.wave_run (S (List.length wave) * period) fresh path wm
     = (enemies <- Measure.recruits fresh path wave ;;
        Ok (WaveManager.mk (S (WaveManager.current_wave wm0))
              (WaveManager.waves wm0) 0 (List.length wave) false
              (WaveManager.spawn_delay wm0),
            enemies)).
Proof.
  intros Hstart Hwave Hd Hk period. subst period.
  unfold WaveManager.start_wave in Hstart.
  destruct (WaveManager.current_wave wm0 <? List.length (WaveManager.waves wm0))%nat;
    [| discriminate Hstart].
  injection Hstart as <-.
  split.
  - rewrite (wave_run_spawns k fresh path _ _ 0 _ wave Hd Hwave) by lia.
    reflexivity.
  - replace (S (List.length wave)
             * Z.to_nat (WaveManager.spawn_delay wm0))%nat
      with (List.length wave * Z.to_nat (WaveManager.spawn_delay wm0)
            + Z.to_nat (WaveManager.spawn_delay wm0))%nat by lia.
    rewrite wave_run_app.
    rewrite (wave_run_spawns (List.length wave) fresh path _ _ 0 _ wave
               Hd Hwave) by lia.
    cbn [skipn Nat.add]. rewrite firstn_all.
    destruct (Measure.recruits fresh path wave) as [es|ex]; cbn [bind];
      [| reflexivity].
    rewrite (wave_run_period _ path _ _ (List.length wave) _ wave Hd Hwave).
    replace (nth_error wave (List.length wave)) with (@None string)
      by (symmetry; apply nth_error_None; lia).
    cbn [bind]. rewrite app_nil_r. reflexivity.
Qed.

Lemma wave_spawns_in_order_witness :
  WaveManager.start_wave MoreExamples.two_in_a_wave
  = (WaveManager.mk 0 [["basic"; "fast"]] 0 0 true 60, true)
  /\ Measure.wave_run (3 * 60) 7 Examples.game_path
       (WaveManager.mk 0 [["basic"; "fast"]] 0 0 true 60)
     = (enemies <- Measure.recruits 7 Examples.game_path ["basic"; "fast"] ;;
        Ok (WaveManager.mk 1 [["basic"; "fast"]] 0 2 false 60, enemies)).
Proof.
  split; [reflexivity |].
  apply (wave_spawns_in_order MoreExamples.two_in_a_wave
           (WaveManager.mk 0 [["basic"; "fast"]] 0 0 true 60)
           ["basic"; "fast"] 7 Examples.game_path 2);
    [reflexivity | reflexivity | simpl; lia | simpl; lia].
Defined.

(** ** QUIT *)

(** X8: a QUIT event ends the batch.  The events before it are handled, the
    events after it are dropped, the tower being dragged is not moved to
    the mouse, and [process_events] returns [False]. *)
Theorem quit_ends_the_batch
    (before after : list pygame.event) (mouse_pos : Z * Z)
    (g : TowerDefenseGame.t) :
  process_events (before ++ pygame.QUIT :: after) mouse_pos g
  = ('(g', _) <- event_loop before mouse_pos g ;; Ok (g', false)).
Proof.
  unfold process_events.
  assert (Hloop : forall g0,
             event_loop (before ++ pygame.QUIT :: after) mouse_pos g0
             = ('(g', _) <- event_loop before mouse_pos g0 ;; Ok (g', false))).
  { induction before as [|ev before IH]; intros g0; [reflexivity |].
    destruct ev as [|k|button|]; cbn [app event_loop].
    - reflexivity.
    - apply IH.
    - destruct (button =? 1); [| apply IH].
      destruct (truthy (selected_tower_type g0)); [| apply IH].
      destruct (place_tower mouse_pos g0) as [[g1 ok]|ex]; cbn [bind];
        [apply IH | reflexivity].
    - apply IH. }
  rewrite Hloop.
  destruct (event_loop before mouse_pos g) as [[g' c]|ex]; reflexivity.
Qed.

(** ** What holds in every state of a game *)

Import Sound.

(** *** The user-interface references *)

Lemma set_xy_same (tw : Tower.t) : Tower.set_xy (Tower.x tw) (Tower.y tw) tw = tw.
Proof. destruct tw; reflexivity. Qed.

Lemma ui_ok_select_tower_type (tower_type : string) (g : TowerDefenseGame.t) :
  ui_ok (select_tower_type tower_type g).
Proof.
  unfold ui_ok, select_tower_type.
  destruct (dict_get tower_type (tower_prototypes g)) as [proto|ex] eqn:Hget;
    simpl; [| exact I].
  split; [| reflexivity].
  exists proto, (Tower.x proto), (Tower.y proto).
  split; [exact Hget | symmetry; apply set_xy_same].
Qed.

Lemma ui_ok_place_tower (g g' : TowerDefenseGame.t) (pos : Z * Z) (ok : bool) :
  ui_ok g -> place_tower pos g = Ok (g', ok) -> ui_ok g'.
Proof.
  intros Hui H. apply place_tower_inv in H.
  destruct H as [(_ & ->) | (_ & ty & proto & _ & _ & _ & _ & ->)];
    exact Hui.
Qed.

Lemma ui_ok_select_tower (pos : Z * Z) (g : TowerDefenseGame.t) :
  ui_ok g -> ui_ok (fst (select_tower pos g)).
Proof.
  unfold ui_ok, select_tower. intros Hui.
  destruct (tower_at pos (towers g) 0); simpl; [exact I |].
  destruct (selected_tower_type g), (dragging_tower g); try exact Hui.
  split; [apply Hui | reflexivity].
Qed.

Lemma ui_ok_upgrade (g : TowerDefenseGame.t) :
  ui_ok g -> ui_ok (fst (upgrade_selected_tower g)).
Proof.
  unfold upgrade_selected_tower. intros Hui.
  destruct (selected g) as [[i tw]|]; [| exact Hui].
  destruct (Tower.cost tw / 2 <=? money g); exact Hui.
Qed.

Lemma ui_ok_sell (g : TowerDefenseGame.t) :
  ui_ok g -> ui_ok (fst (sell_selected_tower g)).
Proof.
  unfold sell_selected_tower. intros Hui.
  destruct (selected g) as [[i tw]|]; [| exact Hui].
  unfold ui_ok in *. simpl.
  destruct (selected_tower_type g), (dragging_tower g); try exact Hui.
  split; [apply Hui | reflexivity].
Qed.

Lemma ui_ok_start_wave (g : TowerDefenseGame.t) :
  ui_ok g -> ui_ok (fst (start_wave g)).
Proof.
  unfold start_wave. intros Hui.
  destruct (negb (WaveManager.active (wave_manager g))); [| exact Hui].
  destruct (WaveManager.start_wave (wave_manager g)); exact Hui.
Qed.

(** *** The wave manager *)

Lemma init_waves_known :
  Forall (Forall (fun ty => known ty = true))
         (WaveManager.waves (wave_manager init)).
Proof.
  assert (H : forallb (forallb known) (WaveManager.waves (wave_manager init))
              = true) by (vm_compute; reflexivity).
  rewrite forallb_forall in H. apply Forall_forall. intros wave Hwave.
  specialize (H wave Hwave). rewrite forallb_forall in H.
  apply Forall_forall. exact H.
Qed.

Lemma wave_ok_init : wave_ok (wave_manager init).
Proof.
  unfold wave_ok. simpl. repeat split; try lia; try discriminate.
Qed.

Lemma wave_ok_start_wave (wm : WaveManager.t) :
  wave_ok wm -> wave_ok (fst (WaveManager.start_wave wm)).
Proof.
  intros (Hw & Hd & Ht & Hc & Ha). unfold WaveManager.start_wave.
  destruct (Nat.ltb_spec (WaveManager.current_wave wm)
              (List.length (WaveManager.waves wm))) as [Hlt|_];
    [| simpl; unfold wave_ok; tauto].
  unfold wave_ok. simpl. repeat split; try assumption; try lia.
  intros _.
  destruct (nth_error (WaveManager.waves wm) (WaveManager.current_wave wm))
    as [wave|] eqn:Hnth; [| apply nth_error_None in Hnth; lia].
  exists wave. split; [reflexivity | lia].
Qed.

Lemma wave_ok_update (fresh : nat) (path : list (Z * Z))
    (wm wm' : WaveManager.t) (o : option Enemy.t) :
  wave_ok wm -> WaveManager.update fresh wm path = Ok (wm', o) -> wave_ok wm'.
Proof.
  intros (Hw & Hd & Ht & Hc & Ha) H. unfold WaveManager.update in H.
  destruct (WaveManager.active wm) eqn:Hact; simpl in H;
    [| injection H as <- _; unfold wave_ok; rewrite Hact;
       repeat split; try tauto; try lia; try discriminate].
  destruct (Ha eq_refl) as (wave & Hwave & Hidx).
  assert (Hlt5 : (WaveManager.current_wave wm < 5)%nat).
  { assert (Hl : (WaveManager.current_wave wm
                  < List.length (WaveManager.waves wm))%nat)
      by (apply nth_error_Some; congruence).
    rewrite Hw in Hl. exact Hl. }
  rewrite Hwave in H.
  destruct (Z.leb_spec (WaveManager.spawn_delay wm)
              (WaveManager.spawn_timer wm + 1)) as [Hge|Hlt].
  - destruct (Nat.ltb_spec (WaveManager.enemy_index wm) (List.length wave))
      as [Hin|Hout].
    + destruct (nth_error wave (WaveManager.enemy_index wm)) as [ty|];
        [| discriminate H].
      apply bind_Ok_inv in H. destruct H as (e & _ & H). injection H as <- _.
      unfold wave_ok. simpl. repeat split; try assumption; try lia.
      intros _. exists wave. split; [exact Hwave | lia].
    + destruct (Nat.leb_spec (List.length wave) (WaveManager.enemy_index wm))
        as [_|Hlt']; [| lia].
      injection H as <- _. unfold wave_ok. simpl.
      repeat split; try assumption; try lia; try discriminate.
  - injection H as <- _. unfold wave_ok. simpl.
    repeat split; try assumption; try lia.
Qed.

(** Under [wave_ok], on a path that is not empty, [update] returns. *)
Lemma wave_update_returns (fresh : nat) (path : list (Z * Z))
    (wm : WaveManager.t) :
  wave_ok wm -> path <> [] ->
  exists wm' o, WaveManager.update fresh wm path = Ok (wm', o).
Proof.
  intros (Hw & Hd & Ht & Hc & Ha) Hpath. unfold WaveManager.update.
  destruct (WaveManager.active wm) eqn:Hact; simpl; [| eauto].
  destruct (Ha eq_refl) as (wave & Hwave & Hidx). rewrite Hwave.
  destruct (WaveManager.spawn_delay wm <=? WaveManager.spawn_timer wm + 1);
    [| eauto].
  destruct (Nat.ltb_spec (WaveManager.enemy_index wm) (List.length wave))
    as [Hin|Hout].
  - destruct (nth_error wave (WaveManager.enemy_index wm)) as [ty|] eqn:Hty;
      [| apply nth_error_None in Hty; lia].
    assert (Hknown : known ty = true).
    { pose proof init_waves_known as Hall. rewrite <- Hw in Hall.
      rewrite Forall_forall in Hall.
      specialize (Hall wave (nth_error_In _ _ Hwave)).
      rewrite Forall_forall in Hall. apply Hall.
      eapply nth_error_In. exact Hty. }
    unfold known in Hknown. unfold EnemyFactory.create_enemy, Enemy.init.
    destruct path as [|[px py] rest]; [congruence |].
    destruct (String.eqb ty "basic"); [simpl; eauto |].
    destruct (String.eqb ty "fast"); [simpl; eauto |].
    destruct (String.eqb ty "tank"); [simpl; eauto | discriminate Hknown].
  - destruct (Nat.leb_spec (List.length wave) (WaveManager.enemy_index wm));
      eauto.
Qed.

(** *** The enemies *)

Lemma create_enemy_ok (fresh : nat) (enemy_type : string) (e : Enemy.t) :
  EnemyFactory.create_enemy fresh enemy_type (path init) = Ok e -> enemy_ok e.
Proof.
  unfold EnemyFactory.create_enemy, Enemy.init, enemy_ok, kind_ok.
  cbn [path init].
  repeat match goal with
         | |- context [String.eqb ?a ?b] => destruct (String.eqb a b)
         end;
    intros H; try discriminate H; injection H as <-; simpl;
    repeat split; try lia; auto 10.
Qed.

Lemma wave_update_enemy_ok (fresh : nat) (wm wm' : WaveManager.t)
    (e : Enemy.t) :
  WaveManager.update fresh wm (path init) = Ok (wm', Some e) -> enemy_ok e.
Proof.
  unfold WaveManager.update. intros H.
  destruct (negb (WaveManager.active wm)); [discriminate H |].
  destruct (WaveManager.spawn_delay wm <=? WaveManager.spawn_timer wm + 1);
    [| discriminate H].
  destruct (nth_error (WaveManager.waves wm) (WaveManager.current_wave wm))
    as [wave|]; [| discriminate H].
  destruct (WaveManager.enemy_index wm <? List.length wave)%nat.
  - destruct (nth_error wave (WaveManager.enemy_index wm)) as [ty|];
      [| discriminate H].
    apply bind_Ok_inv in H. destruct H as (e' & Hcreate & H).
    injection H as _ <-. eapply create_enemy_ok. exact Hcreate.
  - destruct (List.length wave <=? WaveManager.enemy_index wm)%nat;
      discriminate H.
Qed.

Lemma enemy_update_ok (e e' : Enemy.t) (b : bool) :
  enemy_ok e -> Enemy.update e = Ok (e', b) -> enemy_ok e'.
Proof.
  intros (Hpath & Hkind & Hhealth & Hidx) H. apply enemy_update_inv in H.
  destruct H as [(Hend & -> & _)
                | [(Hend & _ & tx & ty & Hnth & ->)
                  | (Hend & _ & px & py & ->)]].
  - repeat split; assumption.
  - apply not_at_end_next in Hend. rewrite Hpath in Hend. simpl in Hend.
    unfold enemy_ok, kind_ok. simpl. repeat split; try assumption. lia.
  - unfold enemy_ok, kind_ok. simpl. repeat split; assumption.
Qed.

Lemma kind_speed_positive (e : Enemy.t) :
  kind_ok e -> (0 <? Enemy.speed e)%float = true.
Proof.
  intros [(-> & _) | [(-> & _) | (-> & _)]]; reflexivity.
Qed.

Lemma enemy_update_returns (e : Enemy.t) :
  (0 <? Enemy.speed e)%float = true ->
  exists e' b, Enemy.update e = Ok (e', b).
Proof.
  intros Hpos. unfold Enemy.update.
  destruct (Enemy.at_end e) eqn:Hend; [eauto |].
  pose proof (not_at_end_next e Hend) as Hnext.
  destruct (nth_error (Enemy.path e) (S (Enemy.path_index e)))
    as [[tx ty]|] eqn:Hnth;
    [| apply nth_error_None in Hnth; lia].
  match goal with
  | |- context [if ?c then _ else _] => destruct c eqn:Hlt
  end; [eauto |].
  match goal with
  | |- context [if ?c then _ else _] => destruct c eqn:Hzero
  end; [| eauto].
  rewrite (eqb_zero_ltb _ _ Hzero Hpos) in Hlt. discriminate Hlt.
Qed.

Lemma update_enemies_ok (es : list Enemy.t) : forall es' acc acc',
  Forall enemy_ok es ->
  update_enemies es acc = Ok (es', acc') ->
  Forall enemy_ok es'.
Proof.
  induction es as [|e es IH]; intros es' acc acc' Hes H; simpl in H.
  - injection H as <- _. constructor.
  - apply bind_Ok_inv in H. destruct H as ([e1 acc1] & Hone & H).
    apply bind_Ok_inv in H. destruct H as ([es1 acc2] & Hrest & H).
    injection H as <- _. inversion Hes as [|? ? He Hes']; subst.
    constructor; [| eapply IH; eassumption].
    unfold update_enemy in Hone. apply bind_Ok_inv in Hone.
    destruct Hone as ([e2 b] & Hupd & Hone).
    assert (e1 = e2) as ->.
    { destruct b; [| destruct (negb (Enemy.is_alive e2))];
        injection Hone as <- _; reflexivity. }
    eapply enemy_update_ok; eassumption.
Qed.

Lemma update_enemies_returns (es : list Enemy.t) : forall acc,
  Forall enemy_ok es ->
  exists es' acc', update_enemies es acc = Ok (es', acc').
Proof.
  induction es as [|e es IH]; intros acc Hes; [simpl; eauto |].
  inversion Hes as [|? ? He Hes']; subst.
  destruct He as (_ & Hkind & _).
  destruct (enemy_update_returns e (kind_speed_positive e Hkind))
    as (e' & b & Hupd).
  cbn [update_enemies]. unfold update_enemy. rewrite Hupd. cbn [bind].
  destruct b; [| destruct (negb (Enemy.is_alive e'))]; cbn [bind];
    match goal with
    | |- context [update_enemies es ?a] =>
        destruct (IH a Hes') as (es' & acc' & ->)
    end; cbn [bind]; eauto.
Qed.

Lemma tower_attack_touched (tower : Tower.t) (enemies : list Enemy.t) :
  Forall2 (Measure.touched tower) enemies
          (snd (fst (tower_attack tower enemies))).
Proof.
  unfold tower_attack, Tower.attack, BomberTower.attack.
  destruct (Tower.cls tower);
    destruct (negb (Tower.can_attack tower)); cbn [fst snd];
    try apply Forall2_touched_refl.
  1, 2:
    destruct (Tower.find_target tower enemies) as [[i e]|] eqn:Hfind;
    cbn [fst snd]; [| apply Forall2_touched_refl];
    destruct (find_target_in_list _ _ _ _ Hfind) as (Hi & Hin);
    apply (list_update_touched tower enemies i e Hi Hin).
  destruct (filter (Tower.in_range tower) enemies); cbn [fst snd];
    [apply Forall2_touched_refl | apply map_touched].
Qed.

Lemma touched_enemy_ok (tower : Tower.t) (e e' : Enemy.t) :
  0 <= Tower.damage tower ->
  Measure.touched tower e e' -> enemy_ok e -> enemy_ok e'.
Proof.
  intros Hd [-> | (_ & ->)] Hok; [exact Hok |].
  destruct Hok as (Hpath & Hkind & Hhealth & Hidx).
  unfold enemy_ok, kind_ok. simpl. repeat split; try assumption. lia.
Qed.

Lemma attack_all_enemy_ok (tws : list Tower.t) : forall es tws' es',
  Forall placed_ok tws ->
  Forall enemy_ok es ->
  attack_all tws es = (tws', es') ->
  Forall enemy_ok es'.
Proof.
  induction tws as [|tw tws IH]; intros es tws' es' Htws Hes H; simpl in H.
  - injection H as _ <-. exact Hes.
  - pose proof (tower_attack_touched tw es) as Htouched.
    destruct (tower_attack tw es) as [[tw1 es1] d] eqn:Hatt.
    destruct (attack_all tws es1) as [tws2 es2] eqn:Hall.
    injection H as _ <-. inversion Htws as [|? ? Hok Hrest]; subst.
    eapply IH; [exact Hrest | | exact Hall].
    cbn [fst snd] in Htouched. clear Hall Hatt IH.
    induction Htouched as [|a b l l' Hab _ IHl]; [constructor |].
    inversion Hes; subst. constructor; [| apply IHl; assumption].
    eapply touched_enemy_ok; [| exact Hab | assumption].
    exact (proj2 (proj1 Hok)).
Qed.

(** *** The spacing of the towers *)

Lemma distance2_sym (p q : Z * Z) : Reach.distance2 p q = Reach.distance2 q p.
Proof. unfold Reach.distance2. lia. Qed.

Lemma apart_snoc (tws : list Tower.t) (new : Tower.t) :
  apart tws ->
  Forall (fun tw => 40 ^ 2 <= Reach.distance2 (position tw) (position new))
         tws ->
  apart (tws ++ [new]).
Proof.
  induction tws as [|tw tws IH]; intros Hap Hnew; simpl.
  - split; [constructor | exact I].
  - destruct Hap as (Htw & Hrest). inversion Hnew; subst.
    split; [| apply IH; assumption].
    apply Forall_app. split; [exact Htw |]. constructor; [assumption |].
    constructor.
Qed.

Lemma apart_delete (tws : list Tower.t) : forall i,
  apart tws -> apart (list_delete i tws).
Proof.
  induction tws as [|tw tws IH]; intros i Hap; [destruct i; exact I |].
  destruct Hap as (Htw & Hrest). destruct i; simpl; [exact Hrest |].
  split; [apply Forall_list_delete; exact Htw | apply IH; exact Hrest].
Qed.

Lemma apart_positions (l : list Tower.t) : forall l',
  map position l' = map position l -> apart l -> apart l'.
Proof.
  induction l as [|a l IH]; intros l' Hmap Hap.
  - destruct l'; [exact I | discriminate Hmap].
  - destruct l' as [|a' l']; [discriminate Hmap |].
    pose proof (f_equal (@hd _ (0, 0)) Hmap) as Ha.
    pose proof (f_equal (@tl _) Hmap) as Hl. cbn [hd tl map] in Ha, Hl.
    destruct Hap as (Hfar & Hrest).
    split; [| apply IH; assumption].
    rewrite Ha. clear IH Hrest Ha Hmap.
    revert l' Hl. induction Hfar as [|b l Hb _ IHf]; intros l' Hl.
    + destruct l'; [constructor | discriminate Hl].
    + destruct l' as [|b' l']; [discriminate Hl |].
      pose proof (f_equal (@hd _ (0, 0)) Hl) as Hb'.
      pose proof (f_equal (@tl _) Hl) as Hl'. cbn [hd tl map] in Hb', Hl'.
      constructor; [rewrite Hb'; exact Hb | apply IHf; exact Hl'].
Qed.

Lemma Forall_positions (P : Z * Z -> Prop) (l : list Tower.t) : forall l',
  map position l' = map position l ->
  Forall (fun tw => P (position tw)) l -> Forall (fun tw => P (position tw)) l'.
Proof.
  induction l as [|a l IH]; intros l' Hmap Hall.
  - destruct l'; [constructor | discriminate Hmap].
  - destruct l' as [|a' l']; [discriminate Hmap |].
    pose proof (f_equal (@hd _ (0, 0)) Hmap) as Ha.
    pose proof (f_equal (@tl _) Hmap) as Hl. cbn [hd tl map] in Ha, Hl.
    inversion Hall; subst.
    constructor; [rewrite Ha; assumption | apply IH; assumption].
Qed.

Lemma spaced_positions (g g' : TowerDefenseGame.t) :
  path g' = path g ->
  map position (towers g') = map position (towers g) ->
  spaced g -> spaced g'.
Proof.
  intros Hpath Hmap (Hfar & Hap). split.
  - rewrite Hpath.
    apply (Forall_positions
             (fun p => forall point, In point (path g) ->
                         30 ^ 2 <= Reach.distance2 p point)
             (towers g) (towers g') Hmap Hfar).
  - eapply apart_positions; eassumption.
Qed.

Lemma list_update_positions (f : Tower.t -> Tower.t) (l : list Tower.t) :
  (forall tw, position (f tw) = position tw) ->
  forall i, map position (list_update i f l) = map position l.
Proof.
  intros Hf. induction l as [|a l IH]; intros i; [destruct i; reflexivity |].
  destruct i; simpl; [rewrite Hf | rewrite IH]; reflexivity.
Qed.

Lemma attack_all_positions (tws : list Tower.t) : forall es tws' es',
  attack_all tws es = (tws', es') -> map position tws' = map position tws.
Proof.
  induction tws as [|tw tws IH]; intros es tws' es' H; simpl in H.
  - injection H as <- _. reflexivity.
  - destruct (tower_attack tw es) as [[tw1 es1] d] eqn:Hatt.
    destruct (attack_all tws es1) as [tws2 es2] eqn:Hall.
    injection H as <- _. simpl.
    destruct (tower_attack_cost _ _ _ _ _ Hatt) as (_ & Hx & Hy).
    rewrite (IH _ _ _ Hall). unfold position. rewrite Hx, Hy. reflexivity.
Qed.

Lemma spaced_place_tower (g g' : TowerDefenseGame.t) (pos : Z * Z) (ok : bool) :
  Reach.invariant g -> spaced g ->
  place_tower pos g = Ok (g', ok) -> spaced g'.
Proof.
  intros (_ & _ & Hgp & Hplaced & _) Hsp H. apply place_tower_inv in H.
  destruct H as [(_ & ->) | (_ & ty & proto & _ & _ & Hvalid & _ & ->)];
    [exact Hsp |].
  destruct Hsp as (Hfar & Hap).
  apply is_position_valid_inv in Hvalid.
  destruct Hvalid as (Hscreen & Hpath & Htowers).
  rewrite forallb_forall in Hpath, Htowers.
  pose proof (grid_position_on_grid pos Hscreen) as Hcell.
  rewrite Forall_forall in Hplaced.
  unfold spaced. cbn [set_money set_economy set_towers towers path].
  split.
  - apply Forall_app. split; [exact Hfar |].
    constructor; [| constructor]. intros point Hpoint.
    unfold position. cbn [Tower.set_xy Tower.x Tower.y Tower.clone].
    rewrite <- surjective_pairing.
    specialize (Hpath point Hpoint). rewrite Hgp in Hpoint.
    rewrite (far_from_path_exact _ _ Hcell Hpoint) in Hpath.
    apply Z.leb_le in Hpath. exact Hpath.
  - apply apart_snoc; [exact Hap |].
    apply Forall_forall. intros tw Htw.
    unfold position at 2. cbn [Tower.set_xy Tower.x Tower.y Tower.clone].
    rewrite <- surjective_pairing. rewrite distance2_sym.
    specialize (Htowers tw Htw).
    rewrite (far_from_tower_exact _ _ Hcell (proj2 (Hplaced tw Htw)))
      in Htowers.
    apply Z.leb_le in Htowers. exact Htowers.
Qed.

Lemma spaced_upgrade (g : TowerDefenseGame.t) :
  spaced g -> spaced (fst (upgrade_selected_tower g)).
Proof.
  intros Hsp. unfold upgrade_selected_tower.
  destruct (selected g) as [[i tw]|]; [| exact Hsp].
  destruct (Tower.cost tw / 2 <=? money g); [| exact Hsp].
  eapply spaced_positions; [| | exact Hsp]; [reflexivity |].
  cbn [fst set_money set_economy set_towers towers].
  apply list_update_positions. intros tw'. reflexivity.
Qed.

Lemma spaced_sell (g : TowerDefenseGame.t) :
  spaced g -> spaced (fst (sell_selected_tower g)).
Proof.
  intros (Hfar & Hap). unfold sell_selected_tower.
  destruct (selected g) as [[i tw]|]; [| split; assumption].
  split; cbn [fst set_selection set_towers set_money set_economy towers path].
  - apply Forall_list_delete. exact Hfar.
  - apply apart_delete. exact Hap.
Qed.

(** *** The commands keep a state sound *)

Lemma sound_init : sound init.
Proof.
  split; [exact I |]. split; [exact wave_ok_init |].
  split; [constructor |]. split.
  - unfold state_ok. simpl. repeat split; try discriminate; lia.
  - split; [constructor | exact I].
Qed.

Lemma sound_select_tower_type (tower_type : string) (g : TowerDefenseGame.t) :
  sound g -> sound (select_tower_type tower_type g).
Proof.
  intros (Hui & Hwm & Hen & Hst & Hsp).
  split; [apply ui_ok_select_tower_type |].
  unfold select_tower_type.
  destruct (dict_get tower_type (tower_prototypes g));
    (split; [exact Hwm | split; [exact Hen | split; [exact Hst | exact Hsp]]]).
Qed.

Lemma sound_place_tower (g g' : TowerDefenseGame.t) (pos : Z * Z) (ok : bool) :
  Reach.invariant g -> sound g -> place_tower pos g = Ok (g', ok) -> sound g'.
Proof.
  intros Hinv (Hui & Hwm & Hen & Hst & Hsp) H.
  split; [eapply ui_ok_place_tower; eassumption |].
  pose proof (spaced_place_tower _ _ _ _ Hinv Hsp H) as Hsp'.
  apply place_tower_inv in H.
  destruct H as [(_ & ->) | (_ & ty & proto & _ & _ & _ & _ & ->)];
    (split; [exact Hwm | split; [exact Hen | split; [exact Hst | exact Hsp']]]).
Qed.

Lemma sound_select_tower (pos : Z * Z) (g : TowerDefenseGame.t) :
  sound g -> sound (fst (select_tower pos g)).
Proof.
  intros (Hui & Hwm & Hen & Hst & Hsp).
  split; [apply ui_ok_select_tower; exact Hui |].
  unfold select_tower.
  destruct (tower_at pos (towers g) 0);
    (split; [exact Hwm | split; [exact Hen | split; [exact Hst | exact Hsp]]]).
Qed.

Lemma sound_upgrade (g : TowerDefenseGame.t) :
  sound g -> sound (fst (upgrade_selected_tower g)).
Proof.
  intros (Hui & Hwm & Hen & Hst & Hsp).
  split; [apply ui_ok_upgrade; exact Hui |].
  pose proof (spaced_upgrade g Hsp) as Hsp'. revert Hsp'.
  unfold upgrade_selected_tower.
  destruct (selected g) as [[i tw]|];
    [destruct (Tower.cost tw / 2 <=? money g) |];
    intros Hsp';
    (split; [exact Hwm | split; [exact Hen | split; [exact Hst | exact Hsp']]]).
Qed.

Lemma sound_sell (g : TowerDefenseGame.t) :
  sound g -> sound (fst (sell_selected_tower g)).
Proof.
  intros (Hui & Hwm & Hen & Hst & Hsp).
  split; [apply ui_ok_sell; exact Hui |].
  pose proof (spaced_sell g Hsp) as Hsp'. revert Hsp'.
  unfold sell_selected_tower.
  destruct (selected g) as [[i tw]|]; intros Hsp';
    (split; [exact Hwm | split; [exact Hen | split; [exact Hst | exact Hsp']]]).
Qed.

Lemma start_wave_finished (wm : WaveManager.t) :
  WaveManager.is_finished wm = true -> fst (WaveManager.start_wave wm) = wm.
Proof.
  unfold WaveManager.is_finished, WaveManager.start_wave. intros H.
  apply andb_prop in H. destruct H as (H & _). apply Nat.leb_le in H.
  destruct (Nat.ltb_spec (WaveManager.current_wave wm)
              (List.length (WaveManager.waves wm))) as [Hlt|_];
    [lia | reflexivity].
Qed.

Lemma sound_start_wave (g : TowerDefenseGame.t) :
  sound g -> sound (fst (start_wave g)).
Proof.
  intros (Hui & Hwm & Hen & Hst & Hsp).
  split; [apply ui_ok_start_wave; exact Hui |].
  unfold start_wave.
  destruct (negb (WaveManager.active (wave_manager g)));
    [| split; [exact Hwm | split; [exact Hen | split; [exact Hst | exact Hsp]]]].
  pose proof (wave_ok_start_wave _ Hwm) as Hwm'.
  pose proof (start_wave_finished (wave_manager g)) as Hfin.
  destruct (WaveManager.start_wave (wave_manager g)) as [wm started].
  cbn [fst] in *.
  split; [exact Hwm' | split; [exact Hen | split; [| exact Hsp]]].
  destruct Hst as (Hplay & Hover & Hwin & Hlives & Hscore).
  unfold state_ok. cbn [set_wave_manager game_state lives score wave_manager
                          enemies].
  repeat split; try assumption.
  - rewrite Hfin; [apply Hwin; assumption | apply Hwin; assumption].
  - apply Hwin; assumption.
Qed.

Lemma set_xy_set_xy (px py qx qy : Z) (tw : Tower.t) :
  Tower.set_xy qx qy (Tower.set_xy px py tw) = Tower.set_xy qx qy tw.
Proof. reflexivity. Qed.

Lemma sound_handle_key (k : pygame.key) (g : TowerDefenseGame.t) :
  sound g -> sound (handle_key k g).
Proof.
  intros Hs. destruct k; unfold handle_key;
    auto using sound_start_wave, sound_upgrade, sound_sell;
    try (destruct (nth_error (map fst (tower_prototypes g)) _);
         [apply sound_select_tower_type |]; exact Hs);
    destruct Hs as (Hui & Hwm & Hen & Hst & Hsp);
    (split; [| split; [exact Hwm | split; [exact Hen
                                          | split; [exact Hst | exact Hsp]]]]).
  exact I.
Qed.

(** *** One call of [update], field by field *)

Lemma update_fields (g g' : TowerDefenseGame.t) :
  update g = Ok g' ->
  exists wm o es acc tws es',
    WaveManager.update (next_eid g) (wave_manager g) (path g) = Ok (wm, o)
    /\ update_enemies
         (enemies g ++ match o with Some e => [e] | None => [] end)%list
         (mk_tally (lives g) (money g) (score g) [])
       = Ok (es, acc)
    /\ attack_all (towers g) (remove_enemies (enemies_to_remove acc) es)
       = (tws, es')
    /\ wave_manager g' = wm /\ enemies g' = es' /\ towers g' = tws
    /\ path g' = path g /\ tower_prototypes g' = tower_prototypes g
    /\ selected_tower_type g' = selected_tower_type g
    /\ dragging_tower g' = dragging_tower g
    /\ selected_tower g' = selected_tower g
    /\ lives g' = t_lives acc /\ score g' = t_score acc.
Proof.
  intros Hu. unfold update in Hu.
  apply bind_Ok_inv in Hu. destruct Hu as (g1 & Hspawn & Hu).
  apply bind_Ok_inv in Hu. destruct Hu as (g2 & Hmove & Hu).
  injection Hu as <-.
  unfold spawn_enemies in Hspawn.
  apply bind_Ok_inv in Hspawn. destruct Hspawn as ([wm o] & Hwm & Hspawn).
  unfold move_and_remove in Hmove.
  apply bind_Ok_inv in Hmove. destruct Hmove as ([es acc] & Hes & Hmove).
  injection Hmove as <-.
  exists wm, o, es, acc.
  destruct o as [e|]; injection Hspawn as <-;
    cbn [set_next_eid set_enemies set_wave_manager enemies lives money score]
      in Hes;
    rewrite ?app_nil_r;
    unfold check_victory, check_game_over, update_towers;
    cbn [set_next_eid set_enemies set_wave_manager set_economy towers enemies];
    destruct (attack_all (towers g) (remove_enemies (enemies_to_remove acc) es))
      as [tws es'];
    exists tws, es';
    (split; [exact Hwm |]); (split; [exact Hes |]); (split; [reflexivity |]);
    repeat match goal with
           | |- context [if ?c then _ else _] => destruct c
           end; repeat split.
Qed.

Lemma remove_enemies_nil (ids : list nat) : remove_enemies ids [] = [].
Proof. unfold remove_enemies. induction ids; simpl; auto. Qed.

Lemma attack_all_nil (tws tws' : list Tower.t) (es' : list Enemy.t) :
  attack_all tws [] = (tws', es') -> es' = [].
Proof.
  intros H. apply attack_all_hit in H. inversion H. reflexivity.
Qed.

Lemma kind_value_nonneg (e : Enemy.t) : kind_ok e -> 0 <= Enemy.value e.
Proof. intros [(_ & _ & ->) | [(_ & _ & ->) | (_ & _ & ->)]]; lia. Qed.

(** A finished manager does nothing more. *)
Lemma wave_update_finished (fresh : nat) (path : list (Z * Z))
    (wm : WaveManager.t) :
  WaveManager.is_finished wm = true ->
  WaveManager.update fresh wm path = Ok (wm, None).
Proof.
  unfold WaveManager.is_finished, WaveManager.update. intros H.
  apply andb_prop in H. destruct H as (_ & ->). reflexivity.
Qed.

Lemma sound_update (g g' : TowerDefenseGame.t) :
  Reach.invariant g -> sound g -> update g = Ok g' -> sound g'.
Proof.
  intros Hinv Hs Hu.
  pose proof (update_game_state _ _ Hu) as Hstate.
  destruct (update_fields _ _ Hu)
    as (wm & o & es & acc & tws & es' & Hwm & Hes & Hall & Ewm & Een & Etw
        & Epath & Eproto & Ety & Edr & Esel & Elives & Escore).
  destruct Hinv as (Hm & Hp & Hpath & Ht & He).
  destruct Hs as (Hui & Hwok & Hen & Hst & Hsp).
  assert (Hen1 : Forall enemy_ok
                   (enemies g ++ match o with Some e => [e] | None => [] end)).
  { apply Forall_app. split; [exact Hen |].
    destruct o as [e|]; constructor; [| constructor].
    rewrite Hpath in Hwm. eapply wave_update_enemy_ok. exact Hwm. }
  assert (Hen' : Forall enemy_ok es').
  { eapply attack_all_enemy_ok; [exact Ht | | exact Hall].
    apply Forall_remove_enemies. eapply update_enemies_ok; eassumption. }
  pose proof (update_enemies_tally _ _ _ _ Hes) as (Hl & _ & Hsc).
  cbn [t_lives t_score] in Hl, Hsc.
  assert (Hb : 0 <= Tally.bounty
                      (enemies g ++ match o with Some e => [e] | None => [] end)).
  { apply bounty_nonneg. eapply Forall_impl; [| exact Hen1].
    intros e (_ & Hk & _). apply kind_value_nonneg. exact Hk. }
  assert (Hx : 0 <= Tally.exits
                      (enemies g ++ match o with Some e => [e] | None => [] end))
    by (unfold Tally.exits; lia).
  split; [unfold ui_ok; rewrite Ety, Edr, Esel, Eproto; exact Hui |].
  split; [rewrite Ewm; eapply wave_ok_update; eassumption |].
  split; [rewrite Een; exact Hen' |].
  split; [| eapply spaced_positions; [exact Epath | | exact Hsp];
            rewrite Etw; eapply attack_all_positions; exact Hall].
  destruct Hst as (Hplay & Hover & Hwin & Hlives & Hscore).
  unfold state_ok. rewrite Hstate.
  destruct (WaveManager.is_finished (wave_manager g')
            && match enemies g' with [] => true | _ :: _ => false end)
    eqn:Hv.
  - apply andb_prop in Hv. destruct Hv as (Hfin & Hnone).
    repeat split; try discriminate; try lia; try assumption.
    destruct (enemies g'); [reflexivity | discriminate Hnone].
  - destruct (Z.leb_spec (lives g') 0) as [Hdead|Hlive].
    + repeat split; try discriminate; try lia.
    + split; [intros _; lia |].
      split; [intros Hgo; specialize (Hover Hgo); lia |].
      split; [| lia].
      intros Hvic. destruct (Hwin Hvic) as (Hfin & Hnone).
      rewrite (wave_update_finished _ _ _ Hfin) in Hwm.
      injection Hwm as <- <-. split; [rewrite Ewm; exact Hfin |].
      rewrite Hnone in Hes. simpl in Hes.
      injection Hes as <- _. rewrite remove_enemies_nil in Hall.
      rewrite Een. eapply attack_all_nil. exact Hall.
Qed.

(** *** Nothing raises in a sound state *)

Lemma place_tower_returns (pos : Z * Z) (g : TowerDefenseGame.t) :
  ui_ok g -> exists g' ok, place_tower pos g = Ok (g', ok).
Proof.
  unfold ui_ok, place_tower. intros Hui.
  destruct (selected_tower_type g) as [ty|]; [| eauto].
  destruct (dragging_tower g) as [dragged|]; [| eauto].
  destruct Hui as ((proto & px & py & -> & _) & _).
  cbn [bind].
  repeat match goal with
         | |- context [if ?c then _ else _] => destruct c
         end; eauto.
Qed.

Lemma update_returns (g : TowerDefenseGame.t) :
  Reach.invariant g -> sound g -> exists g', update g = Ok g'.
Proof.
  intros (_ & _ & Hpath & _) (_ & Hwok & Hen & _).
  assert (Hne : path g <> []) by (rewrite Hpath; discriminate).
  destruct (wave_update_returns (next_eid g) (path g) _ Hwok Hne)
    as (wm & o & Hwm).
  assert (Hen1 : Forall enemy_ok
                   (enemies g ++ match o with Some e => [e] | None => [] end)).
  { apply Forall_app. split; [exact Hen |].
    destruct o as [e|]; constructor; [| constructor].
    rewrite Hpath in Hwm. eapply wave_update_enemy_ok. exact Hwm. }
  destruct (update_enemies_returns _
              (mk_tally (lives g) (money g) (score g) []) Hen1)
    as (es & acc & Hes).
  unfold update, spawn_enemies. rewrite Hwm. cbn [bind].
  destruct o as [e|]; cbn [bind]; unfold move_and_remove;
    cbn [set_next_eid set_enemies set_wave_manager enemies lives money score];
    rewrite ?app_nil_r in Hes; rewrite Hes; cbn [bind]; eauto.
Qed.

(** *** Everything together *)

Lemma good_init : good init.
Proof.
  split; [exact invariant_init |]. split; [exact well_formed_init |].
  exact sound_init.
Qed.

Lemma good_handle_key (k : pygame.key) (g : TowerDefenseGame.t) :
  good g -> good (handle_key k g).
Proof.
  intros (Hinv & Hwf & Hs).
  split; [apply invariant_handle_key; exact Hinv |].
  split; [apply well_formed_handle_key; exact Hwf |].
  apply sound_handle_key; exact Hs.
Qed.

Lemma good_place_tower (g g' : TowerDefenseGame.t) (pos : Z * Z) (ok : bool) :
  good g -> place_tower pos g = Ok (g', ok) -> good g'.
Proof.
  intros (Hinv & Hwf & Hs) H.
  split; [eapply invariant_place_tower; eassumption |].
  split; [eapply well_formed_place_tower; eassumption |].
  eapply sound_place_tower; eassumption.
Qed.

Lemma good_select_tower (pos : Z * Z) (g : TowerDefenseGame.t) :
  good g -> good (fst (select_tower pos g)).
Proof.
  intros (Hinv & Hwf & Hs).
  split; [apply invariant_select_tower; exact Hinv |].
  split; [apply well_formed_select_tower; exact Hwf |].
  apply sound_select_tower; exact Hs.
Qed.

Lemma good_event_loop (events : list pygame.event) (mouse_pos : Z * Z) :
  forall g,
    good g ->
    exists g' b, event_loop events mouse_pos g = Ok (g', b) /\ good g'.
Proof.
  induction events as [|ev events IH]; intros g Hg; [simpl; eauto |].
  destruct ev as [|k|button|]; cbn [event_loop].
  - eauto.
  - apply IH. apply good_handle_key. exact Hg.
  - destruct (button =? 1); [| apply IH; exact Hg].
    destruct (truthy (selected_tower_type g));
      [| apply IH; apply good_select_tower; exact Hg].
    destruct (place_tower_returns mouse_pos g (proj1 (proj2 (proj2 Hg))))
      as (g1 & ok & Hplace).
    rewrite Hplace. cbn [bind]. apply IH.
    eapply good_place_tower; eassumption.
  - apply IH. exact Hg.
Qed.

Lemma good_process_events (events : list pygame.event) (mouse_pos : Z * Z)
    (g : TowerDefenseGame.t) :
  good g ->
  exists g' b, process_events events mouse_pos g = Ok (g', b) /\ good g'.
Proof.
  intros Hg. unfold process_events.
  destruct (good_event_loop events mouse_pos g Hg) as (g1 & b & -> & Hg1).
  cbn [bind]. destruct b; [| eauto].
  destruct (dragging_tower g1) as [dragged|] eqn:Hdrag; [| eauto].
  eexists. eexists. split; [reflexivity |].
  destruct Hg1 as (Hinv & Hwf & Hui & Hrest).
  split; [exact Hinv |]. split; [exact Hwf |]. split; [| exact Hrest].
  unfold ui_ok in *. cbn [set_selection selected_tower_type dragging_tower
                            selected_tower tower_prototypes].
  rewrite Hdrag in Hui.
  destruct (selected_tower_type g1) as [ty|]; [| exact Hui].
  destruct Hui as ((proto & px & py & Hget & ->) & Hsel).
  split; [| exact Hsel]. exists proto. eexists. eexists.
  split; [exact Hget | apply set_xy_set_xy].
Qed.

Lemma good_update (g : TowerDefenseGame.t) :
  good g -> exists g', update g = Ok g' /\ good g'.
Proof.
  intros (Hinv & Hwf & Hs).
  destruct (update_returns g Hinv Hs) as (g' & Hu).
  exists g'. split; [exact Hu |].
  split; [eapply invariant_update; eassumption |].
  split; [eapply well_formed_update; eassumption |].
  eapply sound_update; eassumption.
Qed.

Lemma reachable_good (g : TowerDefenseGame.t) : reachable g -> good g.
Proof.
  induction 1 as [| g ty _ IH | g g' pos ok _ IH Hplace | g pos _ IH
                  | g _ IH | g _ IH | g _ IH
                  | g g' events mouse running _ IH Hev | g g' _ IH Hu].
  - exact good_init.
  - destruct IH as (Hinv & Hwf & Hs).
    split; [apply invariant_select_tower_type; exact Hinv |].
    split; [apply well_formed_select_tower_type; exact Hwf |].
    apply sound_select_tower_type; exact Hs.
  - eapply good_place_tower; eassumption.
  - apply good_select_tower; exact IH.
  - apply (good_handle_key pygame.K_u); exact IH.
  - apply (good_handle_key pygame.K_s); exact IH.
  - apply (good_handle_key pygame.K_n); exact IH.
  - destruct (good_process_events events mouse g IH) as (g1 & b & Hev' & Hg1).
    rewrite Hev in Hev'. injection Hev' as <- _. exact Hg1.
  - destruct (good_update g IH) as (g1 & Hu' & Hg1).
    rewrite Hu in Hu'. injection Hu' as <-. exact Hg1.
Qed.

(** ** Every state of a game *)

Lemma frames_reachable (n : nat) : forall g,
  reachable g -> reachable (MoreExamples.frames n g).
Proof.
  induction n as [|n IH]; intros g Hr; [exact Hr |].
  cbn [MoreExamples.frames].
  destruct (update g) as [g'|ex] eqn:Hu; [| exact Hr].
  apply IH. eapply reach_update; eassumption.
Qed.

Lemma first_tower_reachable : reachable MoreExamples.first_tower.
Proof.
  apply (reach_place_tower (select_tower_type "basic" init) _ (100, 250) true).
  - apply reach_select_tower_type. apply reach_init.
  - reflexivity.
Qed.

Lemma skirmish_reachable : reachable MoreExamples.skirmish.
Proof.
  apply frames_reachable. apply reach_start_wave.
  exact first_tower_reachable.
Qed.

(** X10: what is selected.  In every state of a game a tower type is
    selected exactly when a tower is being dragged; the type is then a key
    of the prototypes, the dragged tower is a copy of that prototype moved
    to some position, and no placed tower is selected; and a selected tower
    is always one of the placed towers. *)
Theorem selection_is_consistent (g : TowerDefenseGame.t) :
  reachable g ->
  (selected_tower_type g = None <-> dragging_tower g = None)
  /\ (forall tower_type,
        selected_tower_type g = Some tower_type ->
        selected_tower g = None
        /\ exists prototype px py,
             dict_get tower_type (tower_prototypes g) = Ok prototype
             /\ dragging_tower g = Some (Tower.set_xy px py prototype))
  /\ (forall i,
        selected_tower g = Some i ->
        selected_tower_type g = None
        /\ exists tower, nth_error (towers g) i = Some tower).
Proof.
  intros Hr. destruct (reachable_good g Hr) as (_ & (_ & _ & Hsel) & Hui & _).
  unfold ui_ok in Hui.
  destruct (selected_tower_type g) as [ty|], (dragging_tower g) as [dragged|];
    try contradiction.
  - destruct Hui as ((proto & px & py & Hget & ->) & Hnone).
    split; [split; discriminate |]. split.
    + intros ty' Hty. injection Hty as <-. split; [exact Hnone |].
      exists proto, px, py. split; [exact Hget | reflexivity].
    + intros i Hi. rewrite Hnone in Hi. discriminate Hi.
  - split; [split; reflexivity |]. split; [discriminate |].
    intros i Hi. split; [reflexivity |]. rewrite Hi in Hsel.
    destruct (nth_error (towers g) i) as [tw|] eqn:Hnth; [eauto |].
    apply nth_error_None in Hnth. lia.
Qed.

Lemma selection_is_consistent_witness :
  reachable (select_tower_type "sniper" MoreExamples.skirmish)
  /\ forall tower_type,
       selected_tower_type (select_tower_type "sniper" MoreExamples.skirmish)
       = Some tower_type ->
       selected_tower (select_tower_type "sniper" MoreExamples.skirmish) = None
       /\ exists prototype px py,
            dict_get tower_type
              (tower_prototypes
                 (select_tower_type "sniper" MoreExamples.skirmish))
            = Ok prototype
            /\ dragging_tower (select_tower_type "sniper" MoreExamples.skirmish)
               = Some (Tower.set_xy px py prototype).
Proof.
  assert (Hr : reachable (select_tower_type "sniper" MoreExamples.skirmish))
    by (apply reach_select_tower_type; exact skirmish_reachable).
  split; [exact Hr |].
  apply (selection_is_consistent
           (select_tower_type "sniper" MoreExamples.skirmish) Hr).
Defined.

(** X11: the wave manager.  In every state of a game the waves are the five
    of [setup_waves] and the delay is 60; the timer stays inside the delay
    and the wave index never passes the number of waves; and while a wave
    is active, that wave exists and the cursor is not past its end. *)
Theorem wave_manager_is_consistent (g : TowerDefenseGame.t) :
  reachable g ->
  let wm := wave_manager g in
  WaveManager.waves wm = WaveManager.waves (setup_waves WaveManager.init)
  /\ WaveManager.spawn_delay wm = 60
  /\ 0 <= WaveManager.spawn_timer wm < WaveManager.spawn_delay wm
  /\ (WaveManager.current_wave wm <= List.length (WaveManager.waves wm))%nat
  /\ (WaveManager.active wm = true ->
      exists wave,
        nth_error (WaveManager.waves wm) (WaveManager.current_wave wm)
        = Some wave
        /\ (WaveManager.enemy_index wm <= List.length wave)%nat
        /\ Forall (fun enemy_type => known enemy_type = true) wave).
Proof.
  intros Hr wm.
  destruct (reachable_good g Hr) as (_ & _ & _ & Hwm & _).
  destruct Hwm as (Hw & Hd & Ht & Hc & Ha). fold wm in Hw, Hd, Ht, Hc, Ha.
  split; [exact Hw |]. split; [exact Hd |]. rewrite Hd.
  split; [exact Ht |]. split; [rewrite Hw; exact Hc |].
  intros Hact. destruct (Ha Hact) as (wave & Hnth & Hidx).
  exists wave. split; [exact Hnth |]. split; [exact Hidx |].
  pose proof init_waves_known as Hknown. rewrite Forall_forall in Hknown.
  apply Hknown. rewrite Hw in Hnth. eapply nth_error_In. exact Hnth.
Qed.

Lemma wave_manager_is_consistent_witness :
  reachable MoreExamples.skirmish
  /\ 0 <= WaveManager.spawn_timer (wave_manager MoreExamples.skirmish)
     < WaveManager.spawn_delay (wave_manager MoreExamples.skirmish).
Proof.
  split; [exact skirmish_reachable |].
  apply (wave_manager_is_consistent MoreExamples.skirmish skirmish_reachable).
Defined.

(** X12: the enemies.  In every state of a game every enemy walks the path
    of the game, has the speed, the full health and the value of one of the
    three kinds of [EnemyFactory], has no more health than it started with,
    and has its index inside the path. *)
Theorem enemies_are_consistent (g : TowerDefenseGame.t) (enemy : Enemy.t) :
  reachable g -> In enemy (enemies g) ->
  Enemy.path enemy = path g
  /\ ((Enemy.speed enemy = 2%float /\ Enemy.max_health enemy = 50
       /\ Enemy.value enemy = 10)
      \/ (Enemy.speed enemy = 3.5%float /\ Enemy.max_health enemy = 30
          /\ Enemy.value enemy = 15)
      \/ (Enemy.speed enemy = 1%float /\ Enemy.max_health enemy = 150
          /\ Enemy.value enemy = 25))
  /\ Enemy.health enemy <= Enemy.max_health enemy
  /\ (Enemy.path_index enemy < List.length (Enemy.path enemy))%nat.
Proof.
  intros Hr Hin.
  destruct (reachable_good g Hr)
    as ((_ & _ & Hpath & _) & _ & _ & _ & Hen & _).
  rewrite Forall_forall in Hen.
  destruct (Hen enemy Hin) as (Hp & Hkind & Hhealth & Hidx).
  split; [rewrite Hpath; exact Hp |]. split; [exact Hkind |].
  split; [exact Hhealth |]. rewrite Hp. simpl. lia.
Qed.

Lemma enemies_are_consistent_witness :
  reachable MoreExamples.skirmish
  /\ In MoreExamples.front (enemies MoreExamples.skirmish)
  /\ Enemy.health MoreExamples.front <= Enemy.max_health MoreExamples.front.
Proof.
  assert (Hin : In MoreExamples.front (enemies MoreExamples.skirmish))
    by (vm_compute; left; reflexivity).
  split; [exact skirmish_reachable |]. split; [exact Hin |].
  apply (enemies_are_consistent MoreExamples.skirmish MoreExamples.front
           skirmish_reachable Hin).
Defined.

(** X13: what the game state means.  In every state of a game: while the
    state is PLAYING there are lives left; GAME_OVER is only ever set with
    no life left; VICTORY is only ever set with all waves finished and no
    enemy on the screen; the lives never exceed the twenty of the start;
    the score is never negative. *)
Theorem game_state_is_consistent (g : TowerDefenseGame.t) :
  reachable g ->
  (game_state g = GAME_STATE_PLAYING -> 0 < lives g)
  /\ (game_state g = GAME_STATE_GAME_OVER -> lives g <= 0)
  /\ (game_state g = GAME_STATE_VICTORY ->
      WaveManager.is_finished (wave_manager g) = true /\ enemies g = [])
  /\ lives g <= lives init
  /\ 0 <= score g.
Proof.
  intros Hr.
  destruct (reachable_good g Hr) as (_ & _ & _ & _ & _ & Hst & _).
  exact Hst.
Qed.

Lemma game_state_is_consistent_witness :
  reachable MoreExamples.skirmish
  /\ (game_state MoreExamples.skirmish = GAME_STATE_PLAYING ->
      0 < lives MoreExamples.skirmish).
Proof.
  split; [exact skirmish_reachable |].
  apply (game_state_is_consistent MoreExamples.skirmish skirmish_reachable).
Defined.

(** X14: where the towers stand.  In every state of a game every placed
    tower stands on the centre of a grid cell of the screen, at least 30
    from every waypoint of the path (the eight points of [self.path]; a
    tower may stand on the path between two of them), and any two placed
    towers are at least 40 apart: no cell holds two towers.  The distances
    are exact, not the binary64 ones the code compares. *)
Theorem towers_keep_their_distance (g : TowerDefenseGame.t) :
  reachable g ->
  Forall (fun tower =>
            on_grid (Tower.x tower, Tower.y tower)
            /\ forall point, In point (path g) ->
                 30 ^ 2 <= distance2 (Tower.x tower, Tower.y tower) point)
         (towers g)
  /\ forall i j tower other,
       nth_error (towers g) i = Some tower ->
       nth_error (towers g) j = Some other ->
       i <> j ->
       40 ^ 2 <= distance2 (Tower.x tower, Tower.y tower)
                           (Tower.x other, Tower.y other).
Proof.
  intros Hr.
  destruct (reachable_good g Hr)
    as ((_ & _ & _ & Hplaced & _) & _ & _ & _ & _ & _ & Hfar & Hap).
  split.
  - rewrite Forall_forall in *. intros tw Htw.
    split; [exact (proj2 (Hplaced tw Htw)) | exact (Hfar tw Htw)].
  - clear Hplaced Hfar Hr. induction (towers g) as [|tw tws IH];
      intros i j tower other Hi Hj Hne; [destruct i; discriminate Hi |].
    destruct Hap as (Hhead & Hrest). rewrite Forall_forall in Hhead.
    destruct i as [|i], j as [|j]; simpl in Hi, Hj.
    + congruence.
    + injection Hi as <-. apply nth_error_In in Hj. exact (Hhead other Hj).
    + injection Hj as <-. apply nth_error_In in Hi.
      rewrite distance2_sym. exact (Hhead tower Hi).
    + eapply IH; eauto.
Qed.

Lemma towers_keep_their_distance_witness :
  reachable MoreExamples.skirmish
  /\ Forall (fun tower =>
               on_grid (Tower.x tower, Tower.y tower)
               /\ forall point, In point (path MoreExamples.skirmish) ->
                    30 ^ 2 <= distance2 (Tower.x tower, Tower.y tower) point)
            (towers MoreExamples.skirmish)
  /\ towers MoreExamples.skirmish <> [].
Proof.
  split; [exact skirmish_reachable |].
  split; [| vm_compute; discriminate].
  apply (towers_keep_their_distance MoreExamples.skirmish skirmish_reachable).
Defined.

(** ** Placing, selecting and selling *)

Lemma select_test_exact_all : forallb select_test_exact grid_cells = true.
Proof. vm_compute. reflexivity. Qed.

(** On the cells of the screen the binary64 test of [select_tower] is the
    exact one: the squared distance is less than 20 squared. *)
Lemma select_tower_exact (cell other : Z * Z) :
  on_grid cell -> on_grid other ->
  (int_distance (fst cell) (snd cell) (fst other) (snd other) <? 20)%float
  = (distance2 cell other <? 400).
Proof.
  intros Hcell Hother.
  pose proof select_test_exact_all as Hall. rewrite forallb_forall in Hall.
  specialize (Hall cell (In_grid_cells cell Hcell)).
  unfold select_test_exact in Hall. rewrite forallb_forall in Hall.
  specialize (Hall other (In_grid_cells other Hother)).
  apply eqb_prop in Hall. exact Hall.
Qed.

Lemma tower_at_snoc (pos : Z * Z) (new : Tower.t) : forall tws i,
  Forall (fun tw =>
            (int_distance (fst pos) (snd pos) (Tower.x tw) (Tower.y tw)
             <? 20)%float = false) tws ->
  (int_distance (fst pos) (snd pos) (Tower.x new) (Tower.y new) <? 20)%float
  = true ->
  tower_at pos (tws ++ [new]) i = Some (i + List.length tws)%nat.
Proof.
  induction tws as [|tw tws IH]; intros i Hold Hnew; simpl.
  - rewrite Hnew, Nat.add_0_r. reflexivity.
  - inversion Hold as [|? ? Htw Hrest]; subst. rewrite Htw.
    rewrite (IH (S i) Hrest Hnew). f_equal. lia.
Qed.

Lemma list_delete_snoc {A : Type} (l : list A) (a : A) :
  list_delete (List.length l) (l ++ [a]) = l.
Proof. induction l as [|b l IH]; simpl; [| rewrite IH]; reflexivity. Qed.

(** X15: place, select, sell.  After a placement that succeeded, a click on
    the grid position of the new tower selects that tower and no other, and
    selling it then restores the list of towers and clears the selection;
    the balance is back to what it was before the placement less the 30 per
    cent of the cost that [int(cost * 0.7)] does not refund, so the round
    trip always loses money. *)
Theorem place_select_sell
    (g g1 : TowerDefenseGame.t) (pos : Z * Z) :
  reachable g ->
  place_tower pos g = Ok (g1, true) ->
  let grid_pos := get_grid_position pos in
  let g2 := fst (select_tower grid_pos g1) in
  let g3 := fst (sell_selected_tower g2) in
  exists new_tower,
    towers g1 = (towers g ++ [new_tower])%list
    /\ snd (select_tower grid_pos g1) = true
    /\ selected g2 = Some (List.length (towers g), new_tower)
    /\ snd (sell_selected_tower g2) = true
    /\ towers g3 = towers g
    /\ selected_tower g3 = None
    /\ money g3
       = money g - Tower.cost new_tower + sell_value (Tower.cost new_tower)
    /\ money g3 < money g.
Proof.
  intros Hr H grid_pos g2 g3.
  destruct (reachable_invariant g Hr) as (_ & Hproto & _ & Hplaced & _).
  apply place_tower_inv in H.
  destruct H as [(Hok & _) | (_ & ty & proto & _ & Hget & Hvalid & _ & ->)];
    [discriminate Hok |].
  fold grid_pos in Hvalid, g2 |- *.
  apply is_position_valid_inv in Hvalid.
  destruct Hvalid as (Hscreen & _ & Htowers).
  rewrite forallb_forall in Htowers.
  pose proof (grid_position_on_grid pos Hscreen) as Hcell.
  fold grid_pos in Hcell. rewrite Forall_forall in Hplaced.
  set (new := Tower.set_xy (fst grid_pos) (snd grid_pos) (Tower.clone proto))
    in *.
  assert (Hat : tower_at grid_pos (towers g ++ [new]) 0
                = Some (List.length (towers g))).
  { rewrite (tower_at_snoc grid_pos new (towers g) 0); [reflexivity | |].
    - apply Forall_forall. intros tw Htw.
      pose proof (Htowers tw Htw) as Hfar.
      rewrite (far_from_tower_exact _ _ Hcell (proj2 (Hplaced tw Htw)))
        in Hfar.
      apply Z.leb_le in Hfar.
      etransitivity;
        [exact (select_tower_exact grid_pos (Tower.x tw, Tower.y tw) Hcell
                  (proj2 (Hplaced tw Htw))) |].
      apply Z.ltb_ge. lia.
    - change (Tower.x new) with (fst grid_pos).
      change (Tower.y new) with (snd grid_pos).
      etransitivity;
        [exact (select_tower_exact grid_pos grid_pos Hcell Hcell) |].
      unfold distance2. rewrite !Z.sub_diag. reflexivity. }
  assert (Hnth : nth_error (towers g ++ [new]) (List.length (towers g))
                 = Some new)
    by (rewrite nth_error_app2, Nat.sub_diag by lia; reflexivity).
  assert (Hcost : prototype_cost (Tower.cost new)).
  { rewrite Hproto in Hget. apply prototype_of_init in Hget.
    exact (proj1 Hget). }
  exists new. subst g3 g2. unfold select_tower.
  cbn [set_money set_economy set_towers towers]. rewrite Hat.
  unfold sell_selected_tower, selected.
  cbn [fst snd set_selection set_money set_economy set_towers towers
         selected_tower money selected_tower_type dragging_tower].
  rewrite Hnth.
  cbn [fst snd set_selection set_money set_economy set_towers towers
         selected_tower money selected_tower_type dragging_tower].
  rewrite list_delete_snoc.
  repeat split.
  change (Tower.cost proto) with (Tower.cost new).
  assert (Hloss : sell_value (Tower.cost new) < Tower.cost new)
    by (destruct Hcost as [-> | [-> | ->]]; vm_compute; reflexivity).
  lia.
Qed.

Lemma place_select_sell_witness :
  reachable (select_tower_type "bomber" MoreExamples.skirmish)
  /\ exists g1,
       place_tower (300, 90) (select_tower_type "bomber" MoreExamples.skirmish)
       = Ok (g1, true)
       /\ money (fst (sell_selected_tower
                        (fst (select_tower (get_grid_position (300, 90)) g1))))
          < money (select_tower_type "bomber" MoreExamples.skirmish).
Proof.
  assert (Hr : reachable (select_tower_type "bomber" MoreExamples.skirmish))
    by (apply reach_select_tower_type; exact skirmish_reachable).
  split; [exact Hr |].
  destruct (place_tower (300, 90)
              (select_tower_type "bomber" MoreExamples.skirmish))
    as [[g1 [|]]|ex] eqn:Hplace; try (vm_compute in Hplace; discriminate Hplace).
  exists g1. split; [reflexivity |].
  destruct (place_select_sell _ g1 (300, 90) Hr Hplace)
    as (new & _ & _ & _ & _ & _ & _ & _ & Hless).
  exact Hless.
Defined.

(** ** No money from nothing *)

Lemma sell_value_less (c : Z) : prototype_cost c -> 0 <= sell_value c < c.
Proof.
  intros [-> | [-> | ->]]; vm_compute; split; congruence.
Qed.

Lemma resale_app (l1 l2 : list Tower.t) :
  resale (l1 ++ l2) = resale l1 + resale l2.
Proof.
  unfold resale. induction l1 as [|a l1 IH]; simpl; [reflexivity |].
  rewrite IH. lia.
Qed.

Lemma resale_costs (l : list Tower.t) : forall l',
  map Tower.cost l' = map Tower.cost l -> resale l' = resale l.
Proof.
  unfold resale. induction l as [|a l IH]; intros l' Hmap.
  - destruct l'; [reflexivity | discriminate Hmap].
  - destruct l' as [|a' l']; [discriminate Hmap |].
    simpl in Hmap. injection Hmap as Ha Hl. simpl.
    rewrite Ha, (IH l' Hl). reflexivity.
Qed.

Lemma resale_nonneg (l : list Tower.t) :
  Forall placed_ok l -> 0 <= resale l.
Proof.
  unfold resale. induction 1 as [|a l Ha _ IH]; simpl; [lia |].
  pose proof (sell_value_less _ (proj1 (proj1 Ha))). lia.
Qed.

Lemma resale_delete (l : list Tower.t) : forall i tw,
  nth_error l i = Some tw ->
  resale (list_delete i l) + sell_value (Tower.cost tw) = resale l.
Proof.
  unfold resale. induction l as [|a l IH]; intros i tw Hnth;
    [destruct i; discriminate Hnth |].
  destruct i as [|i]; simpl in Hnth |- *.
  - injection Hnth as <-. lia.
  - rewrite <- (IH i tw Hnth). lia.
Qed.

Lemma list_update_costs (f : Tower.t -> Tower.t) (l : list Tower.t) :
  (forall tw, Tower.cost (f tw) = Tower.cost tw) ->
  forall i, map Tower.cost (list_update i f l) = map Tower.cost l.
Proof.
  intros Hf. induction l as [|a l IH]; intros i; [destruct i; reflexivity |].
  destruct i; simpl; [rewrite Hf | rewrite IH]; reflexivity.
Qed.

Lemma attack_all_cost_list (tws : list Tower.t) : forall es tws' es',
  attack_all tws es = (tws', es') -> map Tower.cost tws' = map Tower.cost tws.
Proof.
  induction tws as [|tw tws IH]; intros es tws' es' H; simpl in H.
  - injection H as <- _. reflexivity.
  - destruct (tower_attack tw es) as [[tw1 es1] d] eqn:Hatt.
    destruct (attack_all tws es1) as [tws2 es2] eqn:Hall.
    injection H as <- _. simpl.
    destruct (tower_attack_cost _ _ _ _ _ Hatt) as ((Hc & _) & _).
    rewrite (IH _ _ _ Hall), Hc. reflexivity.
Qed.

Lemma solvent_place_tower (g g' : TowerDefenseGame.t) (pos : Z * Z)
    (ok : bool) :
  invariant g -> solvent g -> place_tower pos g = Ok (g', ok) -> solvent g'.
Proof.
  intros (_ & Hproto & _) Hs H. apply place_tower_inv in H.
  destruct H as [(_ & ->) | (_ & ty & proto & _ & Hget & _ & _ & ->)];
    [exact Hs |].
  rewrite Hproto in Hget. apply prototype_of_init in Hget.
  pose proof (sell_value_less _ (proj1 Hget)) as Hless.
  unfold solvent in *.
  cbn [set_money set_economy set_towers towers money score].
  rewrite resale_app. unfold resale at 2.
  cbn [fold_right].
  change (Tower.cost (Tower.set_xy (fst (get_grid_position pos))
                        (snd (get_grid_position pos)) (Tower.clone proto)))
    with (Tower.cost proto).
  lia.
Qed.

Lemma solvent_upgrade (g : TowerDefenseGame.t) :
  invariant g -> solvent g -> solvent (fst (upgrade_selected_tower g)).
Proof.
  intros (_ & _ & _ & Hplaced & _) Hs. unfold upgrade_selected_tower.
  destruct (selected g) as [[i tw]|] eqn:Hsel; [| exact Hs].
  destruct (Tower.cost tw / 2 <=? money g); [| exact Hs].
  apply selected_In in Hsel. rewrite Forall_forall in Hplaced.
  assert (Hhalf : 0 <= Tower.cost tw / 2).
  { destruct (proj1 (proj1 (Hplaced tw Hsel))) as [-> | [-> | ->]];
      vm_compute; discriminate. }
  unfold solvent in *.
  cbn [fst set_money set_economy set_towers towers money score].
  rewrite (resale_costs (towers g)); [lia |].
  apply list_update_costs. intros tw'. reflexivity.
Qed.

Lemma solvent_sell (g : TowerDefenseGame.t) :
  solvent g -> solvent (fst (sell_selected_tower g)).
Proof.
  intros Hs. unfold sell_selected_tower.
  destruct (selected g) as [[i tw]|] eqn:Hsel; [| exact Hs].
  unfold selected in Hsel.
  destruct (selected_tower g) as [j|]; [| discriminate Hsel].
  destruct (nth_error (towers g) j) as [tw'|] eqn:Hnth; [| discriminate Hsel].
  injection Hsel as <- <-.
  pose proof (resale_delete _ _ _ Hnth) as Hdel.
  unfold solvent in *.
  cbn [fst set_selection set_money set_economy set_towers towers money score].
  lia.
Qed.

Lemma solvent_handle_key (k : pygame.key) (g : TowerDefenseGame.t) :
  invariant g -> solvent g -> solvent (handle_key k g).
Proof.
  intros Hinv Hs. destruct k; unfold handle_key;
    auto using solvent_upgrade, solvent_sell.
  - unfold start_wave.
    destruct (negb (WaveManager.active (wave_manager g))); [| exact Hs].
    destruct (WaveManager.start_wave (wave_manager g)); exact Hs.
  - destruct (nth_error (map fst (tower_prototypes g)) 0) as [ty|];
      [| exact Hs].
    unfold select_tower_type.
    destruct (dict_get ty (tower_prototypes g)); exact Hs.
  - destruct (nth_error (map fst (tower_prototypes g)) 1) as [ty|];
      [| exact Hs].
    unfold select_tower_type.
    destruct (dict_get ty (tower_prototypes g)); exact Hs.
  - destruct (nth_error (map fst (tower_prototypes g)) 2) as [ty|];
      [| exact Hs].
    unfold select_tower_type.
    destruct (dict_get ty (tower_prototypes g)); exact Hs.
Qed.

Lemma solvent_select_tower (pos : Z * Z) (g : TowerDefenseGame.t) :
  solvent g -> solvent (fst (select_tower pos g)).
Proof.
  intros Hs. unfold select_tower.
  destruct (tower_at pos (towers g) 0); exact Hs.
Qed.

Lemma solvent_event_loop (events : list pygame.event) (mouse_pos : Z * Z) :
  forall g g' b,
    invariant g -> solvent g ->
    event_loop events mouse_pos g = Ok (g', b) -> solvent g'.
Proof.
  induction events as [|ev events IH]; intros g g' b Hinv Hs H.
  - injection H as <- _. exact Hs.
  - destruct ev as [|k|button|]; cbn [event_loop] in H.
    + injection H as <- _. exact Hs.
    + eapply IH; [| | exact H];
        [apply invariant_handle_key | apply solvent_handle_key]; assumption.
    + destruct (button =? 1); [| eapply IH; eassumption].
      destruct (truthy (selected_tower_type g)).
      * apply bind_Ok_inv in H. destruct H as ([g1 ok] & Hplace & H).
        eapply IH; [| | exact H];
          [eapply invariant_place_tower | eapply solvent_place_tower];
          eassumption.
      * eapply IH; [| | exact H];
          [apply invariant_select_tower | apply solvent_select_tower];
          assumption.
    + eapply IH; eassumption.
Qed.

Lemma solvent_process_events (events : list pygame.event)
    (mouse_pos : Z * Z) (g g' : TowerDefenseGame.t) (b : bool) :
  invariant g -> solvent g ->
  process_events events mouse_pos g = Ok (g', b) -> solvent g'.
Proof.
  intros Hinv Hs H. unfold process_events in H.
  apply bind_Ok_inv in H. destruct H as ([g1 continue] & Hloop & H).
  pose proof (solvent_event_loop _ _ _ _ _ Hinv Hs Hloop) as Hs1.
  destruct continue; [| injection H as <- _; exact Hs1].
  destruct (dragging_tower g1); injection H as <- _; exact Hs1.
Qed.

Lemma solvent_update (g g' : TowerDefenseGame.t) :
  solvent g -> update g = Ok g' -> solvent g'.
Proof.
  intros Hs Hu.
  destruct (update_fields _ _ Hu)
    as (wm & o & es & acc & tws & es' & _ & Hes & Hall & _ & _ & Etw & _ & _
        & _ & _ & _ & _ & Escore).
  pose proof Hu as Hu'. unfold update in Hu'.
  apply bind_Ok_inv in Hu'. destruct Hu' as (g1 & Hspawn & _).
  destruct (update_economy _ _ _ Hspawn Hu) as (_ & Hmoney & Hscore).
  unfold solvent in *. rewrite Hmoney, Hscore, Etw.
  rewrite (resale_costs (towers g) tws (attack_all_cost_list _ _ _ _ Hall)).
  lia.
Qed.

Lemma reachable_solvent (g : TowerDefenseGame.t) : reachable g -> solvent g.
Proof.
  induction 1 as [| g ty Hr IH | g g' pos ok Hr IH Hplace | g pos Hr IH
                  | g Hr IH | g Hr IH | g Hr IH
                  | g g' events mouse running Hr IH Hev | g g' Hr IH Hu].
  - unfold solvent. simpl. lia.
  - unfold select_tower_type.
    destruct (dict_get ty (tower_prototypes g)); exact IH.
  - eapply solvent_place_tower; [apply reachable_invariant | |]; eassumption.
  - apply solvent_select_tower; exact IH.
  - apply solvent_upgrade; [apply reachable_invariant |]; assumption.
  - apply solvent_sell; exact IH.
  - apply (solvent_handle_key pygame.K_n);
      [apply reachable_invariant |]; assumption.
  - eapply solvent_process_events; [apply reachable_invariant | |];
      eassumption.
  - eapply solvent_update; eassumption.
Qed.

(** X16: no money from nothing.  In every state of a game, the balance plus
    what selling every placed tower would bring in is at most the 200 of the
    start plus the score: money comes from bounties only, and placing,
    upgrading and selling never add any.  In particular the balance never
    exceeds 200 plus the score. *)
Theorem no_money_from_nothing (g : TowerDefenseGame.t) :
  reachable g ->
  money g + resale (towers g) <= 200 + score g
  /\ 0 <= resale (towers g)
  /\ money g <= 200 + score g.
Proof.
  intros Hr. pose proof (reachable_solvent g Hr) as Hs.
  destruct (reachable_invariant g Hr) as (_ & _ & _ & Hplaced & _).
  pose proof (resale_nonneg _ Hplaced) as Hnn.
  unfold solvent in Hs. change (money init) with 200 in Hs.
  split; [exact Hs |]. split; [exact Hnn | lia].
Qed.

Lemma no_money_from_nothing_witness :
  reachable MoreExamples.skirmish
  /\ money MoreExamples.skirmish <= 200 + score MoreExamples.skirmish.
Proof.
  split; [exact skirmish_reachable |].
  apply (no_money_from_nothing MoreExamples.skirmish skirmish_reachable).
Defined.

(** ** The way of an enemy *)

Lemma update_next (e e' : Enemy.t) (b : bool) :
  Enemy.path e = path init ->
  Enemy.update e = Ok (e', b) ->
  Course.position e' = Course.next (Enemy.speed e) (Course.position e)
  /\ Enemy.speed e' = Enemy.speed e /\ Enemy.path e' = Enemy.path e.
Proof.
  destruct e as [id p i px py s mh h v c]. cbn [Enemy.path]. intros -> H.
  unfold Course.next, Course.probe, Course.position.
  cbn [Enemy.path_index Enemy.x Enemy.y Enemy.speed fst snd].
  unfold Enemy.update, Enemy.at_end in *.
  cbn [Enemy.path Enemy.path_index Enemy.x Enemy.y Enemy.speed] in *.
  destruct (Z.of_nat (List.length (path init)) - 1 <=? Z.of_nat i);
    [injection H as <- _; repeat split |].
  destruct (nth_error (path init) (S i)) as [[tx ty]|]; [| discriminate H].
  cbv zeta in *.
  repeat match type of H with
         | (if ?c then _ else _) = _ => destruct c
         end;
    try discriminate H; injection H as <- _; repeat split.
Qed.

Lemma trail_from_head (n : nat) (speed : float) (p : Course.point) :
  In p (Course.trail_from (S n) speed p).
Proof. left. reflexivity. Qed.

Lemma trail_from_next (speed : float) (q : Course.point) : forall n p,
  In q (Course.trail_from n speed p) ->
  In (Course.next speed q) (Course.trail_from (S n) speed p).
Proof.
  induction n as [|n IH]; intros p Hq; [contradiction Hq |].
  cbn [Course.trail_from] in Hq. destruct Hq as [-> | Hq].
  - change (Course.trail_from (S (S n)) speed q)
      with (q :: Course.trail_from (S n) speed (Course.next speed q)).
    right. apply trail_from_head.
  - change (Course.trail_from (S (S n)) speed p)
      with (p :: Course.trail_from (S n) speed (Course.next speed p)).
    right. apply IH. exact Hq.
Qed.

Lemma trail_from_snoc (speed : float) : forall n p,
  Course.trail_from (S n) speed p
  = (Course.trail_from n speed p ++ [Nat.iter n (Course.next speed) p])%list.
Proof.
  induction n as [|n IH]; intros p; [reflexivity |].
  change (Course.trail_from (S (S n)) speed p)
    with (p :: Course.trail_from (S n) speed (Course.next speed p)).
  rewrite IH. rewrite <- Nat.iter_succ_r. reflexivity.
Qed.

Lemma iter_in_trail (speed : float) : forall n m p,
  (n < m)%nat -> In (Nat.iter n (Course.next speed) p)
                    (Course.trail_from m speed p).
Proof.
  induction n as [|n IH]; intros m p Hlt.
  - destruct m; [lia |]. apply trail_from_head.
  - destruct m; [lia |]. rewrite Nat.iter_succ_r.
    right. apply IH. lia.
Qed.

(** Each of the three ways ends within 1500 calls: the point after 1500
    calls is the point after 1499. *)
Lemma trail_ends (speed : float) :
  speed = 2%float \/ speed = 3.5%float \/ speed = 1%float ->
  Nat.iter 1500 (Course.next speed) Course.start
  = Nat.iter 1499 (Course.next speed) Course.start.
Proof.
  intros [-> | [-> | ->]]; vm_compute; reflexivity.
Qed.

Lemma trail_closed (speed : float) (q : Course.point) :
  speed = 2%float \/ speed = 3.5%float \/ speed = 1%float ->
  In q (Course.trail speed) -> In (Course.next speed q) (Course.trail speed).
Proof.
  intros Hkind Hq. unfold Course.trail in *.
  apply trail_from_next in Hq. rewrite trail_from_snoc in Hq.
  apply in_app_or in Hq. destruct Hq as [Hq | [<- | []]]; [exact Hq |].
  rewrite (trail_ends speed Hkind). apply iter_in_trail. lia.
Qed.

Lemma trails_on_segments (speed : float) :
  speed = 2%float \/ speed = 3.5%float \/ speed = 1%float ->
  forallb (Course.on_segment (path init)) (Course.trail speed) = true.
Proof.
  intros [-> | [-> | ->]]; vm_compute; reflexivity.
Qed.

Lemma kind_speed (e : Enemy.t) :
  kind_ok e ->
  Enemy.speed e = 2%float \/ Enemy.speed e = 3.5%float
  \/ Enemy.speed e = 1%float.
Proof. intros [(-> & _) | [(-> & _) | (-> & _)]]; auto. Qed.

Lemma enemy_update_on_course (e e' : Enemy.t) (b : bool) :
  enemy_ok e -> Course.on_course e ->
  Enemy.update e = Ok (e', b) -> Course.on_course e'.
Proof.
  intros (Hpath & Hkind & _) Hc H.
  destruct (update_next e e' b Hpath H) as (Hpos & Hspeed & _).
  unfold Course.on_course in *. rewrite Hpos, Hspeed.
  apply trail_closed; [apply kind_speed; exact Hkind | exact Hc].
Qed.

Lemma create_enemy_on_course (fresh : nat) (enemy_type : string)
    (e : Enemy.t) :
  EnemyFactory.create_enemy fresh enemy_type (path init) = Ok e ->
  Course.on_course e.
Proof.
  unfold EnemyFactory.create_enemy, Enemy.init. cbn [path init].
  repeat match goal with
         | |- context [String.eqb ?a ?b] => destruct (String.eqb a b)
         end;
    intros H; try discriminate H; injection H as <-;
    apply (trail_from_head 1499).
Qed.

Lemma wave_update_on_course (fresh : nat) (wm wm' : WaveManager.t)
    (e : Enemy.t) :
  WaveManager.update fresh wm (path init) = Ok (wm', Some e) ->
  Course.on_course e.
Proof.
  unfold WaveManager.update. intros H.
  destruct (negb (WaveManager.active wm)); [discriminate H |].
  destruct (WaveManager.spawn_delay wm <=? WaveManager.spawn_timer wm + 1);
    [| discriminate H].
  destruct (nth_error (WaveManager.waves wm) (WaveManager.current_wave wm))
    as [wave|]; [| discriminate H].
  destruct (WaveManager.enemy_index wm <? List.length wave)%nat.
  - destruct (nth_error wave (WaveManager.enemy_index wm)) as [ty|];
      [| discriminate H].
    apply bind_Ok_inv in H. destruct H as (e' & Hcreate & H).
    injection H as _ <-. eapply create_enemy_on_course. exact Hcreate.
  - destruct (List.length wave <=? WaveManager.enemy_index wm)%nat;
      discriminate H.
Qed.

Lemma update_enemies_on_course (es : list Enemy.t) : forall es' acc acc',
  Forall enemy_ok es -> Forall Course.on_course es ->
  update_enemies es acc = Ok (es', acc') ->
  Forall Course.on_course es'.
Proof.
  induction es as [|e es IH]; intros es' acc acc' Hok Hes H; simpl in H.
  - injection H as <- _. constructor.
  - apply bind_Ok_inv in H. destruct H as ([e1 acc1] & Hone & H).
    apply bind_Ok_inv in H. destruct H as ([es1 acc2] & Hrest & H).
    injection H as <- _. inversion Hes as [|? ? He Hes']; subst.
    inversion Hok as [|? ? Hoke Hok']; subst.
    constructor; [| eapply IH; eassumption].
    unfold update_enemy in Hone. apply bind_Ok_inv in Hone.
    destruct Hone as ([e2 b] & Hupd & Hone).
    assert (e1 = e2) as ->.
    { destruct b; [| destruct (negb (Enemy.is_alive e2))];
        injection Hone as <- _; reflexivity. }
    eapply enemy_update_on_course; eassumption.
Qed.

Lemma hit_on_course (l l' : list Enemy.t) :
  Forall2 Tally.hit l l' ->
  Forall Course.on_course l -> Forall Course.on_course l'.
Proof.
  induction 1 as [|a b l l' Hab _ IH]; intros Hl; [constructor |].
  inversion Hl; subst. constructor; [| apply IH; assumption].
  unfold Tally.hit in Hab. rewrite Hab. assumption.
Qed.

Lemma course_update (g g' : TowerDefenseGame.t) :
  good g -> Forall Course.on_course (enemies g) -> update g = Ok g' ->
  Forall Course.on_course (enemies g').
Proof.
  intros ((_ & _ & Hpath & _) & _ & _ & _ & Hok & _) Hc Hu.
  destruct (update_fields _ _ Hu)
    as (wm & o & es & acc & tws & es' & Hwm & Hes & Hall & _ & -> & _).
  rewrite Hpath in Hwm.
  assert (Hok1 : Forall enemy_ok
                   (enemies g ++ match o with Some e => [e] | None => [] end)).
  { apply Forall_app. split; [exact Hok |].
    destruct o as [e|]; constructor; [| constructor].
    eapply wave_update_enemy_ok. exact Hwm. }
  assert (Hc1 : Forall Course.on_course
                  (enemies g ++ match o with Some e => [e] | None => [] end)).
  { apply Forall_app. split; [exact Hc |].
    destruct o as [e|]; constructor; [| constructor].
    eapply wave_update_on_course. exact Hwm. }
  apply (hit_on_course _ _ (attack_all_hit _ _ _ _ Hall)).
  apply Forall_remove_enemies.
  eapply update_enemies_on_course; eassumption.
Qed.

Lemma handle_key_enemies (k : pygame.key) (g : TowerDefenseGame.t) :
  enemies (handle_key k g) = enemies g.
Proof.
  destruct k; unfold handle_key, start_wave, upgrade_selected_tower,
    sell_selected_tower, select_tower_type;
    repeat match goal with
           | |- context [match ?c with _ => _ end] => destruct c
           end; reflexivity.
Qed.

Lemma place_tower_enemies (g g' : TowerDefenseGame.t) (pos : Z * Z)
    (ok : bool) :
  place_tower pos g = Ok (g', ok) -> enemies g' = enemies g.
Proof.
  intros H. apply place_tower_inv in H.
  destruct H as [(_ & ->) | (_ & ty & proto & _ & _ & _ & _ & ->)];
    reflexivity.
Qed.

Lemma select_tower_enemies (pos : Z * Z) (g : TowerDefenseGame.t) :
  enemies (fst (select_tower pos g)) = enemies g.
Proof.
  unfold select_tower. destruct (tower_at pos (towers g) 0); reflexivity.
Qed.

Lemma event_loop_enemies (events : list pygame.event) (mouse_pos : Z * Z) :
  forall g g' b,
    event_loop events mouse_pos g = Ok (g', b) -> enemies g' = enemies g.
Proof.
  induction events as [|ev events IH]; intros g g' b H.
  - injection H as <- _. reflexivity.
  - destruct ev as [|k|button|]; cbn [event_loop] in H.
    + injection H as <- _. reflexivity.
    + rewrite (IH _ _ _ H). apply handle_key_enemies.
    + destruct (button =? 1); [| eapply IH; eassumption].
      destruct (truthy (selected_tower_type g)).
      * apply bind_Ok_inv in H. destruct H as ([g1 ok] & Hplace & H).
        rewrite (IH _ _ _ H). eapply place_tower_enemies. exact Hplace.
      * rewrite (IH _ _ _ H). apply select_tower_enemies.
    + eapply IH; eassumption.
Qed.

Lemma process_events_enemies (events : list pygame.event)
    (mouse_pos : Z * Z) (g g' : TowerDefenseGame.t) (b : bool) :
  process_events events mouse_pos g = Ok (g', b) -> enemies g' = enemies g.
Proof.
  intros H. unfold process_events in H.
  apply bind_Ok_inv in H. destruct H as ([g1 continue] & Hloop & H).
  apply event_loop_enemies in Hloop.
  destruct continue; [| injection H as <- _; exact Hloop].
  destruct (dragging_tower g1); injection H as <- _; exact Hloop.
Qed.

Lemma reachable_on_course (g : TowerDefenseGame.t) :
  reachable g -> Forall Course.on_course (enemies g).
Proof.
  induction 1 as [| g ty Hr IH | g g' pos ok Hr IH Hplace | g pos Hr IH
                  | g Hr IH | g Hr IH | g Hr IH
                  | g g' events mouse running Hr IH Hev | g g' Hr IH Hu].
  - constructor.
  - unfold select_tower_type.
    destruct (dict_get ty (tower_prototypes g)); exact IH.
  - rewrite (place_tower_enemies _ _ _ _ Hplace). exact IH.
  - rewrite select_tower_enemies. exact IH.
  - change (fst (upgrade_selected_tower g)) with (handle_key pygame.K_u g).
    rewrite handle_key_enemies. exact IH.
  - change (fst (sell_selected_tower g)) with (handle_key pygame.K_s g).
    rewrite handle_key_enemies. exact IH.
  - change (fst (start_wave g)) with (handle_key pygame.K_n g).
    rewrite handle_key_enemies. exact IH.
  - rewrite (process_events_enemies _ _ _ _ _ Hev). exact IH.
  - eapply course_update; [apply reachable_good | |]; eassumption.
Qed.

Lemma trails_inside (speed : float) :
  speed = 2%float \/ speed = 3.5%float \/ speed = 1%float ->
  forallb (fun p : Course.point =>
             (0 <=? snd (fst p))%float && (snd (fst p) <=? 800)%float
             && (150 <=? snd p)%float && (snd p <=? 450)%float)
          (Course.trail speed)
  = true.
Proof.
  intros [-> | [-> | ->]]; vm_compute; reflexivity.
Qed.

(** X17: the enemies stay on the path.  In every state of a game every
    enemy is exactly on the segment of the path that its index names, so it
    is on the screen, between 0 and 800 across and between 150 and 450
    down: the rounding of binary64 never takes it off the line.  It is
    where every enemy of its speed is that many calls of [update] after it
    was made. *)
Theorem enemies_stay_on_the_path (g : TowerDefenseGame.t) (enemy : Enemy.t) :
  reachable g -> In enemy (enemies g) ->
  Course.on_segment (path g) (Course.position enemy) = true
  /\ ((0 <=? Enemy.x enemy)%float = true
      /\ (Enemy.x enemy <=? 800)%float = true
      /\ (150 <=? Enemy.y enemy)%float = true
      /\ (Enemy.y enemy <=? 450)%float = true)
  /\ exists n,
       (n < 1500)%nat
       /\ Course.position enemy
          = Nat.iter n (Course.next (Enemy.speed enemy)) Course.start.
Proof.
  intros Hr Hin.
  pose proof (reachable_on_course g Hr) as Hc.
  destruct (reachable_good g Hr)
    as ((_ & _ & Hpath & _) & _ & _ & _ & Hok & _).
  rewrite Forall_forall in Hc, Hok.
  specialize (Hc enemy Hin). destruct (Hok enemy Hin) as (_ & Hkind & _).
  apply kind_speed in Hkind. unfold Course.on_course in Hc.
  pose proof (trails_on_segments _ Hkind) as Hseg.
  pose proof (trails_inside _ Hkind) as Hbox.
  rewrite forallb_forall in Hseg, Hbox.
  specialize (Hseg _ Hc). specialize (Hbox _ Hc).
  cbn [Course.position fst snd] in Hbox.
  apply andb_prop in Hbox. destruct Hbox as (Hbox & Hy2).
  apply andb_prop in Hbox. destruct Hbox as (Hbox & Hy1).
  apply andb_prop in Hbox. destruct Hbox as (Hx1 & Hx2).
  split; [rewrite Hpath; exact Hseg |].
  split; [repeat split; assumption |].
  clear Hseg. unfold Course.trail in Hc. revert Hc.
  generalize Course.start. generalize 1500%nat.
  induction n as [|n IH]; intros p Hp; [contradiction Hp |].
  destruct Hp as [<- | Hp].
  - exists 0%nat. split; [lia | reflexivity].
  - destruct (IH _ Hp) as (k & Hk & ->).
    exists (S k). split; [lia |]. rewrite Nat.iter_succ_r. reflexivity.
Qed.

Lemma enemies_stay_on_the_path_witness :
  reachable MoreExamples.skirmish
  /\ In MoreExamples.front (enemies MoreExamples.skirmish)
  /\ Course.on_segment (path MoreExamples.skirmish)
       (Course.position MoreExamples.front)
     = true.
Proof.
  assert (Hin : In MoreExamples.front (enemies MoreExamples.skirmish))
    by (vm_compute; left; reflexivity).
  split; [exact skirmish_reachable |]. split; [exact Hin |].
  apply (enemies_stay_on_the_path MoreExamples.skirmish MoreExamples.front
           skirmish_reachable Hin).
Defined.

Lemma updates_position : forall n e,
  enemy_ok e ->
  Course.position (Course.updates n e)
  = Nat.iter n (Course.next (Enemy.speed e)) (Course.position e)
  /\ Enemy.path (Course.updates n e) = Enemy.path e.
Proof.
  induction n as [|n IH]; intros e Hok; [split; reflexivity |].
  pose proof Hok as (Hpath & Hkind & _).
  destruct (enemy_update_returns e (kind_speed_positive e Hkind))
    as (e' & b & Hu).
  cbn [Course.updates]. rewrite Hu.
  destruct (update_next e e' b Hpath Hu) as (Hpos & Hspeed & Hpath').
  destruct (IH e' (enemy_update_ok _ _ _ Hok Hu)) as (-> & ->).
  rewrite Hpos, Hspeed, Hpath', Nat.iter_succ_r. split; reflexivity.
Qed.

Lemma trails_reach_the_end (speed : float) :
  speed = 2%float \/ speed = 3.5%float \/ speed = 1%float ->
  fst (fst (Nat.iter 1499 (Course.next speed) Course.start)) = 7%nat.
Proof.
  intros [-> | [-> | ->]]; vm_compute; reflexivity.
Qed.

(** X18: no enemy walks for ever.  In every state of a game, every enemy
    that is left on the list reaches the end of the path in fewer than 1500
    further calls of its [update], none of which raises: from then on
    [update] returns [True] and leaves the enemy where it is. *)
Theorem every_enemy_reaches_the_end
    (g : TowerDefenseGame.t) (enemy : Enemy.t) :
  reachable g -> In enemy (enemies g) ->
  exists n,
    (n < 1500)%nat
    /\ Enemy.update (Course.updates n enemy)
       = Ok (Course.updates n enemy, true).
Proof.
  intros Hr Hin.
  pose proof (reachable_on_course g Hr) as Hc.
  destruct (reachable_good g Hr) as (_ & _ & _ & _ & Hok & _).
  rewrite Forall_forall in Hc, Hok.
  specialize (Hc enemy Hin). specialize (Hok enemy Hin).
  pose proof Hok as (Hpath & Hkind & _). apply kind_speed in Hkind.
  assert (Hk : exists k, (k < 1500)%nat
                 /\ Course.position enemy
                    = Nat.iter k (Course.next (Enemy.speed enemy))
                        Course.start).
  { unfold Course.on_course, Course.trail in Hc. revert Hc.
    generalize Course.start. generalize 1500%nat.
    induction n as [|n IH]; intros p Hp; [contradiction Hp |].
    destruct Hp as [<- | Hp].
    - exists 0%nat. split; [lia | reflexivity].
    - destruct (IH _ Hp) as (k & Hk & ->).
      exists (S k). split; [lia |]. rewrite Nat.iter_succ_r. reflexivity. }
  destruct Hk as (k & Hk & Hpos).
  exists (1499 - k)%nat. split; [lia |].
  destruct (updates_position (1499 - k) enemy Hok) as (Hat & Hpath').
  rewrite Hpos, <- Nat.iter_add in Hat.
  replace (1499 - k + k)%nat with 1499%nat in Hat by lia.
  pose proof (trails_reach_the_end _ Hkind) as Hend. rewrite <- Hat in Hend.
  cbn [Course.position fst] in Hend.
  unfold Enemy.update, Enemy.at_end. rewrite Hpath', Hpath, Hend.
  reflexivity.
Qed.

Lemma every_enemy_reaches_the_end_witness :
  reachable MoreExamples.skirmish
  /\ In MoreExamples.front (enemies MoreExamples.skirmish)
  /\ exists n,
       (n < 1500)%nat
       /\ Enemy.update (Course.updates n MoreExamples.front)
          = Ok (Course.updates n MoreExamples.front, true).
Proof.
  assert (Hin : In MoreExamples.front (enemies MoreExamples.skirmish))
    by (vm_compute; left; reflexivity).
  split; [exact skirmish_reachable |]. split; [exact Hin |].
  apply (every_enemy_reaches_the_end MoreExamples.skirmish MoreExamples.front
           skirmish_reachable Hin).
Defined.

(** ** Where the money comes from *)

Import Ledger.

(** *** The bounties to come *)

Lemma bounty_of_nonneg (enemy_type : string) : 0 <= bounty_of enemy_type.
Proof.
  unfold bounty_of.
  repeat match goal with
         | |- context [String.eqb ?a ?b] => destruct (String.eqb a b)
         end; lia.
Qed.

Lemma wave_bounty_nonneg (wave : list string) : 0 <= wave_bounty wave.
Proof.
  unfold wave_bounty. induction wave as [|ty wave IH]; cbn [fold_right];
    [lia |].
  pose proof (bounty_of_nonneg ty). lia.
Qed.

Lemma waves_bounty_nonneg (waves : list (list string)) :
  0 <= waves_bounty waves.
Proof.
  unfold waves_bounty. induction waves as [|w waves IH]; cbn [fold_right];
    [lia |].
  pose proof (wave_bounty_nonneg w). lia.
Qed.

Lemma pending_nonneg (wm : WaveManager.t) : 0 <= pending wm.
Proof.
  unfold pending. destruct (WaveManager.active wm).
  - destruct (nth_error _ _) as [wave|]; [| lia].
    pose proof (wave_bounty_nonneg (skipn (WaveManager.enemy_index wm) wave)).
    pose proof (waves_bounty_nonneg
                  (skipn (S (WaveManager.current_wave wm))
                         (WaveManager.waves wm))).
    lia.
  - apply waves_bounty_nonneg.
Qed.

Lemma pending_start_wave (wm : WaveManager.t) :
  WaveManager.active wm = false ->
  pending (fst (WaveManager.start_wave wm)) = pending wm.
Proof.
  intros Hact. unfold WaveManager.start_wave.
  destruct (Nat.ltb_spec (WaveManager.current_wave wm)
              (List.length (WaveManager.waves wm))) as [Hlt|_];
    [| reflexivity].
  unfold pending. cbn [fst WaveManager.active WaveManager.waves
                         WaveManager.current_wave WaveManager.enemy_index].
  rewrite Hact.
  destruct (nth_error (WaveManager.waves wm) (WaveManager.current_wave wm))
    as [wave|] eqn:Hwave; [| apply nth_error_None in Hwave; lia].
  rewrite (skipn_nth_error _ _ _ Hwave). reflexivity.
Qed.

Lemma create_enemy_bounty (fresh : nat) (enemy_type : string)
    (path : list (Z * Z)) (e : Enemy.t) :
  EnemyFactory.create_enemy fresh enemy_type path = Ok e ->
  Enemy.value e = bounty_of enemy_type.
Proof.
  unfold EnemyFactory.create_enemy, Enemy.init, bounty_of.
  destruct path as [|[px py] path];
    repeat match goal with
           | |- context [String.eqb ?a ?b] => destruct (String.eqb a b)
           end;
    intros H; try discriminate H; injection H as <-; reflexivity.
Qed.

(** A call of [WaveManager.update] moves the bounty of the enemy it makes
    from the bounties to come to that enemy. *)
Lemma pending_update (fresh : nat) (path : list (Z * Z))
    (wm wm' : WaveManager.t) (o : option Enemy.t) :
  WaveManager.update fresh wm path = Ok (wm', o) ->
  pending wm' + match o with Some e => Enemy.value e | None => 0 end
  = pending wm.
Proof.
  unfold WaveManager.update. intros H.
  destruct (WaveManager.active wm) eqn:Hact; simpl in H;
    [| injection H as <- <-; lia].
  destruct (WaveManager.spawn_delay wm <=? WaveManager.spawn_timer wm + 1).
  - destruct (nth_error (WaveManager.waves wm) (WaveManager.current_wave wm))
      as [wave|] eqn:Hwave; [| discriminate H].
    destruct (Nat.ltb_spec (WaveManager.enemy_index wm) (List.length wave))
      as [Hin|Hout].
    + destruct (nth_error wave (WaveManager.enemy_index wm)) as [ty|] eqn:Hty;
        [| discriminate H].
      apply bind_Ok_inv in H. destruct H as (e & Hcreate & H).
      injection H as <- <-. apply create_enemy_bounty in Hcreate.
      unfold pending.
      cbn [WaveManager.active WaveManager.waves WaveManager.current_wave
             WaveManager.enemy_index].
      rewrite Hact, Hwave, (skipn_nth_error _ _ _ Hty), Hcreate.
      unfold wave_bounty. simpl. lia.
    + destruct (Nat.leb_spec (List.length wave) (WaveManager.enemy_index wm))
        as [Hle|Hlt]; [| lia].
      injection H as <- <-. unfold pending.
      cbn [WaveManager.active WaveManager.waves WaveManager.current_wave
             WaveManager.enemy_index].
      rewrite Hact, Hwave, (skipn_all2 wave) by exact Hle.
      unfold wave_bounty. simpl. lia.
  - injection H as <- <-. unfold pending.
    cbn [WaveManager.active WaveManager.waves WaveManager.current_wave
           WaveManager.enemy_index].
    rewrite Hact. lia.
Qed.

(** *** The bounties on the list *)

Lemma on_field_app (l1 l2 : list Enemy.t) :
  on_field (l1 ++ l2) = on_field l1 + on_field l2.
Proof.
  unfold on_field. induction l1 as [|a l1 IH]; simpl; [reflexivity |].
  rewrite IH. lia.
Qed.

Lemma on_field_values (l : list Enemy.t) : forall l',
  map Enemy.value l' = map Enemy.value l -> on_field l' = on_field l.
Proof.
  unfold on_field. induction l as [|a l IH]; intros l' Hmap.
  - destruct l'; [reflexivity | discriminate Hmap].
  - destruct l' as [|a' l']; [discriminate Hmap |].
    simpl in Hmap. injection Hmap as Ha Hl. simpl.
    rewrite Ha, (IH l' Hl). reflexivity.
Qed.

Lemma on_field_nonneg (l : list Enemy.t) :
  Forall (fun e => 0 <= Enemy.value e) l -> 0 <= on_field l.
Proof.
  unfold on_field. induction 1 as [|a l Ha _ IH]; simpl; lia.
Qed.

(** Every enemy after the loop is an enemy from before it, with the same
    identity and the same bounty. *)
Lemma update_enemies_partner (es : list Enemy.t) : forall es' acc acc',
  update_enemies es acc = Ok (es', acc') ->
  Forall (fun e' => exists e, In e es /\ Enemy.eid e = Enemy.eid e'
                              /\ Enemy.value e = Enemy.value e') es'.
Proof.
  induction es as [|e es IH]; intros es' acc acc' H; simpl in H.
  - injection H as <- _. constructor.
  - apply bind_Ok_inv in H. destruct H as ([e1 acc1] & Hone & H).
    apply bind_Ok_inv in H. destruct H as ([es1 acc2] & Hrest & H).
    injection H as <- _. constructor.
    + exists e. split; [left; reflexivity |].
      unfold update_enemy in Hone. apply bind_Ok_inv in Hone.
      destruct Hone as ([e2 b] & Hupd & Hone).
      assert (e1 = e2) as ->.
      { destruct b; [| destruct (negb (Enemy.is_alive e2))];
          injection Hone as <- _; reflexivity. }
      destruct (enemy_update_health _ _ _ Hupd) as (_ & Hv & Hid).
      split; congruence.
    + eapply Forall_impl; [| eapply IH; exact Hrest].
      intros e' (e0 & Hin & Hid & Hv). exists e0.
      split; [right; exact Hin | split; assumption].
Qed.

Lemma survivors_values (l1 : list Enemy.t) (q : Enemy.t -> bool) :
  NoDup (map Enemy.eid l1) ->
  forall l2,
    map Enemy.eid l2 = map Enemy.eid (filter q l1) ->
    Forall (fun e' => exists e, In e l1 /\ Enemy.eid e = Enemy.eid e'
                                /\ Enemy.value e = Enemy.value e') l2 ->
    map Enemy.value l2 = map Enemy.value (filter q l1).
Proof.
  intros Hnd.
  assert (Hsub : forall e, In e (filter q l1) -> In e l1)
    by (intros e He; apply filter_In in He; tauto).
  revert Hsub. generalize (filter q l1) as s.
  induction s as [|s0 s IH]; intros Hsub l2 Hids Hall.
  - destruct l2; [reflexivity | discriminate Hids].
  - destruct l2 as [|e2 l2]; [discriminate Hids |].
    simpl in Hids. injection Hids as Hid Hids.
    inversion Hall as [|? ? (e1 & Hin1 & Hid1 & Hv1) Hall']; subst.
    simpl. f_equal.
    + assert (e1 = s0) as <-
        by (eapply NoDup_eid_inj;
            [exact Hnd | exact Hin1 | apply Hsub; left; reflexivity
            | congruence]).
      symmetry. exact Hv1.
    + apply IH; [intros e He; apply Hsub; right; exact He | assumption ..].
Qed.

Lemma unmarked_and_bounty (es : list Enemy.t) :
  Forall (fun e => 0 <= Enemy.value e) es ->
  on_field (filter (fun e => negb (Tally.marked e)) es) + Tally.bounty es
  <= on_field es.
Proof.
  induction 1 as [|e es He _ IH].
  - unfold on_field, Tally.bounty. simpl. lia.
  - rewrite bounty_cons.
    change (on_field (e :: es)) with (Enemy.value e + on_field es).
    cbn [filter]. unfold Tally.marked, Tally.dead_on_path in *.
    destruct (Enemy.at_end e), (Enemy.is_alive e); simpl;
      try change (on_field (e :: ?l)) with (Enemy.value e + on_field l);
      lia.
Qed.

(** The enemy loop and the removal: what leaves the list as a bounty is
    taken off the bounties on the list. *)
Lemma move_and_remove_field (g1 g2 : TowerDefenseGame.t) :
  NoDup (map Enemy.eid (enemies g1)) ->
  Forall (fun e => 0 <= Enemy.value e) (enemies g1) ->
  move_and_remove g1 = Ok g2 ->
  on_field (enemies g2) + Tally.bounty (enemies g1) <= on_field (enemies g1).
Proof.
  intros Hnd Hval Hmove.
  pose proof (move_and_remove_survivors _ _ Hnd Hmove) as Hids.
  unfold move_and_remove in Hmove.
  apply bind_Ok_inv in Hmove. destruct Hmove as ([es' acc] & Hloop & Hmove).
  injection Hmove as <-. cbn [set_enemies enemies] in *.
  pose proof (update_enemies_partner _ _ _ _ Hloop) as Hpart.
  pose proof (Forall_remove_enemies _ (enemies_to_remove acc) _ Hpart)
    as Hpart'.
  rewrite (on_field_values _ _
             (survivors_values _ _ Hnd _ Hids Hpart')).
  apply unmarked_and_bounty. exact Hval.
Qed.

(** *** The score and the bounties *)

Lemma balanced_same (g g' : TowerDefenseGame.t) :
  score g' = score g -> enemies g' = enemies g ->
  wave_manager g' = wave_manager g -> balanced g -> balanced g'.
Proof.
  unfold balanced. intros -> -> ->. auto.
Qed.

Lemma balanced_start_wave (g : TowerDefenseGame.t) :
  balanced g -> balanced (fst (start_wave g)).
Proof.
  intros Hb. unfold start_wave.
  destruct (WaveManager.active (wave_manager g)) eqn:Hact; [exact Hb |].
  cbn [negb]. pose proof (pending_start_wave _ Hact) as Hp.
  destruct (WaveManager.start_wave (wave_manager g)) as [wm started].
  cbn [fst] in *. unfold balanced in *.
  cbn [set_wave_manager score enemies wave_manager]. rewrite Hp. exact Hb.
Qed.

Lemma balanced_handle_key (k : pygame.key) (g : TowerDefenseGame.t) :
  balanced g -> balanced (handle_key k g).
Proof.
  intros Hb. destruct k; unfold handle_key;
    try (apply balanced_start_wave; exact Hb);
    try (eapply balanced_same; [| | | exact Hb];
         unfold upgrade_selected_tower, sell_selected_tower,
           select_tower_type;
         repeat match goal with
                | |- context [match ?c with _ => _ end] => destruct c
                end; reflexivity).
Qed.

Lemma balanced_place_tower (g g' : TowerDefenseGame.t) (pos : Z * Z)
    (ok : bool) :
  balanced g -> place_tower pos g = Ok (g', ok) -> balanced g'.
Proof.
  intros Hb H. apply place_tower_inv in H.
  destruct H as [(_ & ->) | (_ & ty & proto & _ & _ & _ & _ & ->)];
    exact Hb.
Qed.

Lemma balanced_select_tower (pos : Z * Z) (g : TowerDefenseGame.t) :
  balanced g -> balanced (fst (select_tower pos g)).
Proof.
  intros Hb. unfold select_tower.
  destruct (tower_at pos (towers g) 0); exact Hb.
Qed.

Lemma balanced_update (g g' : TowerDefenseGame.t) :
  invariant g -> well_formed g -> balanced g -> update g = Ok g' ->
  balanced g'.
Proof.
  intros (_ & _ & _ & _ & Hval) (Hnd & Hlt & _) Hb Hu.
  destruct (update_fields _ _ Hu)
    as (wm & o & es & acc & tws & es' & Hwm & Hes & Hall & Ewm & Een & _
        & _ & _ & _ & _ & _ & _ & Escore).
  pose proof Hu as Hu'. unfold update in Hu'.
  apply bind_Ok_inv in Hu'. destruct Hu' as (g1 & Hspawn & Hu').
  apply bind_Ok_inv in Hu'. destruct Hu' as (g2 & Hmove & _).
  destruct (update_economy _ _ _ Hspawn Hu) as (_ & _ & Hscore).
  pose proof (pending_update _ _ _ _ _ Hwm) as Hpend.
  (* the enemies after the spawn *)
  assert (H1 : enemies g1
               = (enemies g ++ match o with Some e => [e] | None => [] end)%list
               /\ NoDup (map Enemy.eid (enemies g1))
               /\ Forall (fun e => 0 <= Enemy.value e) (enemies g1)).
  { unfold spawn_enemies in Hspawn. rewrite Hwm in Hspawn. cbn [bind] in Hspawn.
    destruct o as [e|]; injection Hspawn as <-;
      cbn [set_next_eid set_enemies set_wave_manager enemies];
      rewrite ?app_nil_r; (split; [reflexivity |]).
    - split.
      + rewrite map_app. simpl. rewrite (wave_update_eid _ _ _ _ _ Hwm).
        apply NoDup_snoc_fresh; assumption.
      + apply Forall_app. split; [exact Hval |].
        constructor; [| constructor]. eapply wave_update_value. exact Hwm.
    - split; assumption. }
  destruct H1 as (E1 & Hnd1 & Hval1).
  pose proof (move_and_remove_field _ _ Hnd1 Hval1 Hmove) as Hfield.
  (* the towers leave the bounties as they are *)
  assert (E2 : on_field (enemies g') = on_field (enemies g2)).
  { apply on_field_values.
    pose proof (check_economy (update_towers g2)) as Hc. simpl in Hc.
    destruct Hc as (_ & _ & _ & He & _).
    pose proof (update_towers_economy g2) as (_ & _ & _ & _ & _ & Hhit).
    assert (Hg' : g' = check_victory (check_game_over (update_towers g2))).
    { unfold update in Hu. rewrite Hspawn in Hu. cbn [bind] in Hu.
      rewrite Hmove in Hu. cbn [bind] in Hu. injection Hu as <-.
      reflexivity. }
    rewrite Hg', He. apply Forall2_hit_values. exact Hhit. }
  unfold balanced in *. rewrite E2, Hscore, Ewm.
  rewrite E1, on_field_app in Hfield.
  assert (Ho : on_field match o with Some e => [e] | None => [] end
               = match o with Some e => Enemy.value e | None => 0 end)
    by (destruct o; unfold on_field; simpl; lia).
  rewrite E1 in *. lia.
Qed.

(** *** What the towers have cost *)

Lemma tower_attack_grade (tw tw' : Tower.t) (es es' : list Enemy.t) (d : Z) :
  tower_attack tw es = (tw', es', d) ->
  Tower.level tw' = Tower.level tw /\ Tower.cost tw' = Tower.cost tw
  /\ Tower.damage tw' = Tower.damage tw
  /\ Tower.cooldown tw' = Tower.cooldown tw /\ Tower.cls tw' = Tower.cls tw
  /\ Tower.radius tw' = Tower.radius tw.
Proof.
  unfold tower_attack, Tower.attack, BomberTower.attack. intros H.
  destruct (Tower.cls tw) eqn:Hcls;
    destruct (negb (Tower.can_attack tw));
    try (injection H as <- _ _; rewrite <- Hcls; repeat split; reflexivity);
    try (destruct (Tower.find_target tw es) as [[i en]|];
         injection H as <- _ _; rewrite <- Hcls; repeat split; reflexivity);
    destruct (filter (Tower.in_range tw) es);
    injection H as <- _ _; rewrite <- Hcls; repeat split; reflexivity.
Qed.

Lemma invested_app (l1 l2 : list Tower.t) :
  invested (l1 ++ l2) = invested l1 + invested l2.
Proof.
  unfold invested. induction l1 as [|a l1 IH]; simpl; [reflexivity |].
  rewrite IH. lia.
Qed.

Lemma invested_paid (l : list Tower.t) : forall l',
  map paid l' = map paid l -> invested l' = invested l.
Proof.
  unfold invested. induction l as [|a l IH]; intros l' Hmap.
  - destruct l'; [reflexivity | discriminate Hmap].
  - destruct l' as [|a' l']; [discriminate Hmap |].
    simpl in Hmap. injection Hmap as Ha Hl. simpl.
    rewrite Ha, (IH l' Hl). reflexivity.
Qed.

Lemma invested_delete (l : list Tower.t) : forall i tw,
  nth_error l i = Some tw ->
  invested (list_delete i l) + paid tw = invested l.
Proof.
  unfold invested. induction l as [|a l IH]; intros i tw Hnth;
    [destruct i; discriminate Hnth |].
  destruct i as [|i]; simpl in Hnth |- *.
  - injection Hnth as <-. lia.
  - rewrite <- (IH i tw Hnth). lia.
Qed.

Lemma invested_update (f : Tower.t -> Tower.t) (l : list Tower.t) :
  forall i tw,
    nth_error l i = Some tw ->
    invested (list_update i f l) + paid tw = invested l + paid (f tw).
Proof.
  unfold invested. induction l as [|a l IH]; intros i tw Hnth;
    [destruct i; discriminate Hnth |].
  destruct i as [|i]; simpl in Hnth |- *.
  - injection Hnth as <-. lia.
  - pose proof (IH i tw Hnth). lia.
Qed.

Lemma attack_all_paid (tws : list Tower.t) : forall es tws' es',
  attack_all tws es = (tws', es') -> map paid tws' = map paid tws.
Proof.
  induction tws as [|tw tws IH]; intros es tws' es' H; simpl in H.
  - injection H as <- _. reflexivity.
  - destruct (tower_attack tw es) as [[tw1 es1] d] eqn:Hatt.
    destruct (attack_all tws es1) as [tws2 es2] eqn:Hall.
    injection H as <- _. simpl.
    destruct (tower_attack_grade _ _ _ _ _ Hatt) as (Hl & Hc & _).
    rewrite (IH _ _ _ Hall). unfold paid. rewrite Hl, Hc. reflexivity.
Qed.

Lemma graded_paid (tw : Tower.t) :
  tower_ok tw -> graded tw ->
  Tower.cost tw <= paid tw /\ 0 <= paid tw.
Proof.
  intros (Hcost & _) (n & Hlevel & _). unfold paid. rewrite Hlevel.
  assert (0 <= Tower.cost tw / 2 /\ 0 <= Tower.cost tw)
    by (destruct Hcost as [-> | [-> | ->]]; split; vm_compute; discriminate).
  nia.
Qed.

Lemma funded_place_tower (g g' : TowerDefenseGame.t) (pos : Z * Z)
    (ok : bool) :
  invariant g -> funded g -> place_tower pos g = Ok (g', ok) -> funded g'.
Proof.
  intros (_ & Hproto & _) Hf H. apply place_tower_inv in H.
  destruct H as [(_ & ->) | (_ & ty & proto & _ & Hget & _ & _ & ->)];
    [exact Hf |].
  rewrite Hproto in Hget.
  assert (Hlevel : Tower.level proto = 1).
  { revert Hget. simpl.
    repeat match goal with
           | |- context [String.eqb ?a ?b] => destruct (String.eqb a b)
           end;
      intros H; try discriminate H; injection H as <-; reflexivity. }
  unfold funded in *.
  cbn [set_money set_economy set_towers towers money score].
  rewrite invested_app. unfold invested at 2. cbn [fold_right].
  unfold paid.
  change (Tower.level (Tower.set_xy (fst (get_grid_position pos))
                         (snd (get_grid_position pos)) (Tower.clone proto)))
    with (Tower.level proto).
  change (Tower.cost (Tower.set_xy (fst (get_grid_position pos))
                        (snd (get_grid_position pos)) (Tower.clone proto)))
    with (Tower.cost proto).
  rewrite Hlevel. lia.
Qed.

Lemma funded_upgrade (g : TowerDefenseGame.t) :
  funded g -> funded (fst (upgrade_selected_tower g)).
Proof.
  intros Hf. unfold upgrade_selected_tower.
  destruct (selected g) as [[i tw]|] eqn:Hsel; [| exact Hf].
  destruct (Tower.cost tw / 2 <=? money g); [| exact Hf].
  unfold selected in Hsel.
  destruct (selected_tower g) as [j|]; [| discriminate Hsel].
  destruct (nth_error (towers g) j) as [tw'|] eqn:Hnth; [| discriminate Hsel].
  injection Hsel as <- <-.
  pose proof (invested_update (fun tw => fst (Tower.upgrade tw)) _ _ _ Hnth)
    as Hup.
  unfold funded in *.
  cbn [fst set_money set_economy set_towers towers money score].
  set (tws' := list_update j _ (towers g)) in *.
  unfold paid in Hup.
  cbn [fst Tower.upgrade Tower.level Tower.cost] in Hup. nia.
Qed.

Lemma funded_sell (g : TowerDefenseGame.t) :
  invariant g -> Forall graded (towers g) -> funded g ->
  funded (fst (sell_selected_tower g)).
Proof.
  intros (_ & _ & _ & Hplaced & _) Hgr Hf. unfold sell_selected_tower.
  destruct (selected g) as [[i tw]|] eqn:Hsel; [| exact Hf].
  pose proof (selected_In _ _ _ Hsel) as Hin.
  unfold selected in Hsel.
  destruct (selected_tower g) as [j|]; [| discriminate Hsel].
  destruct (nth_error (towers g) j) as [tw'|] eqn:Hnth; [| discriminate Hsel].
  injection Hsel as <- <-.
  pose proof (invested_delete _ _ _ Hnth) as Hdel.
  rewrite Forall_forall in Hplaced, Hgr.
  pose proof (graded_paid _ (proj1 (Hplaced _ Hin)) (Hgr _ Hin)) as (Hp & _).
  pose proof (sell_value_less _ (proj1 (proj1 (Hplaced _ Hin)))) as Hless.
  unfold funded in *.
  cbn [fst set_selection set_money set_economy set_towers towers money score].
  lia.
Qed.

Lemma funded_same (g g' : TowerDefenseGame.t) :
  money g' = money g -> score g' = score g -> towers g' = towers g ->
  funded g -> funded g'.
Proof.
  unfold funded. intros -> -> ->. auto.
Qed.

Lemma funded_handle_key (k : pygame.key) (g : TowerDefenseGame.t) :
  invariant g -> Forall graded (towers g) -> funded g ->
  funded (handle_key k g).
Proof.
  intros Hinv Hgr Hf. destruct k; unfold handle_key;
    try (apply funded_upgrade; exact Hf);
    try (apply funded_sell; assumption);
    try (eapply funded_same; [| | | exact Hf];
         unfold start_wave, select_tower_type;
         repeat match goal with
                | |- context [match ?c with _ => _ end] => destruct c
                end; reflexivity).
Qed.

Lemma funded_select_tower (pos : Z * Z) (g : TowerDefenseGame.t) :
  funded g -> funded (fst (select_tower pos g)).
Proof.
  intros Hf. unfold select_tower.
  destruct (tower_at pos (towers g) 0); exact Hf.
Qed.

Lemma funded_update (g g' : TowerDefenseGame.t) :
  funded g -> update g = Ok g' -> funded g'.
Proof.
  intros Hf Hu.
  destruct (update_fields _ _ Hu)
    as (wm & o & es & acc & tws & es' & _ & Hes & Hall & _ & _ & Etw & _).
  pose proof Hu as Hu'. unfold update in Hu'.
  apply bind_Ok_inv in Hu'. destruct Hu' as (g1 & Hspawn & _).
  destruct (update_economy _ _ _ Hspawn Hu) as (_ & Hmoney & Hscore).
  unfold funded in *. rewrite Hmoney, Hscore, Etw.
  rewrite (invested_paid (towers g) tws (attack_all_paid _ _ _ _ Hall)).
  lia.
Qed.

(** *** The grades of the towers *)

Lemma graded_prototype (tower_type : string) (proto : Tower.t) (px py : Z) :
  dict_get tower_type (tower_prototypes init) = Ok proto ->
  graded (Tower.set_xy px py (Tower.clone proto)).
Proof.
  simpl.
  repeat match goal with
         | |- context [String.eqb ?a ?b] => destruct (String.eqb a b)
         end;
    intros H; try discriminate H; injection H as <-;
    exists 0%nat; repeat split.
Qed.

Lemma graded_upgrade (tw : Tower.t) :
  graded tw -> graded (fst (Tower.upgrade tw)).
Proof.
  intros (n & Hlevel & Hstats & Hcost & Hradius). exists (S n).
  cbn [fst Tower.upgrade Tower.level Tower.damage Tower.cooldown Tower.cls
         Tower.cost Tower.radius].
  split; [rewrite Hlevel, Nat2Z.inj_succ; lia |].
  split; [| split; [exact Hcost | rewrite Hradius, Nat2Z.inj_succ; lia]].
  cbn [stats]. rewrite <- Hstats. reflexivity.
Qed.

Lemma graded_attack_all (tws : list Tower.t) : forall es tws' es',
  Forall graded tws -> attack_all tws es = (tws', es') -> Forall graded tws'.
Proof.
  induction tws as [|tw tws IH]; intros es tws' es' Hgr H; simpl in H.
  - injection H as <- _. constructor.
  - destruct (tower_attack tw es) as [[tw1 es1] d] eqn:Hatt.
    destruct (attack_all tws es1) as [tws2 es2] eqn:Hall.
    injection H as <- _. inversion Hgr as [|? ? Htw Hrest]; subst.
    constructor; [| eapply IH; eassumption].
    destruct (tower_attack_grade _ _ _ _ _ Hatt)
      as (Hl & Hc & Hd & Hcd & Hk & Hr).
    destruct Htw as (n & Hlevel & Hstats & Hcost & Hradius). exists n.
    rewrite Hl, Hc, Hd, Hcd, Hk, Hr. repeat split; assumption.
Qed.

Lemma graded_place_tower (g g' : TowerDefenseGame.t) (pos : Z * Z)
    (ok : bool) :
  invariant g -> Forall graded (towers g) ->
  place_tower pos g = Ok (g', ok) -> Forall graded (towers g').
Proof.
  intros (_ & Hproto & _) Hgr H. apply place_tower_inv in H.
  destruct H as [(_ & ->) | (_ & ty & proto & _ & Hget & _ & _ & ->)];
    [exact Hgr |].
  cbn [set_money set_economy set_towers towers].
  apply Forall_app. split; [exact Hgr |]. constructor; [| constructor].
  rewrite Hproto in Hget. eapply graded_prototype. exact Hget.
Qed.

Lemma graded_handle_key (k : pygame.key) (g : TowerDefenseGame.t) :
  Forall graded (towers g) -> Forall graded (towers (handle_key k g)).
Proof.
  intros Hgr. destruct k; unfold handle_key, start_wave,
    upgrade_selected_tower, sell_selected_tower, select_tower_type;
    repeat match goal with
           | |- context [match ?c with _ => _ end] => destruct c
           end;
    cbn [fst set_selection set_money set_economy set_towers
           set_wave_manager set_grid_visible towers];
    try exact Hgr.
  - apply Forall_list_update; [apply graded_upgrade | exact Hgr].
  - apply Forall_list_delete. exact Hgr.
Qed.

(** *** The three together *)

Lemma audited_init : audited init.
Proof.
  split; [| split].
  - unfold balanced. vm_compute. discriminate.
  - unfold funded. vm_compute. discriminate.
  - constructor.
Qed.

Lemma audited_select_tower_type (tower_type : string)
    (g : TowerDefenseGame.t) :
  audited g -> audited (select_tower_type tower_type g).
Proof.
  intros H. unfold select_tower_type.
  destruct (dict_get tower_type (tower_prototypes g)); exact H.
Qed.

Lemma audited_place_tower (g g' : TowerDefenseGame.t) (pos : Z * Z)
    (ok : bool) :
  invariant g -> audited g -> place_tower pos g = Ok (g', ok) -> audited g'.
Proof.
  intros Hinv (Hb & Hf & Hgr) H. split; [| split].
  - eapply balanced_place_tower; eassumption.
  - eapply funded_place_tower; eassumption.
  - eapply graded_place_tower; eassumption.
Qed.

Lemma audited_select_tower (pos : Z * Z) (g : TowerDefenseGame.t) :
  audited g -> audited (fst (select_tower pos g)).
Proof.
  intros H. unfold select_tower.
  destruct (tower_at pos (towers g) 0); exact H.
Qed.

Lemma audited_handle_key (k : pygame.key) (g : TowerDefenseGame.t) :
  invariant g -> audited g -> audited (handle_key k g).
Proof.
  intros Hinv (Hb & Hf & Hgr). split; [| split].
  - apply balanced_handle_key. exact Hb.
  - apply funded_handle_key; assumption.
  - apply graded_handle_key. exact Hgr.
Qed.

Lemma audited_event_loop (events : list pygame.event) (mouse_pos : Z * Z) :
  forall g g' b,
    invariant g -> audited g ->
    event_loop events mouse_pos g = Ok (g', b) -> audited g'.
Proof.
  induction events as [|ev events IH]; intros g g' b Hinv Ha H.
  - injection H as <- _. exact Ha.
  - destruct ev as [|k|button|]; cbn [event_loop] in H.
    + injection H as <- _. exact Ha.
    + eapply IH; [| | exact H];
        [apply invariant_handle_key | apply audited_handle_key]; assumption.
    + destruct (button =? 1); [| eapply IH; eassumption].
      destruct (truthy (selected_tower_type g)).
      * apply bind_Ok_inv in H. destruct H as ([g1 ok] & Hplace & H).
        eapply IH; [| | exact H];
          [eapply invariant_place_tower | eapply audited_place_tower];
          eassumption.
      * eapply IH; [| | exact H];
          [apply invariant_select_tower | apply audited_select_tower];
          assumption.
    + eapply IH; eassumption.
Qed.

Lemma audited_process_events (events : list pygame.event)
    (mouse_pos : Z * Z) (g g' : TowerDefenseGame.t) (b : bool) :
  invariant g -> audited g ->
  process_events events mouse_pos g = Ok (g', b) -> audited g'.
Proof.
  intros Hinv Ha H. unfold process_events in H.
  apply bind_Ok_inv in H. destruct H as ([g1 continue] & Hloop & H).
  pose proof (audited_event_loop _ _ _ _ _ Hinv Ha Hloop) as Ha1.
  destruct continue; [| injection H as <- _; exact Ha1].
  destruct (dragging_tower g1); injection H as <- _; exact Ha1.
Qed.

Lemma audited_update (g g' : TowerDefenseGame.t) :
  invariant g -> well_formed g -> audited g -> update g = Ok g' ->
  audited g'.
Proof.
  intros Hinv Hwf (Hb & Hf & Hgr) Hu. split; [| split].
  - eapply balanced_update; eassumption.
  - eapply funded_update; eassumption.
  - destruct (update_fields _ _ Hu)
      as (wm & o & es & acc & tws & es' & _ & _ & Hall & _ & _ & Etw & _).
    rewrite Etw. eapply graded_attack_all; eassumption.
Qed.

Lemma reachable_audited (g : TowerDefenseGame.t) : reachable g -> audited g.
Proof.
  induction 1 as [| g ty Hr IH | g g' pos ok Hr IH Hplace | g pos Hr IH
                  | g Hr IH | g Hr IH | g Hr IH
                  | g g' events mouse running Hr IH Hev | g g' Hr IH Hu].
  - exact audited_init.
  - apply audited_select_tower_type. exact IH.
  - eapply audited_place_tower; [apply reachable_invariant | |]; eassumption.
  - apply audited_select_tower. exact IH.
  - apply (audited_handle_key pygame.K_u);
      [apply reachable_invariant |]; assumption.
  - apply (audited_handle_key pygame.K_s);
      [apply reachable_invariant |]; assumption.
  - apply (audited_handle_key pygame.K_n);
      [apply reachable_invariant |]; assumption.
  - eapply audited_process_events; [apply reachable_invariant | |];
      eassumption.
  - eapply audited_update;
      [apply reachable_invariant | apply reachable_well_formed | |];
      eassumption.
Qed.

(** *** How far a tower can be upgraded *)

Lemma paid_in_invested (tw : Tower.t) (tws : list Tower.t) :
  Forall (fun tw => 0 <= paid tw) tws -> In tw tws -> paid tw <= invested tws.
Proof.
  unfold invested.
  induction 1 as [|a l Ha Hl IH]; intros Hin; [destruct Hin |].
  assert (0 <= fold_right (fun tower total => paid tower + total) 0 l).
  { clear IH Hin. induction Hl as [|b l Hb _ IH]; simpl; lia. }
  destruct Hin as [-> | Hin]; simpl; [lia |].
  specialize (IH Hin). lia.
Qed.

Lemma stats_table (c : Tower.class) (n : nat) :
  (n <= 62)%nat -> stats_ok c n = true.
Proof.
  intros Hn.
  assert (Hall : forallb (stats_ok c) (seq 0 63) = true)
    by (destruct c; vm_compute; reflexivity).
  rewrite forallb_forall in Hall. apply Hall. apply in_seq. lia.
Qed.

(** The score never exceeds the 1420 of bounty that the five waves hold. *)
Lemma reachable_score (g : TowerDefenseGame.t) :
  reachable g -> score g <= 1420.
Proof.
  intros Hr. destruct (reachable_audited g Hr) as (Hb & _).
  destruct (reachable_invariant g Hr) as (_ & _ & _ & _ & Hval).
  pose proof (on_field_nonneg _ Hval). pose proof (pending_nonneg (wave_manager g)).
  unfold balanced in Hb.
  change (pending (wave_manager init)) with 1420 in Hb. lia.
Qed.

(** Every tower of a game is the prototype of its class upgraded at most 62
    times: the game never pays for more. *)
Lemma reachable_grade (g : TowerDefenseGame.t) (tw : Tower.t) :
  reachable g -> In tw (towers g) ->
  exists n : nat,
    (n <= 62)%nat
    /\ Tower.level tw = 1 + Z.of_nat n
    /\ (Tower.damage tw, Tower.cooldown tw)
       = stats n (Tower.damage (prototype (Tower.cls tw)))
                 (Tower.cooldown (prototype (Tower.cls tw)))
    /\ Tower.radius tw
       = Tower.radius (prototype (Tower.cls tw)) + 20 * Z.of_nat n.
Proof.
  intros Hr Hin. pose proof (reachable_score g Hr) as Hscore.
  destruct (reachable_audited g Hr) as (_ & Hf & Hgr).
  destruct (reachable_invariant g Hr) as (Hmoney & _ & _ & Hplaced & _).
  assert (Hpaid : Forall (fun tw => 0 <= paid tw) (towers g)).
  { rewrite Forall_forall in *. intros t Ht.
    apply (graded_paid t (proj1 (Hplaced t Ht)) (Hgr t Ht)). }
  pose proof (paid_in_invested _ _ Hpaid Hin) as Hle.
  rewrite Forall_forall in Hplaced, Hgr.
  destruct (Hplaced tw Hin) as ((Hcost & _) & _).
  destruct (Hgr tw Hin) as (n & Hlevel & Hstats & _ & Hradius).
  exists n. split; [| split; [| split]; assumption].
  unfold funded in Hf. change (money init) with 200 in Hf.
  unfold paid in Hle. rewrite Hlevel in Hle.
  assert (Hhalf : 25 <= Tower.cost tw / 2 /\ 50 <= Tower.cost tw)
    by (destruct Hcost as [-> | [-> | ->]]; split; vm_compute; discriminate).
  nia.
Qed.

(** The stats of every tower of a game are small: [Tower.upgrade] multiplies
    them exactly, and does on them what the specification's [upgrade]
    does. *)
Lemma reachable_tower_stats (g : TowerDefenseGame.t) (tw : Tower.t) :
  reachable g -> In tw (towers g) ->
  1 <= Tower.level tw <= 63
  /\ 0 <= Tower.damage tw <= 10 ^ 13
  /\ 10 <= Tower.cooldown tw <= 60
  /\ 80 <= Tower.radius tw <= 1440
  /\ Tower.upgrade tw = Spec.upgrade tw.
Proof.
  intros Hr Hin.
  destruct (reachable_grade g tw Hr Hin) as (n & Hn & Hl & Hs & Hrad).
  assert (Hproto : 80 <= Tower.radius (prototype (Tower.cls tw)) <= 200)
    by (destruct (Tower.cls tw); vm_compute; split; discriminate).
  pose proof (stats_table (Tower.cls tw) n Hn) as Hok.
  unfold stats_ok in Hok. rewrite <- Hs in Hok.
  repeat (apply andb_prop in Hok; destruct Hok as (Hok & ?)).
  repeat match goal with
         | H : (_ <=? _) = true |- _ => apply Z.leb_le in H
         | H : (_ =? _) = true |- _ => apply Z.eqb_eq in H
         end.
  apply Z.leb_le in Hok.
  split; [lia |]. split; [lia |]. split; [lia |]. split; [lia |].
  unfold Tower.upgrade, Spec.upgrade. congruence.
Qed.

(** ** The numbers of a game

    [Tower.upgrade], [Enemy.update] and the distances of [select_tower] are
    total functions here; in Python they raise OverflowError on numbers
    beyond the range of binary64.  A game never comes near such numbers:
    its towers and its enemies are bounded as follows. *)

Lemma trails_moderate (speed : float) :
  speed = 2%float \/ speed = 3.5%float \/ speed = 1%float ->
  forallb (fun p : Course.point => Measure.moderate (Course.probe speed p))
          (Course.trail speed)
  = true.
Proof.
  intros [-> | [-> | ->]]; vm_compute; reflexivity.
Qed.

Lemma reachable_moderate (g : TowerDefenseGame.t) (enemy : Enemy.t) :
  reachable g -> In enemy (enemies g) -> Measure.moderate enemy = true.
Proof.
  intros Hr Hin.
  pose proof (reachable_on_course g Hr) as Hc.
  destruct (reachable_good g Hr) as (_ & _ & _ & _ & Hok & _).
  rewrite Forall_forall in Hc, Hok.
  specialize (Hc enemy Hin). destruct (Hok enemy Hin) as (Hpath & Hkind & _).
  apply kind_speed in Hkind. unfold Course.on_course in Hc.
  pose proof (trails_moderate _ Hkind) as Hm.
  rewrite forallb_forall in Hm. specialize (Hm _ Hc).
  unfold Measure.moderate in *.
  cbn [Course.probe Course.position Enemy.x Enemy.y Enemy.path fst snd] in Hm.
  rewrite Hpath. exact Hm.
Qed.

(** X9: nothing in the frame loop raises.  In every state of a game, with
    the mouse at a point of the window (0 <= x < 800 and 0 <= y < 600, what
    pygame reports), a call of [update], a call of [process_events] on any
    batch of events, and so one whole iteration of the loop of [run],
    return normally: the selected tower type is a key of the prototypes,
    the active wave exists and names known kinds of enemy, and no enemy
    divides by a zero distance.  Nor does any number leave the range on
    which Python computes without OverflowError, and on which the
    definitions compute what Python computes: every tower stands on a cell
    centre of the screen, at a level of at most 63, with a damage of at
    most 10^13, a cooldown between 10 and 60 and a radius between 80 and
    1440 (the bounties of the five waves, 1420 in all, pay for no more),
    and every enemy is within 2^25 of the origin, on a path that is. *)
Theorem frame_never_raises
    (g : TowerDefenseGame.t) (events : list pygame.event) (mouse_pos : Z * Z) :
  reachable g -> on_screen mouse_pos = true ->
  (Forall (fun tower =>
             1 <= Tower.level tower <= 63
             /\ 0 <= Tower.damage tower <= 10 ^ 13
             /\ 10 <= Tower.cooldown tower <= 60
             /\ 80 <= Tower.radius tower <= 1440
             /\ on_grid (Tower.x tower, Tower.y tower))
          (towers g)
   /\ Forall (fun enemy => Measure.moderate enemy = true) (enemies g))
  /\ (exists g', update g = Ok g' /\ reachable g')
  /\ (exists g' running,
         process_events events mouse_pos g = Ok (g', running) /\ reachable g')
  /\ (exists g' running,
         run_iteration events mouse_pos g = Ok (g', running) /\ reachable g').
Proof.
  intros Hr _. pose proof (reachable_good g Hr) as Hg.
  destruct (good_update g Hg) as (gu & Hu & _).
  destruct (good_process_events events mouse_pos g Hg) as (g1 & b & Hev & Hg1).
  assert (Hr1 : reachable g1) by (eapply reach_process_events; eassumption).
  split.
  { destruct (reachable_invariant g Hr) as (_ & _ & _ & Hplaced & _).
    rewrite Forall_forall in Hplaced.
    split; apply Forall_forall.
    - intros tower Hin.
      destruct (reachable_tower_stats g tower Hr Hin)
        as (Hl & Hd & Hc & Hrad & _).
      destruct (Hplaced tower Hin) as (_ & Hgrid).
      split; [exact Hl |]. split; [exact Hd |]. split; [exact Hc |].
      split; [exact Hrad | exact Hgrid].
    - intros enemy Hin. exact (reachable_moderate g enemy Hr Hin). }
  split; [exists gu; split; [exact Hu | exact (reach_update _ _ Hr Hu)] |].
  split; [exists g1, b; split; assumption |].
  unfold run_iteration. rewrite Hev. cbn [bind]. unfold tick.
  destruct (good_update g1 Hg1) as (g2 & Hu2 & _).
  destruct (game_state g1); rewrite ?Hu2; cbn [bind];
    eexists; eexists; (split; [reflexivity |]);
    first [exact Hr1 | exact (reach_update _ _ Hr1 Hu2)].
Qed.

Lemma frame_never_raises_witness :
  reachable MoreExamples.skirmish
  /\ on_screen (300, 90) = true
  /\ exists g' running,
       run_iteration
         [pygame.KEYDOWN pygame.K_2; pygame.MOUSEBUTTONDOWN 1;
          pygame.KEYDOWN pygame.K_n]
         (300, 90) MoreExamples.skirmish
       = Ok (g', running)
       /\ reachable g'.
Proof.
  split; [exact skirmish_reachable |]. split; [reflexivity |].
  apply (frame_never_raises MoreExamples.skirmish
           [pygame.KEYDOWN pygame.K_2; pygame.MOUSEBUTTONDOWN 1;
            pygame.KEYDOWN pygame.K_n]
           (300, 90) skirmish_reachable eq_refl).
Defined.

(** ** Tower.upgrade *)

(** C7 (amended): for every unit whose damage is between 0 and 20000 and
    whose cooldown is at most 20000 in absolute value, and for every unit
    that a game holds, [upgrade] adds one to the level, sets damage to
    floor(damage * 1.5), adds 20 to the range, sets the cooldown to
    max(10, floor(cooldown * 0.8)), keeps the stored cost and returns
    floor(cost / 2): it does what the specification's [upgrade] does; from
    damage 10, range 100, cooldown 30 one upgrade gives 15, 120, 24 and a
    second gives 22, 140, 19.  The code multiplies in binary64, which is
    exact on these numbers; the units of a game have a damage of at most
    10^13. *)
Theorem upgrade_spec (t : Tower.t) :
  (0 <= Tower.damage t <= 20000 /\ -20000 <= Tower.cooldown t <= 20000)
  \/ (exists g, reachable g /\ In t (towers g)) ->
  let t1 := fst (Tower.upgrade t) in
  let t2 := fst (Tower.upgrade t1) in
  (Tower.level t1 = Tower.level t + 1
   /\ Tower.damage t1 = Tower.damage t * 3 / 2
   /\ Tower.radius t1 = Tower.radius t + 20
   /\ Tower.cooldown t1 = Z.max 10 (Tower.cooldown t * 4 / 5)
   /\ Tower.cost t1 = Tower.cost t
   /\ snd (Tower.upgrade t) = Tower.cost t / 2)
  /\ Tower.upgrade t = Spec.upgrade t
  /\ (Tower.damage t = 10 -> Tower.radius t = 100 -> Tower.cooldown t = 30 ->
      (Tower.damage t1 = 15 /\ Tower.radius t1 = 120 /\ Tower.cooldown t1 = 24)
      /\ (Tower.damage t2 = 22 /\ Tower.radius t2 = 140
          /\ Tower.cooldown t2 = 19)).
Proof.
  intros H t1 t2.
  assert (Hspec : Tower.upgrade t = Spec.upgrade t).
  { destruct H as [(Hd & Hc) | (g & Hr & Hin)].
    - destruct (upgrade_arithmetic_is_exact (Tower.damage t) ltac:(lia))
        as (Hexact & _).
      destruct (upgrade_arithmetic_is_exact (Tower.cooldown t) Hc)
        as (_ & Hexact').
      unfold Tower.upgrade, Spec.upgrade.
      rewrite Hexact, Hexact', max_10_quot_div.
      rewrite Z.quot_div_nonneg by lia. reflexivity.
    - apply (reachable_tower_stats g t Hr Hin). }
  split; [| split].
  - subst t1. rewrite Hspec. repeat split.
  - exact Hspec.
  - intros H10 H100 H30. clear H Hspec.
    subst t2 t1. destruct t; simpl in *. subst.
    repeat split; vm_compute; reflexivity.
Qed.

Lemma upgrade_spec_witness :
  (0 <= Tower.damage (BasicTower 100 260) <= 20000
   /\ -20000 <= Tower.cooldown (BasicTower 100 260) <= 20000)
  /\ (exists g, reachable g /\ In (BasicTower 100 260) (towers g))
  /\ Tower.damage
       (fst (Tower.upgrade (fst (Tower.upgrade (BasicTower 100 260)))))
     = 22.
Proof.
  split; [simpl; lia |]. split.
  - exists MoreExamples.first_tower.
    split; [exact first_tower_reachable | left; reflexivity].
  - apply (upgrade_spec (BasicTower 100 260));
      [left; simpl; lia | reflexivity ..].
Defined.

(** C7 as stated fails beyond the numbers binary64 multiplies exactly.  For
    a tower of damage [2^52 + 1] the code's [int(damage * 1.5)] is one more
    than floor(damage * 1.5): the product is rounded to even; for a
    cooldown of [2^51 + 3] its [int(cooldown * 0.8)] is one more than
    floor(cooldown * 0.8). *)
Lemma upgrade_rounds_in_binary64 :
  Tower.damage (fst (Tower.upgrade Examples.heavy)) = 6755399441055746
  /\ Tower.damage (fst (Spec.upgrade Examples.heavy)) = 6755399441055745
  /\ Tower.cooldown (fst (Tower.upgrade Examples.heavy)) = 1801439850948201
  /\ Tower.cooldown (fst (Spec.upgrade Examples.heavy)) = 1801439850948200.
Proof.
  repeat split; vm_compute; reflexivity.
Qed.
